(** * Gemini live voice app: resampler worklet, playback queue, session gating

  A shallow embedding of [index.tsx]: the [AudioProcessor] worklet
  (accumulator, linear-interpolation resampler, 16-bit quantiser), the
  base64 helpers, and the parts of [GeminiLiveVoiceApp] that gate sending,
  drive the playback queue and own the periodic image timer.

  JavaScript Numbers that hold real quantities (samples, the resample
  ratio, the interpolation position, clock readings) are IEEE binary64
  values, taken from the Standard Library's [SpecFloat]; a store into a
  [Float32Array] rounds to binary32.  Numbers that only ever hold array
  lengths, indices and counters are integers far below 2^53, where binary64
  arithmetic is exact: they are modelled in [nat] and [Z]. *)

From Stdlib Require Import ZArith Lia Bool Ascii String.
From Stdlib Require Strings.Byte DecimalString.
From Stdlib Require Import Floats.SpecFloat.
From stdpp Require Import base list strings.

Local Open Scope Z_scope.

(** ** IEEE binary64 numbers and the [Math] functions the worklet calls *)
Module Num.

Definition float := spec_float.

Definition prec : Z := 53.
Definition emax : Z := 1024.

Definition nan : float := S754_nan.
Definition fadd : float -> float -> float := SFadd prec emax.
Definition fsub : float -> float -> float := SFsub prec emax.
Definition fmul : float -> float -> float := SFmul prec emax.
Definition fdiv : float -> float -> float := SFdiv prec emax.
(** [a < b] and [a <= b]; both are false when an operand is NaN. *)
Definition flt : float -> float -> bool := SFltb.
Definition fle : float -> float -> bool := SFleb.

(** The binary64 number of an integer (exact below 2^53). *)
Definition of_Z (z : Z) : float := binary_normalize prec emax z 0 false.
Definition of_nat (n : nat) : float := of_Z (Z.of_nat n).

Definition zero : float := S754_zero false.
Definition one : float := of_Z 1.
Definition half : float := binary_normalize prec emax 1 (-1) false.

(** The signed mantissa of a finite number: its value is [smant * 2^e]. *)
Definition smant (s : bool) (m : positive) : Z := cond_Zopp s (Z.pos m).

(** Integer-valued Numbers: the results of [Math.floor] and [Math.ceil],
    and the counters computed from them.  Compared with an index or a
    length, which stays far below 2^53, they behave as the integers they
    denote. *)
Inductive xint : Type :=
| XInt (z : Z)
| XPosInf
| XNegInf
| XNaN.

(** [Math.floor]: [Z.shiftl] by a negative amount is a flooring division. *)
Definition Math_floor (x : float) : xint :=
  match x with
  | S754_finite s m e => XInt (Z.shiftl (smant s m) e)
  | S754_zero _ => XInt 0
  | S754_infinity false => XPosInf
  | S754_infinity true => XNegInf
  | S754_nan => XNaN
  end.

(** [Math.ceil x = - Math.floor (- x)]. *)
Definition Math_ceil (x : float) : xint :=
  match x with
  | S754_finite s m e => XInt (- Z.shiftl (- smant s m) e)
  | S754_zero _ => XInt 0
  | S754_infinity false => XPosInf
  | S754_infinity true => XNegInf
  | S754_nan => XNaN
  end.

(** An integer-valued Number back as a binary64 (the floor of a binary64
    is a binary64, so this is exact on the results of [Math_floor]). *)
Definition xint_float (k : xint) : float :=
  match k with
  | XInt z => of_Z z
  | XPosInf => S754_infinity false
  | XNegInf => S754_infinity true
  | XNaN => nan
  end.

(** [Math.floor x] as the binary64 it is: the floor of a signed zero is that
    zero. *)
Definition floor_number (x : float) : float :=
  match x with
  | S754_zero _ => x
  | _ => xint_float (Math_floor x)
  end.

(** [k + c] for an integer constant [c]. *)
Definition xadd (k : xint) (c : Z) : xint :=
  match k with
  | XInt z => XInt (z + c)
  | _ => k
  end.

(** [k < n] and [k <= n] against a length or an index [n]. *)
Definition xlt (k : xint) (n : nat) : bool :=
  match k with
  | XInt z => z <? Z.of_nat n
  | XNegInf => true
  | XPosInf | XNaN => false
  end.
Definition xle (k : xint) (n : nat) : bool :=
  match k with
  | XInt z => z <=? Z.of_nat n
  | XNegInf => true
  | XPosInf | XNaN => false
  end.
(** [n >= k] and [k > 0]. *)
Definition xge_nat (n : nat) (k : xint) : bool := xle k n.
Definition xpos (k : xint) : bool :=
  match k with
  | XInt z => 0 <? z
  | XPosInf => true
  | XNegInf | XNaN => false
  end.

Definition is_neg_zero (x : float) : bool :=
  match x with S754_zero true => true | _ => false end.

(** [Math.min] and [Math.max]: NaN if an operand is NaN, and -0 < +0. *)
Definition Math_min (a b : float) : float :=
  match SFcompare a b with
  | None => nan
  | Some Lt => a
  | Some Gt => b
  | Some Eq => if is_neg_zero a then a else b
  end.
Definition Math_max (a b : float) : float :=
  match SFcompare a b with
  | None => nan
  | Some Lt => b
  | Some Gt => a
  | Some Eq => if is_neg_zero a then b else a
  end.

(** [Math.fround], the rounding of a store into a [Float32Array]: round to
    binary32, then read the result back as a binary64. *)
Definition fround (x : float) : float :=
  match x with
  | S754_finite s m e =>
      match binary_normalize 24 128 (smant s m) e s with
      | S754_finite s' m' e' => binary_normalize prec emax (smant s' m') e' s'
      | y => y
      end
  | _ => x
  end.

(** The integer part of a Number, toward zero (ECMAScript
    ToIntegerOrInfinity, with 0 for NaN and the infinities as in the
    modular conversions). *)
Definition truncZ (x : float) : Z :=
  match x with
  | S754_finite s m e => cond_Zopp s (Z.shiftl (Z.pos m) e)
  | _ => 0
  end.

(** ECMAScript ToInt16, the conversion of a store into an [Int16Array]. *)
Definition ToInt16 (x : float) : Z :=
  let k := truncZ x mod 65536 in
  if 32768 <=? k then k - 65536 else k.

(** [Math.round]: the nearest integer, ties toward +infinity. *)
Definition roundZ (x : float) : Z :=
  match x with
  | S754_finite s m e =>
      if 0 <=? e then Z.shiftl (smant s m) e
      else (2 * smant s m + 2 ^ (- e)) / (2 * 2 ^ (- e))
  | _ => 0
  end.

End Num.

(** ** Bytes, array buffers and the typed-array operations used *)
Module TypedArray.
Import Num.

(** An [ArrayBuffer] (and a [Uint8Array] view of it) is a list of bytes. *)
Definition ArrayBuffer := list Byte.byte.

(** A store into a [Uint8Array]: the value modulo 256. *)
Definition byte_of_Z (z : Z) : Byte.byte :=
  match Byte.of_N (Z.to_N (z mod 256)) with
  | Some b => b
  | None => Byte.x00
  end.
Definition Z_of_byte (b : Byte.byte) : Z := Z.of_N (Byte.to_N b).

(** [new Float32Array(n)]: [n] zeros. *)
Definition Float32Array (n : nat) : list float := replicate n zero.

(** The largest length that ToIndex accepts: [2^53 - 1]. *)
Definition MAX_SAFE_INTEGER : Z := 2 ^ 53 - 1.

(** [new Float32Array(k)] for a computed Number [k]: ToIndex, then the
    allocation.  NaN counts as 0; a negative or infinite length and a
    length above [2^53 - 1] are a RangeError, and so is a length that the
    platform does not allocate, [maxLength] being the longest array it
    allocates at this call. *)
Definition Float32Array_new (maxLength : N) (k : xint) : option (list float) :=
  match k with
  | XNaN => Some (Float32Array 0)
  | XInt z =>
      if (0 <=? z) && (z <=? MAX_SAFE_INTEGER) && (z <=? Z.of_N maxLength)
      then Some (Float32Array (Z.to_nat z))
      else None
  | XPosInf | XNegInf => None
  end.

(** [target.set(source, offset)]: a RangeError ([None]) unless the source
    fits at the offset. *)
Definition set (target source : list float) (offset : nat) : option (list float) :=
  if (offset + length source <=? length target)%nat
  then Some (take offset target ++ source ++ drop (offset + length source) target)
  else None.

(** [a.slice(0, n)]. *)
Definition slice0 {A} (a : list A) (n : nat) : list A := take n a.

(** [a[i] = v] on a [Float32Array]: rounded to binary32; ignored when [i]
    is out of range. *)
Definition store32 (a : list float) (i : nat) (v : float) : list float :=
  <[i := fround v]> a.

(** [a[k]] read into an arithmetic expression or stored into another
    typed array: [undefined] (any [k] that is not an index of [a])
    becomes NaN. *)
Definition read (a : list float) (k : xint) : float :=
  match k with
  | XInt z => if 0 <=? z then default nan (a !! Z.to_nat z) else nan
  | _ => nan
  end.

(** [a.copyWithin(0, start, end)] for non-negative [start] and [end]. *)
Definition copyWithin0 (a : list float) (start end_ : nat) : list float :=
  let len := length a in
  let from := Nat.min start len in
  let final := Nat.min end_ len in
  let count := (final - from)%nat in
  take count (drop from a) ++ drop count a.

(** The bytes of an [Int16Array] (its [.buffer]), little-endian. *)
Definition Int16Array_buffer (a : list Z) : ArrayBuffer :=
  flat_map (fun z => [byte_of_Z (z mod 65536); byte_of_Z ((z mod 65536) / 256)]) a.

End TypedArray.

(** ** The [AudioProcessor] worklet *)
Module AudioProcessor.
Import Num TypedArray.

Record t : Type := mk {
  sampleRate : float;
  targetSampleRate : float;
  bufferSize : nat;
  _internalBuffer : list float;
  _internalBufferIndex : nat;
  isProcessing : bool;
  lastSendTime : float;
  resampleRatio : float
}.

Definition MAX_BUFFER_AGE_SECONDS : float := half.

(** What the worklet posts on its port.  The text of a debug message is
    only logged by the receiver and is not modelled. *)
Inductive message : Type :=
| debug
| pcmData (buffer : ArrayBuffer).

Record processorOptions : Type := {
  opt_targetSampleRate : option float;
  opt_bufferSize : option nat
}.

(** [x || d] on an optional Number: [undefined], NaN and the zeros are
    falsy. *)
Definition float_or (x : option float) (d : float) : float :=
  match x with
  | Some (S754_zero _) | Some S754_nan | None => d
  | Some v => v
  end.
Definition nat_or (x : option nat) (d : nat) : nat :=
  match x with
  | Some (S n) => S n
  | Some O | None => d
  end.

(** [Math.max(k, n)] for an integer-valued [k] and a length [n]. *)
Definition xmax (k : xint) (n : nat) : xint :=
  match k with
  | XInt z => XInt (Z.max z (Z.of_nat n))
  | XNegInf => XInt (Z.of_nat n)
  | XPosInf => XPosInf
  | XNaN => XNaN
  end.

(** [constructor(options)], with the globals [sampleRate] and
    [currentTime] of the worklet scope as arguments, and the longest
    array that the platform allocates.  [None] is the RangeError of a
    buffer length that is impossible or cannot be allocated. *)
Definition constructor (maxLength : N) (sampleRate_ currentTime : float)
    (options : processorOptions) : option (t * list message) :=
  let targetSampleRate_ := float_or (opt_targetSampleRate options) (of_Z 16000) in
  let bufferSize_ := nat_or (opt_bufferSize options) 4096 in
  let minInternalBufferSize :=
    xadd (Math_ceil (fmul (of_nat bufferSize_) (fdiv sampleRate_ targetSampleRate_))) 128 in
  match Float32Array_new maxLength (xmax minInternalBufferSize (bufferSize_ * 2)) with
  | None => None
  | Some buf =>
      Some ({| sampleRate := sampleRate_;
               targetSampleRate := targetSampleRate_;
               bufferSize := bufferSize_;
               _internalBuffer := buf;
               _internalBufferIndex := 0;
               isProcessing := false;
               lastSendTime := currentTime;
               resampleRatio := fdiv sampleRate_ targetSampleRate_ |},
            [debug])
  end.

(** The position, the index and the fraction for output sample [i]. *)
Definition position (p : t) (i : nat) : float := fmul (of_nat i) (resampleRatio p).
Definition index (p : t) (i : nat) : xint := Math_floor (position p i).
Definition fraction (p : t) (i : nat) : float :=
  fsub (position p i) (floor_number (position p i)).

(** The [for] loop of [sendResampledBuffer], from iteration [i] with
    [fuel = bufferSize - i] iterations left; the result is
    [(outputBuffer, outputIndex, consumedInputSamples)]. *)
Fixpoint resample_loop (p : t) (fuel i : nat)
    (outputBuffer : list float) (outputIndex : nat) (consumedInputSamples : xint)
  : list float * nat * xint :=
  match fuel with
  | O => (outputBuffer, outputIndex, consumedInputSamples)
  | S fuel' =>
      let P := fmul (of_nat i) (resampleRatio p) in
      let K := Math_floor P in
      let T := fsub P (floor_number P) in
      if xlt (xadd K 1) (_internalBufferIndex p) then
        resample_loop p fuel' (S i)
          (store32 outputBuffer outputIndex
             (fadd (fmul (read (_internalBuffer p) K) (fsub one T))
                   (fmul (read (_internalBuffer p) (xadd K 1)) T)))
          (S outputIndex) (xadd K 1)
      else if xlt K (_internalBufferIndex p) then
        resample_loop p fuel' (S i)
          (store32 outputBuffer outputIndex (read (_internalBuffer p) K))
          (S outputIndex) (xadd K 1)
      else (outputBuffer, outputIndex, consumedInputSamples)
  end.

(** [Math.max(-1, Math.min(1, x))]. *)
Definition clamp (x : float) : float := Math_max (of_Z (-1)) (Math_min one x).

(** One sample of the second loop: [pcmData[i] = sample * 32767]. *)
Definition quantize (x : float) : Z := ToInt16 (fmul (clamp x) (of_Z 32767)).

(** The resampled samples of the current accumulator:
    [finalOutputBuffer], with the consumed count. *)
Definition resample (p : t) : list float * xint :=
  let '(outputBuffer, outputIndex, consumed) :=
    resample_loop p (bufferSize p) 0 (Float32Array (bufferSize p)) 0 (XInt 0) in
  (slice0 outputBuffer outputIndex, consumed).

Definition with_buffer (p : t) (buf : list float) (idx : nat) : t :=
  {| sampleRate := sampleRate p; targetSampleRate := targetSampleRate p;
     bufferSize := bufferSize p; _internalBuffer := buf;
     _internalBufferIndex := idx; isProcessing := isProcessing p;
     lastSendTime := lastSendTime p; resampleRatio := resampleRatio p |}.
Definition with_processing (p : t) (b : bool) : t :=
  {| sampleRate := sampleRate p; targetSampleRate := targetSampleRate p;
     bufferSize := bufferSize p; _internalBuffer := _internalBuffer p;
     _internalBufferIndex := _internalBufferIndex p; isProcessing := b;
     lastSendTime := lastSendTime p; resampleRatio := resampleRatio p |}.
Definition with_lastSendTime (p : t) (now : float) : t :=
  {| sampleRate := sampleRate p; targetSampleRate := targetSampleRate p;
     bufferSize := bufferSize p; _internalBuffer := _internalBuffer p;
     _internalBufferIndex := _internalBufferIndex p; isProcessing := isProcessing p;
     lastSendTime := now; resampleRatio := resampleRatio p |}.

(** [sendResampledBuffer()], with the global [currentTime] as argument:
    the new state and the messages posted, in order. *)
Definition sendResampledBuffer (p : t) (currentTime : float) : t * list message :=
  if (_internalBufferIndex p =? 0)%nat || isProcessing p then (p, [])
  else
    let p1 := with_lastSendTime (with_processing p true) currentTime in
    let '(finalOutputBuffer, consumedInputSamples) := resample p1 in
    if (length finalOutputBuffer =? 0)%nat then
      (with_processing p1 false, [debug])
    else
      let pcm := map quantize finalOutputBuffer in
      let p2 :=
        if xpos consumedInputSamples
           && xle consumedInputSamples (_internalBufferIndex p1) then
          match consumedInputSamples with
          | XInt c =>
              with_buffer p1
                (copyWithin0 (_internalBuffer p1) (Z.to_nat c) (_internalBufferIndex p1))
                (_internalBufferIndex p1 - Z.to_nat c)
          | _ => with_buffer p1 (_internalBuffer p1) 0
          end
        else with_buffer p1 (_internalBuffer p1) 0 in
      (with_processing p2 false, [debug; pcmData (Int16Array_buffer pcm)]).

(** The accumulation step of [process]: append the block, or the prefix
    of it that fits.  [None] is a RangeError thrown by [set]. *)
Definition accumulate (p : t) (inputChannel : option (list float)) : option t :=
  match inputChannel with
  | None => Some p
  | Some input =>
      if (0 <? length input)%nat then
        if (_internalBufferIndex p + length input <=? length (_internalBuffer p))%nat then
          buf ← set (_internalBuffer p) input (_internalBufferIndex p);
          Some (with_buffer p buf (_internalBufferIndex p + length input))
        else
          let remainingSpace := (length (_internalBuffer p) - _internalBufferIndex p)%nat in
          if (0 <? remainingSpace)%nat then
            buf ← set (_internalBuffer p) (slice0 input remainingSpace) (_internalBufferIndex p);
            Some (with_buffer p buf (_internalBufferIndex p + remainingSpace))
          else Some p
      else Some p
  end.

(** [process(inputs, outputs, parameters)]: [inputChannel] is
    [inputs[0] && inputs[0][0]]; the result carries the returned boolean. *)
Definition process (p : t) (inputChannel : option (list float)) (currentTime : float)
  : option (t * list message * bool) :=
  p' ← accumulate p inputChannel;
  let minInputSamplesForOneOutputBuffer :=
    Math_floor (fmul (of_nat (bufferSize p')) (resampleRatio p')) in
  let shouldSendByTime :=
    flt MAX_BUFFER_AGE_SECONDS (fsub currentTime (lastSendTime p'))
    && (0 <? _internalBufferIndex p')%nat in
  let shouldSendByFill :=
    xge_nat (_internalBufferIndex p') minInputSamplesForOneOutputBuffer in
  if (shouldSendByFill || shouldSendByTime) && negb (isProcessing p') then
    let '(p'', msgs) := sendResampledBuffer p' currentTime in
    Some (p'', msgs, true)
  else Some (p', [], true).

(** Feeding a stream of blocks, each with the clock reading at its
    delivery; the messages posted are collected in order. *)
Fixpoint run (p : t) (blocks : list (option (list float) * float))
  : option (t * list message) :=
  match blocks with
  | [] => Some (p, [])
  | (input, now) :: rest =>
      '(p', msgs, _) ← process p input now;
      '(p'', msgs') ← run p' rest;
      Some (p'', msgs ++ msgs')
  end.

End AudioProcessor.

(** ** The base64 helpers, with [window.btoa] and [window.atob]

  A JavaScript string whose code units are all below 256 (a "binary
  string", and any base64 text) is a [string] of 8-bit characters. *)
Module Base64.
Import TypedArray.

Definition alphabet : string :=
  "ABCDEFGHIJKLMNOPQRSTUVWXYZabcdefghijklmnopqrstuvwxyz0123456789+/".

Definition pad : ascii := "="%char.

(** [s.charCodeAt(i)] and [String.fromCharCode(b)] for one byte. *)
Definition charCode (c : ascii) : Z := Z.of_N (Ascii.N_of_ascii c).
Definition fromCharCode (b : Byte.byte) : ascii := Ascii.ascii_of_byte b.

(** The character of a sextet, and the sextet of a character. *)
Definition enc6 (n : Z) : ascii :=
  match String.get (Z.to_nat n) alphabet with
  | Some c => c
  | None => pad
  end.

Fixpoint index_of (c : ascii) (s : string) (i : Z) : option Z :=
  match s with
  | EmptyString => None
  | String d s' => if Ascii.eqb c d then Some i else index_of c s' (i + 1)
  end.
Definition dec6 (c : ascii) : option Z := index_of c alphabet 0.

(** RFC 4648 encoding of a list of octets, three at a time, with padding. *)
Fixpoint encode (l : list Z) : list ascii :=
  match l with
  | [] => []
  | [a] => [enc6 (a / 4); enc6 (a mod 4 * 16); pad; pad]
  | [a; b] =>
      [enc6 (a / 4); enc6 (a mod 4 * 16 + b / 16); enc6 (b mod 16 * 4); pad]
  | a :: b :: c :: rest =>
      enc6 (a / 4) :: enc6 (a mod 4 * 16 + b / 16)
        :: enc6 (b mod 16 * 4 + c / 64) :: enc6 (c mod 64) :: encode rest
  end.

(** [window.btoa]: forgiving-base64 encode of a binary string. *)
Definition btoa (binary : string) : string :=
  string_of_list_ascii (encode (map charCode (list_ascii_of_string binary))).

(** ASCII whitespace: TAB, LF, FF, CR and SPACE. *)
Definition is_ascii_whitespace (c : ascii) : bool :=
  let n := charCode c in
  (n =? 9) || (n =? 10) || (n =? 12) || (n =? 13) || (n =? 32).

(** Remove one or two trailing [=]. *)
Fixpoint strip_padding (l : list ascii) : list ascii :=
  match l with
  | [] => []
  | [c] => if Ascii.eqb c pad then [] else [c]
  | [c; d] =>
      if Ascii.eqb d pad then (if Ascii.eqb c pad then [] else [c]) else [c; d]
  | c :: rest => c :: strip_padding rest
  end.

(** Sextets back to octets: 24 bits give three octets; 12 trailing bits
    give one and 18 give two, the low bits being discarded. *)
Fixpoint decode (l : list Z) : list Z :=
  match l with
  | a :: b :: c :: d :: rest =>
      (a * 4 + b / 16) :: (b mod 16 * 16 + c / 4) :: (c mod 4 * 64 + d) :: decode rest
  | [a; b; c] => [a * 4 + b / 16; b mod 16 * 16 + c / 4]
  | [a; b] => [a * 4 + b / 16]
  | _ => []
  end.

(** [window.atob]: forgiving-base64 decode; [None] is the
    InvalidCharacterError. *)
Definition atob (data : string) : option string :=
  let data1 := filter (fun c => is_ascii_whitespace c = false) (list_ascii_of_string data) in
  let data2 := if (length data1 mod 4 =? 0)%nat then strip_padding data1 else data1 in
  if (length data2 mod 4 =? 1)%nat then None
  else
    sextets ← mapM dec6 data2;
    Some (string_of_list_ascii (map (fun z => Ascii.ascii_of_N (Z.to_N z)) (decode sextets))).

(** The loop [binary += String.fromCharCode(bytes[i])]. *)
Fixpoint binary_of_bytes (bytes : list Byte.byte) : string :=
  match bytes with
  | [] => EmptyString
  | b :: rest => String (fromCharCode b) (binary_of_bytes rest)
  end.

Definition arrayBufferToBase64 (buffer : ArrayBuffer) : string :=
  btoa (binary_of_bytes buffer).

(** The loop [bytes[i] = binaryString.charCodeAt(i)]. *)
Fixpoint bytes_of_binary (binaryString : string) : list Byte.byte :=
  match binaryString with
  | EmptyString => []
  | String c rest => byte_of_Z (charCode c) :: bytes_of_binary rest
  end.

Definition base64ToArrayBuffer (base64 : string) : option ArrayBuffer :=
  binaryString ← atob base64;
  Some (bytes_of_binary binaryString).

End Base64.

(** ** [GeminiLiveVoiceApp]

  The fields of the class that the recording, sending, playback and timer
  logic reads and writes, together with what the platform holds for it:
  the active [setInterval] handles, the calls made on the session, and the
  buffer sources handed to the audio output.  The DOM apart from the status
  line is not modelled, nor are [micStream] and [micSourceNode], which are
  created and released together with [audioWorkletNode].  A worklet node
  that a later [startRecording] overwrites in [this.audioWorkletNode] is no
  longer reachable by [cleanupAudioNodes]: it stays connected with its
  [port.onmessage] handler installed, and is counted in [strayNodes]. *)
Module App.
Import Num TypedArray Base64.

Definition Session := nat.

Record GenAIBlob : Type := { data : string; mimeType : string }.

Inductive AudioContextState : Type := running | suspended | closed.

(** A started [AudioBufferSourceNode]: the chunk it was made from and the
    samples of its one-channel buffer. *)
Record BufferSource : Type := { origin : ArrayBuffer; channelData : list float }.

Record State : Type := mkState {
  currentImageBase64 : option string;
  currentImageMimeType : option string;
  session : option Session;
  isRecording : bool;
  audioContext : option AudioContextState;
  audioWorkletNode : bool;
  audioQueue : list ArrayBuffer;
  isPlayingAudio : bool;
  isSetupComplete : bool;
  imageSendIntervalId : option positive;
  recordingStatus : string * bool;
  intervals : list positive;
  nextInterval : positive;
  transmitted : list (Session * GenAIBlob);
  closeCalls : list Session;
  playing : list BufferSource;
  started : list BufferSource;
  pendingPlayback : list ArrayBuffer;
  strayNodes : nat
}.

(** Field updates. *)
Definition set_currentImageBase64 (v : option string) (s : State) : State :=
  mkState v (currentImageMimeType s) (session s) (isRecording s) (audioContext s)
    (audioWorkletNode s) (audioQueue s) (isPlayingAudio s) (isSetupComplete s)
    (imageSendIntervalId s) (recordingStatus s) (intervals s) (nextInterval s)
    (transmitted s) (closeCalls s) (playing s) (started s) (pendingPlayback s)
    (strayNodes s).
Definition set_currentImageMimeType (v : option string) (s : State) : State :=
  mkState (currentImageBase64 s) v (session s) (isRecording s) (audioContext s)
    (audioWorkletNode s) (audioQueue s) (isPlayingAudio s) (isSetupComplete s)
    (imageSendIntervalId s) (recordingStatus s) (intervals s) (nextInterval s)
    (transmitted s) (closeCalls s) (playing s) (started s) (pendingPlayback s)
    (strayNodes s).
Definition set_session (v : option Session) (s : State) : State :=
  mkState (currentImageBase64 s) (currentImageMimeType s) v (isRecording s)
    (audioContext s) (audioWorkletNode s) (audioQueue s) (isPlayingAudio s)
    (isSetupComplete s) (imageSendIntervalId s) (recordingStatus s) (intervals s)
    (nextInterval s) (transmitted s) (closeCalls s) (playing s) (started s)
    (pendingPlayback s) (strayNodes s).
Definition set_isRecording (v : bool) (s : State) : State :=
  mkState (currentImageBase64 s) (currentImageMimeType s) (session s) v (audioContext
    s) (audioWorkletNode s) (audioQueue s) (isPlayingAudio s) (isSetupComplete s)
    (imageSendIntervalId s) (recordingStatus s) (intervals s) (nextInterval s)
    (transmitted s) (closeCalls s) (playing s) (started s) (pendingPlayback s)
    (strayNodes s).
Definition set_audioContext (v : option AudioContextState) (s : State) : State :=
  mkState (currentImageBase64 s) (currentImageMimeType s) (session s) (isRecording s)
    v (audioWorkletNode s) (audioQueue s) (isPlayingAudio s) (isSetupComplete s)
    (imageSendIntervalId s) (recordingStatus s) (intervals s) (nextInterval s)
    (transmitted s) (closeCalls s) (playing s) (started s) (pendingPlayback s)
    (strayNodes s).
Definition set_audioWorkletNode (v : bool) (s : State) : State :=
  mkState (currentImageBase64 s) (currentImageMimeType s) (session s) (isRecording s)
    (audioContext s) v (audioQueue s) (isPlayingAudio s) (isSetupComplete s)
    (imageSendIntervalId s) (recordingStatus s) (intervals s) (nextInterval s)
    (transmitted s) (closeCalls s) (playing s) (started s) (pendingPlayback s)
    (strayNodes s).
Definition set_audioQueue (v : list ArrayBuffer) (s : State) : State :=
  mkState (currentImageBase64 s) (currentImageMimeType s) (session s) (isRecording s)
    (audioContext s) (audioWorkletNode s) v (isPlayingAudio s) (isSetupComplete s)
    (imageSendIntervalId s) (recordingStatus s) (intervals s) (nextInterval s)
    (transmitted s) (closeCalls s) (playing s) (started s) (pendingPlayback s)
    (strayNodes s).
Definition set_isPlayingAudio (v : bool) (s : State) : State :=
  mkState (currentImageBase64 s) (currentImageMimeType s) (session s) (isRecording s)
    (audioContext s) (audioWorkletNode s) (audioQueue s) v (isSetupComplete s)
    (imageSendIntervalId s) (recordingStatus s) (intervals s) (nextInterval s)
    (transmitted s) (closeCalls s) (playing s) (started s) (pendingPlayback s)
    (strayNodes s).
Definition set_isSetupComplete (v : bool) (s : State) : State :=
  mkState (currentImageBase64 s) (currentImageMimeType s) (session s) (isRecording s)
    (audioContext s) (audioWorkletNode s) (audioQueue s) (isPlayingAudio s) v
    (imageSendIntervalId s) (recordingStatus s) (intervals s) (nextInterval s)
    (transmitted s) (closeCalls s) (playing s) (started s) (pendingPlayback s)
    (strayNodes s).
Definition set_imageSendIntervalId (v : option positive) (s : State) : State :=
  mkState (currentImageBase64 s) (currentImageMimeType s) (session s) (isRecording s)
    (audioContext s) (audioWorkletNode s) (audioQueue s) (isPlayingAudio s)
    (isSetupComplete s) v (recordingStatus s) (intervals s) (nextInterval s)
    (transmitted s) (closeCalls s) (playing s) (started s) (pendingPlayback s)
    (strayNodes s).
Definition set_recordingStatus (v : string * bool) (s : State) : State :=
  mkState (currentImageBase64 s) (currentImageMimeType s) (session s) (isRecording s)
    (audioContext s) (audioWorkletNode s) (audioQueue s) (isPlayingAudio s)
    (isSetupComplete s) (imageSendIntervalId s) v (intervals s) (nextInterval s)
    (transmitted s) (closeCalls s) (playing s) (started s) (pendingPlayback s)
    (strayNodes s).
Definition set_intervals (v : list positive) (s : State) : State :=
  mkState (currentImageBase64 s) (currentImageMimeType s) (session s) (isRecording s)
    (audioContext s) (audioWorkletNode s) (audioQueue s) (isPlayingAudio s)
    (isSetupComplete s) (imageSendIntervalId s) (recordingStatus s) v (nextInterval s)
    (transmitted s) (closeCalls s) (playing s) (started s) (pendingPlayback s)
    (strayNodes s).
Definition set_nextInterval (v : positive) (s : State) : State :=
  mkState (currentImageBase64 s) (currentImageMimeType s) (session s) (isRecording s)
    (audioContext s) (audioWorkletNode s) (audioQueue s) (isPlayingAudio s)
    (isSetupComplete s) (imageSendIntervalId s) (recordingStatus s) (intervals s) v
    (transmitted s) (closeCalls s) (playing s) (started s) (pendingPlayback s)
    (strayNodes s).
Definition set_transmitted (v : list (Session * GenAIBlob)) (s : State) : State :=
  mkState (currentImageBase64 s) (currentImageMimeType s) (session s) (isRecording s)
    (audioContext s) (audioWorkletNode s) (audioQueue s) (isPlayingAudio s)
    (isSetupComplete s) (imageSendIntervalId s) (recordingStatus s) (intervals s)
    (nextInterval s) v (closeCalls s) (playing s) (started s) (pendingPlayback s)
    (strayNodes s).
Definition set_closeCalls (v : list Session) (s : State) : State :=
  mkState (currentImageBase64 s) (currentImageMimeType s) (session s) (isRecording s)
    (audioContext s) (audioWorkletNode s) (audioQueue s) (isPlayingAudio s)
    (isSetupComplete s) (imageSendIntervalId s) (recordingStatus s) (intervals s)
    (nextInterval s) (transmitted s) v (playing s) (started s) (pendingPlayback s)
    (strayNodes s).
Definition set_playing (v : list BufferSource) (s : State) : State :=
  mkState (currentImageBase64 s) (currentImageMimeType s) (session s) (isRecording s)
    (audioContext s) (audioWorkletNode s) (audioQueue s) (isPlayingAudio s)
    (isSetupComplete s) (imageSendIntervalId s) (recordingStatus s) (intervals s)
    (nextInterval s) (transmitted s) (closeCalls s) v (started s) (pendingPlayback s)
    (strayNodes s).
Definition set_started (v : list BufferSource) (s : State) : State :=
  mkState (currentImageBase64 s) (currentImageMimeType s) (session s) (isRecording s)
    (audioContext s) (audioWorkletNode s) (audioQueue s) (isPlayingAudio s)
    (isSetupComplete s) (imageSendIntervalId s) (recordingStatus s) (intervals s)
    (nextInterval s) (transmitted s) (closeCalls s) (playing s) v (pendingPlayback s)
    (strayNodes s).
Definition set_pendingPlayback (v : list ArrayBuffer) (s : State) : State :=
  mkState (currentImageBase64 s) (currentImageMimeType s) (session s) (isRecording s)
    (audioContext s) (audioWorkletNode s) (audioQueue s) (isPlayingAudio s)
    (isSetupComplete s) (imageSendIntervalId s) (recordingStatus s) (intervals s)
    (nextInterval s) (transmitted s) (closeCalls s) (playing s) (started s) v
    (strayNodes s).
Definition set_strayNodes (v : nat) (s : State) : State :=
  mkState (currentImageBase64 s) (currentImageMimeType s) (session s) (isRecording s)
    (audioContext s) (audioWorkletNode s) (audioQueue s) (isPlayingAudio s)
    (isSetupComplete s) (imageSendIntervalId s) (recordingStatus s) (intervals s)
    (nextInterval s) (transmitted s) (closeCalls s) (playing s) (started s)
    (pendingPlayback s) v.

Definition initial : State :=
  {| currentImageBase64 := None; currentImageMimeType := None; session := None;
     isRecording := false; audioContext := None; audioWorkletNode := false;
     audioQueue := []; isPlayingAudio := false; isSetupComplete := false;
     imageSendIntervalId := None;
     recordingStatus := ("Click " +:+ String (ascii_of_nat 34) "Talk"
                           +:+ String (ascii_of_nat 34) " or Upload an Image", false);
     intervals := []; nextInterval := 1%positive; transmitted := [];
     closeCalls := []; playing := []; started := []; pendingPlayback := [];
     strayNodes := 0 |}.

Definition TARGET_SAMPLE_RATE : Z := 16000.
Definition READY : string := "Ready to talk or Upload Image".

(** *** Strings *)

(** Truthiness of a nullable string: [null] and the empty string are falsy. *)
Definition truthy (x : option string) : bool :=
  match x with
  | Some (String _ _) => true
  | Some EmptyString | None => false
  end.

Definition lower_char (c : ascii) : ascii :=
  let n := Ascii.nat_of_ascii c in
  if (65 <=? n)%nat && (n <=? 90)%nat then Ascii.ascii_of_nat (n + 32) else c.
Fixpoint toLowerCase (s : string) : string :=
  match s with
  | EmptyString => EmptyString
  | String c r => String (lower_char c) (toLowerCase r)
  end.

(** [s.includes(sub)]. *)
Fixpoint includes (s sub : string) : bool :=
  String.prefix sub s
  || match s with
     | EmptyString => false
     | String _ r => includes r sub
     end.

(** The decimal text of a close code, as a template literal prints it. *)
Definition decimal (n : N) : string := DecimalString.NilZero.string_of_uint (N.to_uint n).

(** [s.substring(s.indexOf(',') + 1)]. *)
Fixpoint after_comma_aux (s : string) : option string :=
  match s with
  | EmptyString => None
  | String c r => if Ascii.eqb c ","%char then Some r else after_comma_aux r
  end.
Definition after_comma (s : string) : string :=
  match after_comma_aux s with
  | Some r => r
  | None => s
  end.

(** *** Status line, images, the periodic timer *)

Definition updateStatus (message : string) (isError : bool) (s : State) : State :=
  set_recordingStatus (message, isError) s.

Definition removeImage (s : State) : State :=
  updateStatus ("Image removed. Click " +:+ String (ascii_of_nat 34) "Talk"
                  +:+ String (ascii_of_nat 34) " or Upload an Image") false
    (set_currentImageMimeType None (set_currentImageBase64 None s)).

Definition validTypes : list string := ["image/jpeg"; "image/png"; "image/webp"].

(** [handleImageUpload] up to [reader.readAsDataURL]: [file] is the MIME
    type of [target.files[0]], if there is one. *)
Definition handleImageUpload (file : option string) (s : State) : State :=
  match file with
  | None => s
  | Some mimeType_ =>
      if bool_decide (mimeType_ ∈ validTypes) then s
      else removeImage
             (updateStatus "Invalid image type. Please use JPG, PNG, or WEBP." true s)
  end.

Definition reader_onload (base64Full mimeType_ : string) (s : State) : State :=
  updateStatus "Image loaded. It will be sent periodically during voice chat." false
    (set_currentImageMimeType (Some mimeType_)
       (set_currentImageBase64 (Some (after_comma base64Full)) s)).

Definition reader_onerror (s : State) : State :=
  removeImage (updateStatus "Error reading image file." true s).

(** [this.session.sendRealtimeInput({ media: blob })]. *)
Definition sendRealtimeInput (sess : Session) (blob : GenAIBlob) (s : State) : State :=
  set_transmitted (transmitted s ++ [(sess, blob)]) s.

Definition sendPeriodicImageData (s : State) : State :=
  match currentImageBase64 s, currentImageMimeType s, session s with
  | Some image, Some mime, Some sess =>
      if truthy (Some image) && truthy (Some mime) && isRecording s && isSetupComplete s
      then sendRealtimeInput sess {| data := image; mimeType := mime |} s
      else s
  | _, _, _ => s
  end.

Definition clearInterval (id : positive) (s : State) : State :=
  set_intervals (filter (fun j => j ≠ id) (intervals s)) s.

(** [window.setInterval(...)]: a fresh handle, now active. *)
Definition setInterval (s : State) : positive * State :=
  (nextInterval s,
   set_nextInterval (Pos.succ (nextInterval s))
     (set_intervals (intervals s ++ [nextInterval s]) s)).

Definition stopPeriodicImageSending (s : State) : State :=
  match imageSendIntervalId s with
  | Some id => set_imageSendIntervalId None (clearInterval id s)
  | None => s
  end.

Definition startPeriodicImageSending (s : State) : State :=
  let s1 := match imageSendIntervalId s with
            | Some id => set_imageSendIntervalId None (clearInterval id s)
            | None => s
            end in
  if negb (bool_decide (is_Some (session s1))) || negb (isSetupComplete s1)
     || negb (isRecording s1)
  then s1
  else
    let '(id, s2) := setInterval s1 in
    let s3 := set_imageSendIntervalId (Some id) s2 in
    if truthy (currentImageBase64 s3) && truthy (currentImageMimeType s3)
    then sendPeriodicImageData s3
    else s3.

(** A tick of interval [id]: its callback runs if the interval is active. *)
Definition interval_tick (id : positive) (s : State) : State :=
  if bool_decide (id ∈ intervals s) then sendPeriodicImageData s else s.

(** *** The audio system *)

(** What the platform answers during one [initializeAudioSystem]. *)
Record AudioPlatform : Type := {
  create_ok : bool;          (* [new AudioContext()] succeeds *)
  created_suspended : bool;  (* the new context starts suspended *)
  resume_ok : bool;          (* [audioContext.resume()] succeeds *)
  addModule_ok : bool        (* [audioWorklet.addModule] succeeds *)
}.

(** [initializeAudioSystem], taken as one step at its completion. *)
Definition initializeAudioSystem (pf : AudioPlatform) (s : State) : State * bool :=
  match audioContext s with
  | None =>
      if negb (create_ok pf)
      then (updateStatus "Error initializing audio system." true s, false)
      else if created_suspended pf && negb (resume_ok pf)
      then (updateStatus "Error initializing audio system." true
              (set_audioContext (Some suspended) s), false)
      else
        let s1 := set_audioContext (Some running) s in
        if addModule_ok pf then (s1, true)
        else (updateStatus "Error loading audio processor." true s1, false)
  | Some suspended =>
      if resume_ok pf then (set_audioContext (Some running) s, true)
      else (updateStatus "Error resuming audio system." true s, false)
  | Some _ => (s, true)
  end.

(** The platform moves an existing context to another state. *)
Definition audioContext_statechange (state : AudioContextState) (s : State) : State :=
  match audioContext s with
  | Some _ => set_audioContext (Some state) s
  | None => s
  end.

(** *** The playback queue *)

(** [new Int16Array(buffer)]: the little-endian 16-bit values, or a
    RangeError ([None]) when the byte length is odd. *)
Fixpoint Int16Array_of_buffer (a : ArrayBuffer) : option (list Z) :=
  match a with
  | [] => Some []
  | [_] => None
  | lo :: hi :: rest =>
      let u := Z_of_byte lo + 256 * Z_of_byte hi in
      vs ← Int16Array_of_buffer rest;
      Some ((if 32768 <=? u then u - 65536 else u) :: vs)
  end.

(** The text of the RangeError that [new Int16Array] throws. *)
Definition RangeError_message : string :=
  "byte length of Int16Array should be a multiple of 2".

(** The body of the [try] after the conversion succeeded. *)
Definition start_source (a : ArrayBuffer) (int16Array : list Z) (s : State) : State :=
  let float32Array := map (fun v => fround (fdiv (of_Z v) (of_Z 32768))) int16Array in
  let source := {| origin := a; channelData := float32Array |} in
  updateStatus "Playing Gemini response..." false
    (set_started (started s ++ [source]) (set_playing (playing s ++ [source]) s)).

(** The [catch], up to its call of [playNextInQueue]. *)
Definition play_caught (s : State) : State :=
  set_isPlayingAudio false
    (updateStatus ("Error playing audio: " +:+ RangeError_message) true s).

Definition context_running (s : State) : bool :=
  match audioContext s with
  | Some running => true
  | _ => false
  end.

(** [playNextInQueue], by recursion on the queue it shifts from.  When
    the audio context is not running the call suspends at
    [await this.initializeAudioSystem()] holding its chunk. *)
Fixpoint playNext_from (queue : list ArrayBuffer) (s : State) : State :=
  match queue with
  | [] =>
      let s1 := set_isPlayingAudio false s in
      if negb (isRecording s1) && isSetupComplete s1 then updateStatus READY false s1
      else if isRecording s1 then updateStatus "Listening..." false s1
      else s1
  | audioArrayBuffer :: rest =>
      let s1 := set_audioQueue rest (set_isPlayingAudio true s) in
      if (length audioArrayBuffer <? 2)%nat then
        playNext_from rest (set_isPlayingAudio false s1)
      else if negb (context_running s1) then
        set_pendingPlayback (pendingPlayback s1 ++ [audioArrayBuffer]) s1
      else
        match Int16Array_of_buffer audioArrayBuffer with
        | Some int16Array => start_source audioArrayBuffer int16Array s1
        | None => playNext_from rest (play_caught s1)
        end
  end.

Definition playNextInQueue (s : State) : State := playNext_from (audioQueue s) s.

(** The oldest suspended [playNextInQueue] resumes when its
    [initializeAudioSystem] completes. *)
Definition playNext_resume (pf : AudioPlatform) (s : State) : State :=
  match pendingPlayback s with
  | [] => s
  | audioArrayBuffer :: pending =>
      let '(s1, audioSystemReady) := initializeAudioSystem pf (set_pendingPlayback pending s) in
      if negb audioSystemReady || negb (bool_decide (is_Some (audioContext s1))) then
        set_audioQueue (audioArrayBuffer :: audioQueue s1)
          (set_isPlayingAudio false
             (updateStatus "AudioContext not available for playback." true s1))
      else
        match Int16Array_of_buffer audioArrayBuffer with
        | Some int16Array => start_source audioArrayBuffer int16Array s1
        | None => playNextInQueue (play_caught s1)
        end
  end.

Definition enqueueAudio (audioArrayBuffer : ArrayBuffer) (s : State) : State :=
  let s1 := set_audioQueue (audioQueue s ++ [audioArrayBuffer]) s in
  if negb (isPlayingAudio s1) then playNextInQueue s1 else s1.

(** [source.onended] of the [i]-th source still sounding. *)
Definition source_onended (i : nat) (s : State) : State :=
  match playing s !! i with
  | Some _ => playNextInQueue (set_playing (delete i (playing s)) s)
  | None => s
  end.

Definition clearAudioQueueAndStopPlayback (s : State) : State :=
  set_isPlayingAudio false (set_audioQueue [] s).

(** *** Cleanup, recording and the session callbacks *)

Definition cleanupAudioNodes (s : State) : State := set_audioWorkletNode false s.

Definition cleanupAfterErrorOrClose (isErrorOrigin : bool) (s : State) : State :=
  let s1 := if isRecording s then set_isRecording false s else s in
  let s2 := set_isSetupComplete false s1 in
  let s3 := stopPeriodicImageSending s2 in
  let s4 := cleanupAudioNodes s3 in
  let s5 := match session s4 with
            | Some _ => set_session None s4
            | None => s4
            end in
  let s6 := clearAudioQueueAndStopPlayback s5 in
  let textContent := fst (recordingStatus s6) in
  if negb isErrorOrigin
     && negb (includes (toLowerCase textContent) "error")
     && negb (includes (toLowerCase textContent) "disconnect")
  then
    if negb (String.eqb textContent "Call ended.") then updateStatus READY false s6
    else s6
  else s6.

(** [this.session.close()]; the call is taken not to throw. *)
Definition session_close (sess : Session) (s : State) : State :=
  set_closeCalls (closeCalls s ++ [sess]) s.

Definition stopRecording (s : State) : State :=
  if negb (isRecording s) && negb (bool_decide (is_Some (session s))) then
    cleanupAudioNodes (set_isRecording false s)
  else
    let s1 := cleanupAudioNodes (stopPeriodicImageSending (set_isRecording false s)) in
    match session s1 with
    | Some sess => session_close sess (updateStatus "Ending call..." false s1)
    | None => updateStatus READY false s1
    end.

(** The handler installed on [audioWorkletNode.port.onmessage]. *)
Definition port_onmessage (m : AudioProcessor.message) (s : State) : State :=
  match m with
  | AudioProcessor.debug => s
  | AudioProcessor.pcmData pcmArrayBuffer =>
      match session s with
      | Some sess =>
          if isRecording s then
            if (length pcmArrayBuffer =? 0)%nat then s
            else
              let base64AudioData := arrayBufferToBase64 pcmArrayBuffer in
              let audioMediaBlob :=
                {| data := base64AudioData;
                   mimeType := "audio/pcm;rate=" +:+ decimal (Z.to_N TARGET_SAMPLE_RATE) |} in
              sendRealtimeInput sess audioMediaBlob s
          else s
      | None => s
      end
  end.

(** Where a call of an async method stands when it yields. *)
Inductive awaiting : Type :=
| Done
| AwaitConnect      (* at [await this.genAI.live.connect(...)] *)
| AwaitMicrophone.  (* at [await navigator.mediaDevices.getUserMedia(...)] *)

(** [connectToGemini] up to its [await]. *)
Definition connectToGemini (s : State) : State :=
  let s1 := set_isSetupComplete false (updateStatus "Connecting to Gemini..." false s) in
  match session s1 with
  | Some sess => set_session None (session_close sess s1)
  | None => s1
  end.

(** [startRecording] after [connectToGeminiIfNeeded] has answered. *)
Definition startRecording_connected (connectedAndSetup : bool) (s : State)
  : State * awaiting :=
  if negb connectedAndSetup || negb (isSetupComplete s) then
    let s1 :=
      updateStatus
        (if isSetupComplete s then "Connection failed. Cannot start recording."
         else "Waiting for connection setup...")
        (if negb (isSetupComplete s) then false else true) s in
    (if negb connectedAndSetup then set_isRecording false s1 else s1, Done)
  else if negb (isRecording s) then (s, Done)
  else (updateStatus "Requesting microphone..." false s, AwaitMicrophone).

(** [startRecording] up to [await this.connectToGeminiIfNeeded()]: [None]
    when it has returned, [Some true] when [connectToGeminiIfNeeded]
    answers [true] at once, [Some false] when it is connecting. *)
Definition startRecording_begin (s : State) : State * option bool :=
  match audioContext s with
  | None => (set_isRecording false (updateStatus "Audio system not ready." true s), None)
  | Some _ =>
      match session s with
      | Some _ => (s, Some true)
      | None => (connectToGemini (set_isSetupComplete false s), Some false)
      end
  end.

(** [startRecording] as far as it runs without a platform answer. *)
Definition startRecording (s : State) : State * awaiting :=
  match startRecording_begin s with
  | (s1, None) => (s1, Done)
  | (s1, Some true) => startRecording_connected true s1
  | (s1, Some false) => (s1, AwaitConnect)
  end.

(** The connection promise resolves with a session, or rejects. *)
Definition connect_resolved (sess : Session) (s : State) : State * awaiting :=
  startRecording_connected true (set_session (Some sess) s).
Definition connect_rejected (message : string) (s : State) : State * awaiting :=
  startRecording_connected false
    (cleanupAfterErrorOrClose true
       (updateStatus ("Connection setup failed: " +:+ message) true s)).

(** The microphone is granted (and the worklet node created), or the
    [try] throws with [message].  The assignment to
    [this.audioWorkletNode] overwrites a node that is still held, which
    then goes astray with its handler installed. *)
Definition getUserMedia_resolved (s : State) : State :=
  let s1 := if audioWorkletNode s then set_strayNodes (S (strayNodes s)) s else s in
  startPeriodicImageSending
    (updateStatus "Listening..." false (set_audioWorkletNode true s1)).
Definition getUserMedia_rejected (message : string) (s : State) : State :=
  cleanupAudioNodes
    (set_isRecording false
       (updateStatus ("Mic/AudioWorklet error: " +:+ message) true s)).

(** [toggleRecording], with the answer of its [initializeAudioSystem]. *)
Definition toggleRecording (pf : AudioPlatform) (s : State) : State * awaiting :=
  let '(s1, audioSystemReady) := initializeAudioSystem pf s in
  if negb audioSystemReady
  then (updateStatus "Audio system failed to initialize." true s1, Done)
  else if isRecording s1 then (stopRecording s1, Done)
  else startRecording (set_isRecording true s1).

(** An inbound message: [inlineData] holds the [data] of a part when it is
    a string. *)
Record Part : Type := { text : option string; inlineData : option string }.
Record LiveServerMessage : Type := {
  setupComplete : bool;
  parts : option (list Part);
  turnComplete : bool
}.

Definition onopen (s : State) : State :=
  updateStatus "Connected to Gemini! Finalizing setup..." false s.

Definition on_part (part : Part) (s : State) : State :=
  if truthy (inlineData part) then
    match inlineData part with
    | Some data_ =>
        match base64ToArrayBuffer data_ with
        | Some audioArrayBuffer => enqueueAudio audioArrayBuffer s
        | None => s
        end
    | None => s
    end
  else s.

(** The three blocks of the [onmessage] callback. *)
Definition on_setupComplete (s : State) : State * option bool :=
  let s' := updateStatus READY false (set_isSetupComplete true s) in
  if isRecording s' then startRecording_begin s'
  else if truthy (currentImageBase64 s') then (startPeriodicImageSending s', None)
  else (s', None).

Definition on_parts (ps : list Part) (s : State) : State :=
  foldl (fun acc part => on_part part acc) s ps.

Definition on_turnComplete (s : State) : State :=
  if negb (isRecording s) && isSetupComplete s then updateStatus READY false s else s.

(** [startRecording()] is not awaited by the callback: it runs up to its
    first [await] and resumes once the callback has returned. *)
Definition onmessage (response : LiveServerMessage) (s : State) : State * awaiting :=
  let '(s1, resume) :=
    if setupComplete response then on_setupComplete s else (s, None) in
  let s2 := match parts response with
            | Some ps => on_parts ps s1
            | None => s1
            end in
  let s3 := if turnComplete response then on_turnComplete s2 else s2 in
  match resume with
  | Some true => startRecording_connected true s3
  | Some false => (s3, AwaitConnect)
  | None => (s3, Done)
  end.

Definition onerror (errorMessage : string) (s : State) : State :=
  cleanupAfterErrorOrClose true
    (updateStatus ("WebSocket Error: " +:+ errorMessage) true s).

Definition onclose (code : N) (wasClean : bool) (s : State) : State :=
  let s1 :=
    if negb wasClean && isRecording s then
      updateStatus ("Disconnected unexpectedly (Code: " +:+ decimal code +:+ ")") true s
    else if (code =? 1000)%N && negb (isRecording s) then
      updateStatus "Call ended." false s
    else if negb (code =? 1000)%N then
      updateStatus ("Disconnected (Code: " +:+ decimal code +:+ ")") false s
    else updateStatus "Disconnected." false s in
  cleanupAfterErrorOrClose false s1.

(** *** The event loop

  [worklet_posted] is a message from the node held in
  [this.audioWorkletNode], [stray_posted] one from a node gone astray. *)
Inductive event : Type :=
| click_record (pf : AudioPlatform)
| click_removeImage
| image_chosen (file : option string)
| image_read (base64Full mimeType_ : string)
| image_read_failed
| connected (sess : Session)
| connect_failed (message : string)
| microphone_granted
| microphone_failed (message : string)
| socket_open
| socket_message (response : LiveServerMessage)
| socket_error (message : string)
| socket_close (code : N) (wasClean : bool)
| worklet_posted (m : AudioProcessor.message)
| stray_posted (m : AudioProcessor.message)
| interval_fired (id : positive)
| playback_ended (i : nat)
| audio_initialized (pf : AudioPlatform)
| audio_statechange (state : AudioContextState).

Definition handle (e : event) (s : State) : State :=
  match e with
  | click_record pf => fst (toggleRecording pf s)
  | click_removeImage => removeImage s
  | image_chosen file => handleImageUpload file s
  | image_read base64Full mimeType_ => reader_onload base64Full mimeType_ s
  | image_read_failed => reader_onerror s
  | connected sess => fst (connect_resolved sess s)
  | connect_failed message => fst (connect_rejected message s)
  | microphone_granted => getUserMedia_resolved s
  | microphone_failed message => getUserMedia_rejected message s
  | socket_open => onopen s
  | socket_message response => fst (onmessage response s)
  | socket_error message => onerror message s
  | socket_close code wasClean => onclose code wasClean s
  | worklet_posted m => if audioWorkletNode s then port_onmessage m s else s
  | stray_posted m => if (0 <? strayNodes s)%nat then port_onmessage m s else s
  | interval_fired id => interval_tick id s
  | playback_ended i => source_onended i s
  | audio_initialized pf => playNext_resume pf s
  | audio_statechange state => audioContext_statechange state s
  end.

Definition run (events : list event) (s : State) : State :=
  foldl (fun acc e => handle e acc) s events.

(** The audio chunks that an inbound message enqueues, in order. *)
Definition inbound_chunk (part : Part) : option ArrayBuffer :=
  if truthy (inlineData part) then inlineData part ≫= base64ToArrayBuffer else None.
Definition inbound_chunks (response : LiveServerMessage) : list ArrayBuffer :=
  match parts response with
  | Some ps => omap inbound_chunk ps
  | None => []
  end.
Definition enqueued (events : list event) : list ArrayBuffer :=
  flat_map (fun e => match e with
                     | socket_message response => inbound_chunks response
                     | _ => []
                     end) events.

End App.

(** ** The properties, as definitions *)

(** *** The resampler *)
Module ResamplerSpec.
Import Num TypedArray AudioProcessor.

(** Output sample [i] as the interpolation rule words it: the
    interpolated value when [K + 1] is below the fill level, the sample at
    [K] when only [K] is, and nothing otherwise. *)
Definition interpolated (p : t) (i : nat) : option float :=
  let K := index p i in
  let T := fraction p i in
  if xlt (xadd K 1) (_internalBufferIndex p) then
    Some (fround (fadd (fmul (read (_internalBuffer p) K) (fsub one T))
                       (fmul (read (_internalBuffer p) (xadd K 1)) T)))
  else if xlt K (_internalBufferIndex p) then
    Some (fround (read (_internalBuffer p) K))
  else None.

(** The accumulator is regular: the fill level is within the buffer, which
    is not empty, no emission is in flight, frames have room for a sample,
    and one emission window
    [floor (bufferSize * ratio)] is a number that fits the buffer. *)
Definition regular (p : t) : Prop :=
  (_internalBufferIndex p <= length (_internalBuffer p))%nat
  /\ (0 < length (_internalBuffer p))%nat
  /\ isProcessing p = false
  /\ (1 <= bufferSize p)%nat
  /\ exists z, Math_floor (fmul (of_nat (bufferSize p)) (resampleRatio p)) = XInt z
               /\ z <= Z.of_nat (length (_internalBuffer p)).

(** The quantiser as the specification words it: clamp, then
    [round (sample * 32767)]. *)
Definition quantize_rounded (x : float) : Z :=
  roundZ (fmul (clamp x) (of_Z 32767)).
End ResamplerSpec.

(** *** Concrete worklet states *)
Module Examples.
Import Num TypedArray AudioProcessor.

Definition quarter : float := fdiv one (of_Z 4).

(** Native rate 44100 (ratio 2.75625), frames of 3 samples, 3 samples
    buffered. *)
Definition three_buffered : t :=
  {| sampleRate := of_Z 44100; targetSampleRate := of_Z 16000; bufferSize := 3;
     _internalBuffer := [quarter; one; half; zero; zero; zero; zero; zero];
     _internalBufferIndex := 3; isProcessing := false; lastSendTime := zero;
     resampleRatio := fdiv (of_Z 44100) (of_Z 16000) |}.
Definition three_buffered_sent : t * list message :=
  Eval vm_compute in sendResampledBuffer three_buffered one.

(** Native rate 48000 (ratio 3), frames of 1 sample, the sample 0.25
    buffered. *)
Definition one_quarter : t :=
  {| sampleRate := of_Z 48000; targetSampleRate := of_Z 16000; bufferSize := 1;
     _internalBuffer := [quarter; zero; zero; zero];
     _internalBufferIndex := 1; isProcessing := false; lastSendTime := zero;
     resampleRatio := fdiv (of_Z 48000) (of_Z 16000) |}.
Definition one_quarter_sent : t * list message :=
  Eval vm_compute in sendResampledBuffer one_quarter one.

(** A worklet as the application constructs it, with frames of 4 samples
    and a native rate of 48000, on a platform that allocates up to 2^30
    samples: 140 slots. *)
Definition constructed : option (t * list message) :=
  Eval vm_compute in
    constructor (2 ^ 30) (of_Z 48000) zero
      {| opt_targetSampleRate := Some (of_Z 16000); opt_bufferSize := Some 4%nat |}.

Definition worklet : t :=
  match constructed with
  | Some (p, _) => p
  | None => one_quarter
  end.

(** A block of 141 samples, one more than the worklet has slots. *)
Definition long_block : list float := replicate 141 quarter.
End Examples.

(** *** Base64 *)
Module Base64Spec.
(** The sextets of a list of octets, without padding. *)
Fixpoint sextets (l : list Z) : list Z :=
  match l with
  | [] => []
  | [a] => [a / 4; a mod 4 * 16]
  | [a; b] => [a / 4; a mod 4 * 16 + b / 16; b mod 16 * 4]
  | a :: b :: c :: rest =>
      a / 4 :: (a mod 4 * 16 + b / 16) :: (b mod 16 * 4 + c / 64) :: c mod 64
        :: sextets rest
  end.

(** Octets and sextets. *)
Definition octet (z : Z) : Prop := 0 <= z < 256.
Definition sextet (z : Z) : Prop := 0 <= z < 64.
End Base64Spec.

(** *** The application *)
Module AppSpec.
Import TypedArray App.

Definition all_ok : AudioPlatform :=
  {| create_ok := true; created_suspended := false; resume_ok := true;
     addModule_ok := true |}.

Definition setup_acknowledged : LiveServerMessage :=
  {| setupComplete := true; parts := None; turnComplete := false |}.

(** The user starts a call, stops it while the microphone prompt is still
    open, grants the microphone afterwards, and starts a second call; the
    worklet posts a frame before the second session has acknowledged the
    setup. *)
Definition stop_during_prompt : list event :=
  [ click_record all_ok; connected 1%nat; socket_message setup_acknowledged;
    click_record all_ok; socket_close 1000 true;
    microphone_granted;
    click_record all_ok; connected 2%nat;
    worklet_posted (AudioProcessor.pcmData [Byte.xff; Byte.x1f]) ].

(** A call with an image loaded, the image then being removed. *)
Definition call_with_image : list event :=
  [ image_read "data:image/png;base64,AAAA" "image/png";
    click_record all_ok; connected 1%nat; socket_message setup_acknowledged;
    microphone_granted ].

(** Two microphone prompts are open at once: a call is started and stopped
    while its prompt is open, a second call is started, the first prompt is
    granted and the second is refused. *)
Definition two_prompts : list event :=
  [ click_record all_ok; connected 1%nat; socket_message setup_acknowledged;
    click_record all_ok; socket_close 1000 true;
    click_record all_ok; connected 2%nat; socket_message setup_acknowledged;
    microphone_granted; microphone_failed "NotAllowedError" ].

Definition audio_message (data_ : string) : event :=
  socket_message
    {| setupComplete := false;
       parts := Some [ {| text := None; inlineData := Some data_ |} ];
       turnComplete := false |}.

(** A call in which the model answers with one two-byte chunk. *)
Definition one_chunk_playing : list event :=
  [ click_record all_ok; connected 1%nat; socket_message setup_acknowledged;
    audio_message "AAE=" ].


(** The flags that gate the periodic timer, with the timer itself. *)
Definition flags (s : State) :=
  (imageSendIntervalId s, intervals s, isRecording s, session s, isSetupComplete s,
   audioContext s).

(** The timer is consistent: the stored handle is the one active interval,
    it is active only while recording on a session whose setup is
    acknowledged, and recording implies that the audio context exists. *)
Definition timer_ok (s : State) : Prop :=
  match imageSendIntervalId s with
  | None => intervals s = []
  | Some id =>
      intervals s = [id] /\ isRecording s = true /\ is_Some (session s)
      /\ isSetupComplete s = true
  end
  /\ (isRecording s = true -> is_Some (audioContext s)).

Definition is_microphone_failed (e : event) : bool :=
  match e with
  | microphone_failed _ => true
  | _ => false
  end.
Local Open Scope nat_scope.

(** A chunk that [playNextInQueue] plays: at least one whole 16-bit
    sample and no odd byte. *)
Definition playable (a : ArrayBuffer) : bool := (2 <=? length a) && Nat.even (length a).

(** The fields of the playback queue and of the audio output. *)
Definition playback (s : State) :=
  (audioQueue s, isPlayingAudio s, playing s, started s, pendingPlayback s).

(** At most one chunk is out of the queue, sounding or waiting for the
    audio context, and then the flag is set; and the chunks played so far,
    followed by the playable ones still held, are the playable chunks
    enqueued so far, in order. *)
Definition playback_ok (enq : list ArrayBuffer) (s : State) : Prop :=
  length (playing s) + length (pendingPlayback s) <= 1
  /\ (length (playing s) + length (pendingPlayback s) = 1 -> isPlayingAudio s = true)
  /\ Forall (fun a => 2 <= length a) (pendingPlayback s)
  /\ (origin <$> started s) ++ filter playable (pendingPlayback s ++ audioQueue s)
     = filter playable enq.

Definition is_teardown (e : event) : bool :=
  match e with
  | socket_error _ | socket_close _ _ | connect_failed _ => true
  | _ => false
  end.
End AppSpec.

(** *** The flag of the playback queue *)
Module PlaybackSpec.
Import TypedArray App AppSpec.
Local Open Scope nat_scope.


End PlaybackSpec.

(** *** The accumulator of the worklet *)
Module AccumulatorSpec.
Import Num TypedArray AudioProcessor.

(** The filled region of the accumulator: the samples not yet consumed. *)
Definition filled (p : t) : list float :=
  take (_internalBufferIndex p) (_internalBuffer p).

Definition is_frame (m : message) : bool :=
  match m with
  | pcmData _ => true
  | debug => false
  end.

(** The emission window of the constructor and of [process]:
    [bufferSize * (sampleRate / targetSampleRate)]. *)
Definition window (sampleRate_ : float) (options : processorOptions) : float :=
  fmul (of_nat (nat_or (opt_bufferSize options) 4096))
       (fdiv sampleRate_ (float_or (opt_targetSampleRate options) (of_Z 16000))).

(** The buffer length that the constructor asks for:
    [Math.max(Math.ceil(window) + 128, bufferSize * 2)]. *)
Definition requested (sampleRate_ : float) (options : processorOptions) : xint :=
  xmax (xadd (Math_ceil (window sampleRate_ options)) 128)
       (nat_or (opt_bufferSize options) 4096 * 2).

(** Every call of [process] along a stream of blocks returned [true]: the
    worklet is kept alive. *)
Fixpoint keeps_alive (p : t) (blocks : list (option (list float) * float)) : bool :=
  match blocks with
  | [] => true
  | (inputChannel, currentTime) :: rest =>
      match process p inputChannel currentTime with
      | Some (p', _, alive) => alive && keeps_alive p' rest
      | None => false
      end
  end.
End AccumulatorSpec.

(** *** Calls, teardown and what is sent *)
Module CallSpec.
Import TypedArray App AppSpec.

(** The status line that the [onclose] callback chooses. *)
Definition close_status (code : N) (wasClean recording : bool) : string * bool :=
  if negb wasClean && recording then
    ("Disconnected unexpectedly (Code: " +:+ decimal code +:+ ")", true)
  else if (code =? 1000)%N then
    (if recording then "Disconnected." else "Call ended.", false)
  else ("Disconnected (Code: " +:+ decimal code +:+ ")", false).

(** Everything that a teardown resets. *)
Definition torn_down (s : State) : Prop :=
  isRecording s = false /\ session s = None /\ isSetupComplete s = false
  /\ audioWorkletNode s = false /\ audioQueue s = [] /\ isPlayingAudio s = false
  /\ imageSendIntervalId s = None.

(** What a teardown leaves alone: the attachment, the audio context, the
    record of what was sent and closed, the sources handed to the audio
    output, and the worklet nodes gone astray. *)
Definition kept (s : State) :=
  (currentImageBase64 s, currentImageMimeType s, audioContext s, transmitted s,
   closeCalls s, playing s, started s, pendingPlayback s, strayNodes s).

(** The handles of the intervals that the application holds. *)
Definition held_timers (s : State) : list positive :=
  match imageSendIntervalId s with
  | Some id => [id]
  | None => []
  end.

(** The call: everything but the playback queue, the audio output and the
    status line. *)
Definition call_state (s : State) :=
  (currentImageBase64 s, currentImageMimeType s, session s, isRecording s,
   audioContext s, audioWorkletNode s, isSetupComplete s, imageSendIntervalId s,
   intervals s, nextInterval s, transmitted s, closeCalls s, strayNodes s).

(** The events at which the application may send media. *)
Definition may_send (e : event) : bool :=
  match e with
  | microphone_granted | worklet_posted _ | stray_posted _ | interval_fired _ => true
  | _ => false
  end.

(** The interval handle and the active intervals. *)
Definition timers (s : State) := (imageSendIntervalId s, intervals s).

(** The application holds the handle of every active interval. *)
Definition timer_held (s : State) : Prop := intervals s = held_timers s.

(** A platform on which no audio context can be created. *)
Definition no_audio : AudioPlatform :=
  {| create_ok := false; created_suspended := false; resume_ok := false;
     addModule_ok := false |}.

(** A chunk arrives before any audio context exists and the context
    cannot be created. *)
Definition chunk_put_back : list event :=
  [ audio_message "AAE="; audio_initialized no_audio ].


End CallSpec.

(** *** Worklet nodes gone astray *)
Module StraySpec.
Import TypedArray App AppSpec.

(** Two microphone prompts are open at once (a call is started and
    stopped while its prompt is open, and a second call is started); this
    is the run up to the first grant, which attaches a worklet node. *)
Definition first_grant : list event :=
  [ click_record all_ok; connected 1%nat; socket_message setup_acknowledged;
    click_record all_ok; socket_close 1000 true;
    click_record all_ok; connected 2%nat; socket_message setup_acknowledged;
    microphone_granted ].

(** After the second grant: the user hangs up and starts a third call. *)
Definition hang_up_and_call_again : list event :=
  [ click_record all_ok; socket_close 1000 true;
    click_record all_ok; connected 3%nat ].
End StraySpec.

(** * The resampler and the quantiser *)
Module ResamplerFacts.
Import Num TypedArray AudioProcessor ResamplerSpec.
Local Open Scope nat_scope.

Lemma resample_loop_spec (p : t) :
  forall fuel i out oi c out' oi' c',
    resample_loop p fuel i out oi c = (out', oi', c') ->
    oi + fuel <= length out ->
    exists n,
      n <= fuel /\ oi' = oi + n /\ length out' = length out
      /\ (forall j, j < oi -> out' !! j = out !! j)
      /\ (forall j, j < n ->
            is_Some (interpolated p (i + j))
            /\ out' !! (oi + j) = interpolated p (i + j))
      /\ (n < fuel -> interpolated p (i + n) = None)
      /\ c' = match n with
              | O => c
              | S m => xadd (index p (i + m)) 1
              end.
Proof.
  induction fuel as [|fuel IH]; intros i out oi c out' oi' c' Hloop Hlen.
  - simpl in Hloop. injection Hloop as <- <- <-.
    exists 0. repeat split; try lia; auto; intros; lia.
  - simpl in Hloop.
    assert (Hstep : forall v,
               interpolated p i = Some (fround v) ->
               resample_loop p fuel (S i) (store32 out oi v) (S oi)
                 (xadd (index p i) 1) = (out', oi', c') ->
               exists n,
                 n <= S fuel /\ oi' = oi + n /\ length out' = length out
                 /\ (forall j, j < oi -> out' !! j = out !! j)
                 /\ (forall j, j < n ->
                       is_Some (interpolated p (i + j))
                       /\ out' !! (oi + j) = interpolated p (i + j))
                 /\ (n < S fuel -> interpolated p (i + n) = None)
                 /\ c' = match n with
                         | O => c
                         | S m => xadd (index p (i + m)) 1
                         end).
    { intros v Hv Hrec.
      apply IH in Hrec; [|unfold store32; rewrite length_insert; lia].
      destruct Hrec as (n & Hn & -> & Hl & Hkeep & Hnew & Hstop & Hc).
      unfold store32 in Hl, Hkeep. rewrite length_insert in Hl.
      exists (S n). repeat split; try lia; auto.
      - intros j Hj. rewrite Hkeep by lia.
        apply list_lookup_insert_ne. lia.
      - destruct j as [|j].
        + rewrite Nat.add_0_r, Hv. eauto.
        + replace (i + S j) with (S i + j) by lia. apply Hnew. lia.
      - destruct j as [|j].
        + rewrite !Nat.add_0_r, Hkeep by lia.
          rewrite list_lookup_insert_eq by lia. symmetry. exact Hv.
        + replace (oi + S j) with (S oi + j) by lia.
          replace (i + S j) with (S i + j) by lia. apply Hnew. lia.
      - intros Hlt. replace (i + S n) with (S i + n) by lia. apply Hstop. lia.
      - subst c'. destruct n as [|m].
        + now rewrite Nat.add_0_r.
        + now replace (i + S m) with (S i + m) by lia. }
    unfold interpolated, index, fraction, position in Hstep.
    destruct (xlt (xadd (Math_floor (fmul (of_nat i) (resampleRatio p))) 1)
                (_internalBufferIndex p)) eqn:E1.
    + eapply Hstep; [reflexivity | exact Hloop].
    + destruct (xlt (Math_floor (fmul (of_nat i) (resampleRatio p)))
                  (_internalBufferIndex p)) eqn:E2.
      * eapply Hstep; [reflexivity | exact Hloop].
      * injection Hloop as <- <- <-.
        exists 0. repeat split; try lia; auto; try (intros; lia).
        intros _. rewrite Nat.add_0_r.
        unfold interpolated, index, fraction, position. now rewrite E1, E2.
Qed.

(** The loop reads the accumulator, the fill level, the ratio and the frame
    size only. *)
Lemma resample_loop_ext (p q : t) :
  _internalBuffer q = _internalBuffer p ->
  _internalBufferIndex q = _internalBufferIndex p ->
  resampleRatio q = resampleRatio p ->
  forall fuel i out oi c,
    resample_loop q fuel i out oi c = resample_loop p fuel i out oi c.
Proof.
  intros Hb Hi Hr. induction fuel as [|fuel IH]; intros i out oi c; simpl.
  - reflexivity.
  - rewrite Hb, Hi, Hr, !IH. reflexivity.
Qed.

Lemma resample_ext (p q : t) :
  _internalBuffer q = _internalBuffer p ->
  _internalBufferIndex q = _internalBufferIndex p ->
  resampleRatio q = resampleRatio p ->
  bufferSize q = bufferSize p ->
  resample q = resample p.
Proof.
  intros Hb Hi Hr Hs. unfold resample.
  rewrite Hs, (resample_loop_ext p q Hb Hi Hr). reflexivity.
Qed.

Lemma resample_spec (p : t) (out : list float) (c : xint) :
  resample p = (out, c) ->
  length out <= bufferSize p
  /\ (forall i, i < length out ->
        is_Some (interpolated p i) /\ out !! i = interpolated p i)
  /\ (length out < bufferSize p -> interpolated p (length out) = None)
  /\ c = match length out with
         | O => XInt 0
         | S m => xadd (index p m) 1
         end.
Proof.
  unfold resample.
  destruct (resample_loop p (bufferSize p) 0 (Float32Array (bufferSize p)) 0 (XInt 0))
    as [[ob oi] c'] eqn:Hloop.
  intros [= <- <-].
  apply resample_loop_spec in Hloop;
    [|unfold Float32Array; rewrite length_replicate; lia].
  destruct Hloop as (n & Hn & -> & Hl & _ & Hnew & Hstop & Hc).
  unfold Float32Array in Hl. rewrite length_replicate in Hl.
  assert (Hlen : length (slice0 ob (0 + n)) = n).
  { unfold slice0. rewrite length_take. lia. }
  rewrite Hlen. simpl in *. repeat split; auto.
  - apply Hnew. lia.
  - unfold slice0. rewrite lookup_take_lt by lia. apply Hnew. lia.
Qed.

(** What [sendResampledBuffer] does, by cases. *)
Lemma sendResampledBuffer_cases (p : t) (now : float) :
  (sendResampledBuffer p now = (p, [])
   /\ (_internalBufferIndex p = 0 \/ isProcessing p = true))
  \/ (_internalBufferIndex p <> 0 /\ isProcessing p = false
      /\ fst (resample p) = []
      /\ sendResampledBuffer p now = (with_lastSendTime p now, [debug]))
  \/ (_internalBufferIndex p <> 0 /\ isProcessing p = false
      /\ fst (resample p) <> []
      /\ exists p',
          sendResampledBuffer p now =
            (p', [debug; pcmData (Int16Array_buffer (map quantize (fst (resample p))))])
          /\ bufferSize p' = bufferSize p
          /\ resampleRatio p' = resampleRatio p
          /\ isProcessing p' = false
          /\ length (_internalBuffer p') = length (_internalBuffer p)
          /\ _internalBufferIndex p' < _internalBufferIndex p).
Proof.
  unfold sendResampledBuffer.
  destruct (_internalBufferIndex p =? 0) eqn:E0; simpl.
  { left. split; auto. left. now apply Nat.eqb_eq. }
  apply Nat.eqb_neq in E0.
  destruct (isProcessing p) eqn:Ep; simpl.
  { left. split; auto. }
  right.
  rewrite (resample_ext p (with_lastSendTime (with_processing p true) now))
    by reflexivity.
  destruct (resample p) as [out c] eqn:Hr. simpl.
  destruct (length out =? 0) eqn:El.
  - left. apply Nat.eqb_eq in El. destruct out; [|discriminate].
    repeat split; auto. destruct p; simpl in *. now subst.
  - right. apply Nat.eqb_neq in El.
    repeat split; auto. { intros ->. now apply El. }
    eexists. split; [reflexivity|].
    destruct (xpos c && xle c (_internalBufferIndex p)) eqn:Ec.
    + apply andb_true_iff in Ec as [Hpos Hle].
      destruct c as [z| | |]; simpl in *; try discriminate.
      apply Z.ltb_lt in Hpos. apply Z.leb_le in Hle.
      repeat split; auto; [|lia].
      unfold copyWithin0. rewrite length_app, length_take, !length_drop. lia.
    + simpl. repeat split; auto. lia.
Qed.

(** C1: in every frame that [sendResampledBuffer] emits, output sample [i]
    is computed by linear interpolation at [P = i * ratio], [K = floor P],
    [T = P - K]: it is [buffer[K] * (1 - T) + buffer[K + 1] * T] when
    [K + 1] is below the fill level and [buffer[K]] when only [K] is (each
    stored as a binary32), and the frame is shorter than [bufferSize]
    exactly because neither held at its first missing sample. *)
Theorem C1_linear_interpolation (p p' : t) (now : float) (buffer : ArrayBuffer) :
  sendResampledBuffer p now = (p', [debug; pcmData buffer]) ->
  exists out : list float,
    buffer = Int16Array_buffer (map quantize out)
    /\ 1 <= length out <= bufferSize p
    /\ (forall i, i < length out ->
          let P := fmul (of_nat i) (resampleRatio p) in
          let K := Math_floor P in
          let T := fsub P (floor_number P) in
          if xlt (xadd K 1) (_internalBufferIndex p) then
            out !! i =
              Some (fround (fadd (fmul (read (_internalBuffer p) K) (fsub one T))
                                 (fmul (read (_internalBuffer p) (xadd K 1)) T)))
          else
            xlt K (_internalBufferIndex p) = true
            /\ out !! i = Some (fround (read (_internalBuffer p) K)))
    /\ (length out < bufferSize p ->
          let K := Math_floor (fmul (of_nat (length out)) (resampleRatio p)) in
          xlt (xadd K 1) (_internalBufferIndex p) = false
          /\ xlt K (_internalBufferIndex p) = false).
Proof.
  intros Hsend.
  destruct (sendResampledBuffer_cases p now)
    as [[H _] | [(_ & _ & _ & H) | (_ & _ & Hne & p'' & H & _)]];
    rewrite H in Hsend; try discriminate.
  injection Hsend as _ <-.
  destruct (resample p) as [out c] eqn:Hr. simpl in *.
  destruct (resample_spec p out c Hr) as (Hlen & Hval & Hstop & _).
  exists out. split; [reflexivity|]. split.
  { split; [|exact Hlen]. destruct out; [contradiction|simpl; lia]. }
  split.
  - intros i Hi. specialize (Hval i Hi) as [Hsome Hget].
    unfold interpolated, index, fraction, position in Hsome, Hget.
    simpl.
    destruct (xlt (xadd (Math_floor (fmul (of_nat i) (resampleRatio p))) 1)
                (_internalBufferIndex p)); [exact Hget|].
    destruct (xlt (Math_floor (fmul (of_nat i) (resampleRatio p)))
                (_internalBufferIndex p)); [split; [reflexivity | exact Hget]|].
    destruct Hsome as [? ?]; discriminate.
  - intros Hshort. specialize (Hstop Hshort).
    unfold interpolated, index, fraction, position in Hstop. simpl.
    destruct (xlt (xadd (Math_floor (fmul (of_nat (length out)) (resampleRatio p))) 1)
                (_internalBufferIndex p)); [discriminate|].
    destruct (xlt (Math_floor (fmul (of_nat (length out)) (resampleRatio p)))
                (_internalBufferIndex p)); [discriminate|]. auto.
Qed.

Lemma Int16Array_buffer_length (a : list Z) :
  length (Int16Array_buffer a) = 2 * length a.
Proof.
  unfold Int16Array_buffer. induction a as [|z a IH]; simpl; [reflexivity|].
  rewrite IH. lia.
Qed.

(** The accumulation step never throws, and what it stores. *)
Lemma accumulate_spec (p : t) (inputChannel : option (list float)) :
  exists p1,
    accumulate p inputChannel = Some p1
    /\ bufferSize p1 = bufferSize p /\ resampleRatio p1 = resampleRatio p
    /\ isProcessing p1 = isProcessing p /\ lastSendTime p1 = lastSendTime p
    /\ (_internalBufferIndex p <= length (_internalBuffer p) ->
        length (_internalBuffer p1) = length (_internalBuffer p)
        /\ _internalBufferIndex p1 <= length (_internalBuffer p1)
        /\ forall input, inputChannel = Some input ->
             length (_internalBuffer p) - _internalBufferIndex p < length input ->
             _internalBuffer p1 =
               take (_internalBufferIndex p) (_internalBuffer p)
                 ++ take (length (_internalBuffer p) - _internalBufferIndex p) input
             /\ _internalBufferIndex p1 = length (_internalBuffer p)).
Proof.
  unfold accumulate. destruct inputChannel as [input|].
  2:{ exists p. repeat split; auto; intros; discriminate. }
  destruct (0 <? length input) eqn:E0.
  2:{ exists p. apply Nat.ltb_ge in E0.
      repeat split; auto; simplify_eq; lia. }
  destruct (_internalBufferIndex p + length input <=? length (_internalBuffer p)) eqn:E1.
  - unfold set. rewrite E1. simpl. eexists. split; [reflexivity|].
    apply Nat.leb_le in E1. simpl. repeat split; auto.
    all: try (rewrite !length_app, length_take, length_drop; lia).
    all: simplify_eq; lia.
  - apply Nat.leb_gt in E1.
    destruct (0 <? length (_internalBuffer p) - _internalBufferIndex p) eqn:E2.
    + apply Nat.ltb_lt in E2. unfold set, slice0.
      rewrite length_take.
      replace (_ <=? _) with true by (symmetry; apply Nat.leb_le; lia).
      simpl. eexists. split; [reflexivity|]. simpl. repeat split; auto.
      all: try (rewrite !length_app, !length_take, length_drop; lia).
      all: simplify_eq; try lia.
      rewrite drop_ge by lia. now rewrite app_nil_r.
    + apply Nat.ltb_ge in E2. exists p. repeat split; auto.
      all: simplify_eq; try lia.
      replace (length (_internalBuffer p) - _internalBufferIndex p) with 0 by lia.
      rewrite take_0, app_nil_r, take_ge; auto. lia.
Qed.

(** A frame carries between one and [bufferSize] samples. *)
Lemma sendResampledBuffer_frames (p p' : t) (now : float) (msgs : list message) :
  sendResampledBuffer p now = (p', msgs) ->
  bufferSize p' = bufferSize p
  /\ forall buffer, pcmData buffer ∈ msgs ->
       exists n, 1 <= n <= bufferSize p /\ length buffer = 2 * n.
Proof.
  intros Hsend.
  destruct (sendResampledBuffer_cases p now)
    as [[H _] | [(_ & _ & _ & H) | (_ & _ & Hne & p'' & H & Hbs & _)]];
    rewrite H in Hsend; injection Hsend as <- <-.
  - split; [reflexivity|]. intros b Hb. inversion Hb.
  - split; [reflexivity|]. intros b Hb.
    apply list_elem_of_singleton in Hb. discriminate.
  - split; [exact Hbs|]. intros b Hb.
    apply elem_of_cons in Hb as [Hb|Hb]; [discriminate|].
    apply list_elem_of_singleton in Hb. injection Hb as ->.
    destruct (resample p) as [out c] eqn:Hr. simpl in *.
    destruct (resample_spec p out c Hr) as (Hlen & _).
    exists (length out). rewrite Int16Array_buffer_length, length_map.
    split; [|reflexivity]. destruct out; [contradiction|simpl in *; lia].
Qed.

Lemma process_frames (p : t) (inputChannel : option (list float)) (now : float) :
  exists p' msgs,
    process p inputChannel now = Some (p', msgs, true)
    /\ bufferSize p' = bufferSize p
    /\ forall buffer, pcmData buffer ∈ msgs ->
         exists n, 1 <= n <= bufferSize p /\ length buffer = 2 * n.
Proof.
  unfold process.
  destruct (accumulate_spec p inputChannel) as (p1 & -> & Hbs & _). simpl.
  destruct (_ && negb (isProcessing p1)).
  - destruct (sendResampledBuffer p1 now) as [p2 msgs] eqn:Hsend.
    exists p2, msgs. split; [reflexivity|].
    apply sendResampledBuffer_frames in Hsend as [Hbs' Hfr].
    rewrite Hbs in *. auto.
  - exists p1, []. repeat split; auto. intros b Hb. inversion Hb.
Qed.

(** C3: whatever stream of blocks is pushed, the worklet runs through it,
    and every frame it posts holds at least 1 and at most [bufferSize]
    16-bit samples; a frame of zero samples is never posted. *)
Theorem C3_frame_length_bounds (p : t) (blocks : list (option (list float) * float)) :
  exists p' msgs,
    run p blocks = Some (p', msgs)
    /\ forall buffer, pcmData buffer ∈ msgs ->
         exists n, 1 <= n <= bufferSize p /\ length buffer = 2 * n.
Proof.
  revert p. induction blocks as [|[input now] rest IH]; intros p; simpl.
  - exists p, []. split; [reflexivity|]. intros b Hb. inversion Hb.
  - destruct (process_frames p input now) as (p1 & m1 & -> & Hbs & Hfr). simpl.
    destruct (IH p1) as (p2 & m2 & -> & Hfr2). simpl.
    exists p2, (m1 ++ m2). split; [reflexivity|].
    intros b Hb. apply elem_of_app in Hb as [Hb|Hb]; [auto|].
    rewrite <- Hbs. auto.
Qed.

(** When the emission window is a number, the ratio is finite and output
    sample 0 sits at index 0. *)
Lemma regular_first_index (p : t) (z : Z) :
  Math_floor (fmul (of_nat (bufferSize p)) (resampleRatio p)) = XInt z ->
  index p 0 = XInt 0.
Proof.
  unfold index, position, fmul. change (of_nat 0) with (S754_zero false).
  destruct (of_nat (bufferSize p)) as [s| [|] | |s m e],
           (resampleRatio p) as [s'| [|] | |s' m' e'];
    simpl; intros H; try discriminate; try reflexivity;
    repeat match goal with b : bool |- _ => destruct b end; discriminate.
Qed.

Lemma regular_emits (p : t) :
  regular p -> _internalBufferIndex p <> 0 -> fst (resample p) <> [].
Proof.
  intros (_ & _ & _ & Hbs & z & Hz & _) Hidx Hnil.
  destruct (resample p) as [out c] eqn:Hr. simpl in Hnil. subst out.
  destruct (resample_spec p [] c Hr) as (_ & _ & Hstop & _).
  simpl in Hstop. specialize (Hstop ltac:(lia)).
  unfold interpolated in Hstop. rewrite (regular_first_index p z Hz) in Hstop.
  unfold xlt, xadd in Hstop.
  destruct (0 + 1 <? Z.of_nat (_internalBufferIndex p))%Z; [discriminate|].
  destruct (0 <? Z.of_nat (_internalBufferIndex p))%Z eqn:E; [discriminate|].
  apply Z.ltb_ge in E. lia.
Qed.

(** What [process] does with a block, and with one that overflows. *)
Lemma process_overflow (p : t) (inputChannel : option (list float))
    (now : float) :
  _internalBufferIndex p <= length (_internalBuffer p) ->
  exists p1 p' msgs,
    accumulate p inputChannel = Some p1
    /\ process p inputChannel now = Some (p', msgs, true)
    /\ length (_internalBuffer p') = length (_internalBuffer p)
    /\ _internalBufferIndex p1 <= length (_internalBuffer p)
    /\ _internalBufferIndex p' <= length (_internalBuffer p')
    /\ (regular p -> regular p')
    /\ forall input,
         inputChannel = Some input ->
         length (_internalBuffer p) - _internalBufferIndex p < length input ->
         _internalBuffer p1 =
           take (_internalBufferIndex p) (_internalBuffer p)
             ++ take (length (_internalBuffer p) - _internalBufferIndex p) input
         /\ _internalBufferIndex p1 = length (_internalBuffer p)
         /\ (regular p ->
             (exists buffer, msgs = [debug; pcmData buffer])
             /\ _internalBufferIndex p' < length (_internalBuffer p')).
Proof.
  intros Hinv. unfold process.
  destruct (accumulate_spec p inputChannel)
    as (p1 & Hacc & Hbs & Hr & Hproc & _ & Hfit).
  destruct (Hfit Hinv) as (Hlen1 & Hidx1 & Hover). clear Hfit.
  rewrite Hacc. simpl. exists p1.
  assert (Hreg1 : regular p -> regular p1).
  { intros (_ & Hpos & Hp & Hb & z & Hz & Hzl).
    repeat split; try congruence; try lia.
    exists z. rewrite Hbs, Hr, Hlen1. auto. }
  assert (Htrig : regular p ->
            _internalBufferIndex p1 = length (_internalBuffer p) ->
            (xge_nat (_internalBufferIndex p1)
               (Math_floor (fmul (of_nat (bufferSize p1)) (resampleRatio p1)))
             || flt MAX_BUFFER_AGE_SECONDS (fsub now (lastSendTime p1))
                && (0 <? _internalBufferIndex p1))
            && negb (isProcessing p1) = true).
  { intros (_ & Hpos & Hp & Hb & z & Hz & Hzl) Hfull.
    rewrite Hbs, Hr, Hz, Hproc, Hp, Hfull. unfold xge_nat, xle.
    replace (z <=? _)%Z with true by (symmetry; apply Z.leb_le; lia).
    reflexivity. }
  assert (Hkeep : forall input,
            inputChannel = Some input ->
            length (_internalBuffer p) - _internalBufferIndex p < length input ->
            forall (p' : t) (msgs : list message),
              (regular p -> _internalBufferIndex p1 = length (_internalBuffer p) ->
               (exists buffer, msgs = [debug; pcmData buffer])
               /\ _internalBufferIndex p' < length (_internalBuffer p')) ->
              _internalBuffer p1 =
                take (_internalBufferIndex p) (_internalBuffer p)
                  ++ take (length (_internalBuffer p) - _internalBufferIndex p) input
              /\ _internalBufferIndex p1 = length (_internalBuffer p)
              /\ (regular p ->
                  (exists buffer, msgs = [debug; pcmData buffer])
                  /\ _internalBufferIndex p' < length (_internalBuffer p'))).
  { intros input Hin Hov p' msgs Hfree.
    destruct (Hover input Hin Hov) as [Hbuf Hfull]. auto. }
  destruct (sendResampledBuffer p1 now) as [p2 msgs] eqn:Hsend.
  match goal with |- context [if ?b then _ else _] => destruct b eqn:Hb end.
  - exists p2, msgs. split; [reflexivity|]. split; [reflexivity|].
    destruct (sendResampledBuffer_cases p1 now)
      as [[Hs Hwhy] | [(Hi & Hp & Hnil & Hs)
                      | (Hi & Hp & Hne & p3 & Hs & Hbs3 & Hr3 & Hp3 & Hl3 & Hi3)]];
      rewrite Hs in Hsend; injection Hsend as <- <-.
    + split_and!; auto; try lia.
      intros input Hin Hov. apply (Hkeep input Hin Hov).
      intros Hreg Hfull. exfalso.
      destruct (Hreg1 Hreg) as (_ & Hpos & Hp & _).
      destruct Hwhy as [Hz|Hz]; [lia|congruence].
    + assert (Hreg2 : regular p -> regular (with_lastSendTime p1 now)).
      { intros Hreg. destruct (Hreg1 Hreg) as (? & ? & ? & ? & ?).
        split_and!; auto. }
      simpl. split_and!; auto; try lia.
      intros input Hin Hov. apply (Hkeep input Hin Hov).
      intros Hreg Hfull. exfalso. now apply (regular_emits p1 (Hreg1 Hreg) Hi).
    + assert (Hreg3 : regular p -> regular p3).
      { intros Hreg. destruct (Hreg1 Hreg) as (? & ? & ? & ? & z & Hz & Hzl).
        split_and!; auto; try lia.
        exists z. rewrite Hbs3, Hr3, Hl3. auto. }
      split_and!; auto; try lia.
      intros input Hin Hov. apply (Hkeep input Hin Hov).
      intros Hreg Hfull. split; [eauto | lia].
  - exists p1, []. split; [reflexivity|]. split; [reflexivity|].
    split_and!; auto; try lia.
    intros input Hin Hov. apply (Hkeep input Hin Hov).
    intros Hreg Hfull. exfalso.
    discriminate (Htrig Hreg Hfull).
Qed.

(** [process] returns the accumulated state as it is, or what
    [sendResampledBuffer] makes of it. *)
Lemma process_accumulated (p p1 : t) (inputChannel : option (list float)) (now : float)
    (r : t * list message * bool) :
  accumulate p inputChannel = Some p1 ->
  process p inputChannel now = Some r ->
  r = (p1, [], true) \/ r = (sendResampledBuffer p1 now, true).
Proof.
  intros Hacc. unfold process. rewrite Hacc. simpl.
  destruct (_ && negb (isProcessing p1)).
  - destruct (sendResampledBuffer p1 now) as [p2 msgs]. intros [= <-]. now right.
  - intros [= <-]. now left.
Qed.

(** C4: a block is always accepted without a throw and [process] returns
    [true]; its result is the accumulated state, either as it is or after
    the emission made from it, and the fill level stays within the
    accumulator; a block larger than the free space leaves the accumulator
    holding its old content followed by the prefix of the block that fits,
    the rest being dropped; and on a regular accumulator such an overflow
    posts at once the frame resampled from that content and leaves free
    space behind, so the next block is not stalled. *)
Theorem C4_overflow_keeps_prefix (p : t) (inputChannel : option (list float))
    (now : float) :
  _internalBufferIndex p <= length (_internalBuffer p) ->
  exists p1 p' msgs,
    accumulate p inputChannel = Some p1
    /\ process p inputChannel now = Some (p', msgs, true)
    /\ ((p', msgs) = (p1, []) \/ (p', msgs) = sendResampledBuffer p1 now)
    /\ length (_internalBuffer p') = length (_internalBuffer p)
    /\ _internalBufferIndex p1 <= length (_internalBuffer p)
    /\ _internalBufferIndex p' <= length (_internalBuffer p')
    /\ (regular p -> regular p')
    /\ forall input,
         inputChannel = Some input ->
         length (_internalBuffer p) - _internalBufferIndex p < length input ->
         _internalBuffer p1 =
           take (_internalBufferIndex p) (_internalBuffer p)
             ++ take (length (_internalBuffer p) - _internalBufferIndex p) input
         /\ _internalBufferIndex p1 = length (_internalBuffer p)
         /\ (regular p ->
             (p', msgs) = sendResampledBuffer p1 now
             /\ fst (resample p1) <> []
             /\ msgs = [debug;
                        pcmData (Int16Array_buffer (map quantize (fst (resample p1))))]
             /\ _internalBufferIndex p' < length (_internalBuffer p')).
Proof.
  intros Hinv.
  destruct (process_overflow p inputChannel now Hinv)
    as (p1 & p' & msgs & Hacc & Hproc & Hlen & Hidx1 & Hidx' & Hreg & Hover).
  exists p1, p', msgs.
  assert (Htie : (p', msgs) = (p1, []) \/ (p', msgs) = sendResampledBuffer p1 now).
  { destruct (process_accumulated p p1 inputChannel now _ Hacc Hproc) as [H|H].
    - left. now injection H as -> ->.
    - right. destruct (sendResampledBuffer p1 now). now injection H as -> ->. }
  split_and!; auto.
  intros input Hin Hov. destruct (Hover input Hin Hov) as (Hbuf & Hfull & Hfree).
  split_and!; auto. intros Hr. destruct (Hfree Hr) as [[buffer Hmsgs] Hspace].
  assert (Hsend : (p', msgs) = sendResampledBuffer p1 now).
  { destruct Htie as [H|H]; [|exact H]. injection H as _ H. congruence. }
  destruct (sendResampledBuffer_cases p1 now)
    as [[Hs _] | [(_ & _ & _ & Hs) | (_ & _ & Hne & p3 & Hs & _)]];
    rewrite Hs in Hsend; injection Hsend as Hp Hm; try congruence.
  split_and!; auto. now rewrite Hs, Hp, Hm.
Qed.

(** [Math.floor x <= Math.ceil x] whenever the floor is a number. *)
Lemma floor_le_ceil (x : float) (z : Z) :
  Math_floor x = XInt z -> exists c, Math_ceil x = XInt c /\ (z <= c)%Z.
Proof.
  destruct x as [s|[|]| |s m e]; simpl; intros [= <-].
  - exists 0%Z. split; [reflexivity|lia].
  - eexists. split; [reflexivity|].
    destruct (Z.le_gt_cases 0 e) as [He|He].
    + rewrite !Z.shiftl_mul_pow2 by lia. lia.
    + rewrite !Z.shiftl_div_pow2 by lia.
      assert (Hd : (0 < 2 ^ (- e))%Z) by (apply Z.pow_pos_nonneg; lia).
      generalize dependent (2 ^ (- e))%Z. intros d Hd.
      pose proof (Z.div_mod (smant s m) d ltac:(lia)).
      pose proof (Z.div_mod (- smant s m) d ltac:(lia)).
      pose proof (Z.mod_pos_bound (smant s m) d Hd).
      pose proof (Z.mod_pos_bound (- smant s m) d Hd).
      nia.
Qed.

(** The constructor yields a regular accumulator for every ratio whose
    emission window is a number. *)
Lemma constructor_regular (maxLength : N) (sr now : float) (options : processorOptions)
    (p : t) (msgs : list message) :
  constructor maxLength sr now options = Some (p, msgs) ->
  (exists z, Math_floor (fmul (of_nat (bufferSize p)) (resampleRatio p)) = XInt z) ->
  regular p.
Proof.
  unfold constructor.
  set (bs := nat_or (opt_bufferSize options) 4096).
  set (ratio := fdiv sr (float_or (opt_targetSampleRate options) (of_Z 16000))).
  assert (Hbs : 1 <= bs).
  { unfold bs, nat_or. destruct (opt_bufferSize options) as [[|n]|]; lia. }
  destruct (Float32Array_new _) as [buf|] eqn:Hnew; [|discriminate].
  intros [= <- <-]. simpl. intros (z & Hz).
  destruct (floor_le_ceil _ _ Hz) as (c & Hc & Hzc).
  rewrite Hc in Hnew. cbn [xadd xmax Float32Array_new] in Hnew.
  destruct (_ && _ && _); [|discriminate]. injection Hnew as <-.
  unfold regular, Float32Array. simpl. rewrite length_replicate.
  split_and!; auto; try lia.
  exists z. split; [exact Hz|]. lia.
Qed.

(** *** The quantiser *)

Lemma SFcompare_antisym (x y : float) (c : comparison) :
  SFcompare x y = Some c -> SFcompare y x = Some (CompOpp c).
Proof.
  destruct x as [sx|sx| |sx mx ex], y as [sy|sy| |sy my ey]; simpl;
    intros [= <-]; try reflexivity;
    try (destruct sx; reflexivity); try (destruct sy; reflexivity);
    try (destruct sx, sy; reflexivity).
  destruct sx, sy; try reflexivity;
    rewrite (Z.compare_antisym ex ey);
    destruct (ex ?= ey)%Z; simpl; try reflexivity;
    change (Pos.compare_cont Eq my mx) with (Pos.compare_cont (CompOpp Eq) my mx);
    rewrite <- Pos.compare_cont_antisym;
    destruct (Pos.compare_cont Eq mx my); reflexivity.
Qed.

(** The clamped sample is NaN or lies in [-1, 1]. *)
Lemma clamp_range (x : float) :
  clamp x = nan
  \/ (fle (of_Z (-1)) (clamp x) = true /\ fle (clamp x) one = true).
Proof.
  unfold clamp, Math_min.
  destruct (SFcompare one x) as [c|] eqn:E1.
  2:{ left. reflexivity. }
  right.
  assert (Hx : forall c', c = Gt \/ c = Eq ->
             SFcompare (of_Z (-1)) x = Some c' ->
             fle (of_Z (-1)) (Math_max (of_Z (-1)) x) = true
             /\ fle (Math_max (of_Z (-1)) x) one = true).
  { intros c' Hc E2. unfold Math_max. rewrite E2.
    apply SFcompare_antisym in E1.
    destruct c'.
    - split; vm_compute; reflexivity.
    - split; [unfold fle, SFleb; now rewrite E2|].
      unfold fle, SFleb. rewrite E1. destruct Hc as [-> | ->]; reflexivity.
    - split; vm_compute; reflexivity. }
  assert (Hsome : c = Gt \/ c = Eq -> exists c', SFcompare (of_Z (-1)) x = Some c').
  { intros _. destruct x as [sx|sx| |sx mx ex]; try discriminate; simpl; eauto. }
  destruct c.
  - change (is_neg_zero one) with false. cbv iota.
    destruct Hsome as [c' E2]; auto. apply (Hx c'); auto.
  - split; vm_compute; reflexivity.
  - destruct Hsome as [c' E2]; auto. apply (Hx c'); auto.
Qed.

(** [ToInt16] yields the 16-bit signed integer congruent to the integer
    part. *)
Lemma ToInt16_spec (x : float) :
  (-32768 <= ToInt16 x < 32768)%Z
  /\ ((ToInt16 x - truncZ x) mod 65536 = 0)%Z.
Proof.
  unfold ToInt16.
  pose proof (Z.mod_pos_bound (truncZ x) 65536 ltac:(lia)).
  destruct (32768 <=? truncZ x mod 65536)%Z eqn:E;
    [apply Z.leb_le in E | apply Z.leb_gt in E];
    (split; [lia|]); Z.div_mod_to_equations; lia.
Qed.

(** When the integer part fits in 16 bits the stored value is exactly the
    integer part: the product is cut toward zero, not rounded. *)
Lemma ToInt16_truncates (x : float) :
  (-32768 <= truncZ x < 32768)%Z -> ToInt16 x = truncZ x.
Proof.
  intros H. unfold ToInt16.
  destruct (32768 <=? truncZ x mod 65536)%Z eqn:E;
    [apply Z.leb_le in E | apply Z.leb_gt in E];
    Z.div_mod_to_equations; lia.
Qed.

Example quantize_quarter :
  quantize Examples.quarter = 8191%Z /\ quantize_rounded Examples.quarter = 8192%Z.
Proof. vm_compute. auto. Qed.

Example quantize_saturates :
  quantize (of_Z 2) = 32767%Z /\ quantize (of_Z (-2)) = (-32767)%Z /\ quantize nan = 0%Z.
Proof. vm_compute. auto. Qed.

(** At ratio 3 with frames of 4 samples, 12 zero samples give exactly one
    frame of 4 zero samples; 10 input samples are consumed and 2 stay. *)
Example twelve_zeros_one_frame :
  exists p',
    process Examples.worklet (Some (replicate 12 zero)) zero
    = Some (p', [debug; pcmData (replicate 8 Byte.x00)], true)
    /\ _internalBufferIndex p' = 2.
Proof. eexists. vm_compute. split; reflexivity. Qed.

(** C2, as stated, fails: with the single sample 0.25 buffered the frame
    holds 8191, the integer part of 0.25 * 32767 = 8191.75, where rounding
    would give 8192. *)
Lemma C2_rounding_counterexample :
  ~ (forall (p p' : t) (now : float) (buffer : ArrayBuffer),
       sendResampledBuffer p now = (p', [debug; pcmData buffer]) ->
       buffer = Int16Array_buffer (map quantize_rounded (fst (resample p)))).
Proof.
  intros H.
  specialize (H Examples.one_quarter (fst Examples.one_quarter_sent) one
                [Byte.xff; Byte.x1f]).
  assert (Hsent : sendResampledBuffer Examples.one_quarter one
                  = (fst Examples.one_quarter_sent, [debug; pcmData [Byte.xff; Byte.x1f]]))
    by (vm_compute; reflexivity).
  specialize (H Hsent). clear Hsent. apply (f_equal (map Z_of_byte)) in H.
  vm_compute in H. discriminate H.
Qed.

(** C2, amended: in every emitted frame each sample is the resampled value
    clamped to [-1, 1] (NaN stays NaN), multiplied by 32767 and converted
    by the [Int16Array] store: the 16-bit signed integer congruent to the
    product's integer part, which is cut toward zero, not rounded. *)
Theorem C2_clamp_then_truncate (p p' : t) (now : float) (buffer : ArrayBuffer) :
  sendResampledBuffer p now = (p', [debug; pcmData buffer]) ->
  exists pcm : list Z,
    buffer = Int16Array_buffer pcm
    /\ Forall2
         (fun x v =>
            (clamp x = nan
             \/ (fle (of_Z (-1)) (clamp x) = true /\ fle (clamp x) one = true))
            /\ v = ToInt16 (fmul (clamp x) (of_Z 32767))
            /\ (-32768 <= v < 32768)%Z
            /\ ((v - truncZ (fmul (clamp x) (of_Z 32767))) mod 65536 = 0)%Z)
         (fst (resample p)) pcm.
Proof.
  intros Hsend.
  destruct (sendResampledBuffer_cases p now)
    as [[H _] | [(_ & _ & _ & H) | (_ & _ & _ & p'' & H & _)]];
    rewrite H in Hsend; try discriminate.
  injection Hsend as _ <-.
  exists (map quantize (fst (resample p))). split; [reflexivity|].
  generalize (fst (resample p)). clear. intros out.
  induction out as [|x out IH]; cbn [map]; constructor; [|exact IH].
  split; [apply clamp_range|]. split; [reflexivity|].
  apply ToInt16_spec.
Qed.

(** The frame of [three_buffered]: two samples, the second taken at the last
    filled index, the third missing. *)
Lemma C1_linear_interpolation_witness :
  sendResampledBuffer Examples.three_buffered one
  = (fst Examples.three_buffered_sent,
     [debug; pcmData [Byte.xff; Byte.x1f; Byte.xff; Byte.x3f]])
  /\ exists out : list float,
       [Byte.xff; Byte.x1f; Byte.xff; Byte.x3f] = Int16Array_buffer (map quantize out)
       /\ 1 <= length out <= 3.
Proof.
  assert (Hsent : sendResampledBuffer Examples.three_buffered one
                  = (fst Examples.three_buffered_sent,
                     [debug; pcmData [Byte.xff; Byte.x1f; Byte.xff; Byte.x3f]]))
    by (vm_compute; reflexivity).
  split; [exact Hsent|].
  destruct (C1_linear_interpolation _ _ _ _ Hsent) as (out & Hbuf & Hlen & _).
  exists out. split; [exact Hbuf | exact Hlen].
Defined.

(** The frame of [one_quarter]: the sample 0.25 becomes 8191. *)
Lemma C2_clamp_then_truncate_witness :
  sendResampledBuffer Examples.one_quarter one
  = (fst Examples.one_quarter_sent, [debug; pcmData [Byte.xff; Byte.x1f]])
  /\ exists pcm : list Z,
       [Byte.xff; Byte.x1f] = Int16Array_buffer pcm
       /\ length pcm = length (fst (resample Examples.one_quarter)).
Proof.
  assert (Hsent : sendResampledBuffer Examples.one_quarter one
                  = (fst Examples.one_quarter_sent, [debug; pcmData [Byte.xff; Byte.x1f]]))
    by (vm_compute; reflexivity).
  split; [exact Hsent|].
  destruct (C2_clamp_then_truncate _ _ _ _ Hsent) as (pcm & Hbuf & Hall).
  exists pcm. split; [exact Hbuf|].
  symmetry. exact (Forall2_length _ _ _ Hall).
Defined.

(** The constructed worklet is regular. *)
Lemma worklet_regular : regular Examples.worklet.
Proof.
  apply (constructor_regular (2 ^ 30) (of_Z 48000) zero
           {| opt_targetSampleRate := Some (of_Z 16000); opt_bufferSize := Some 4 |}
           _ [debug]).
  - vm_compute. reflexivity.
  - exists 12%Z. vm_compute. reflexivity.
Defined.

(** The constructed worklet, fed 141 samples at once: 140 are stored, a
    frame is posted and space is free again. *)
Lemma C4_overflow_keeps_prefix_witness :
  _internalBufferIndex Examples.worklet <= length (_internalBuffer Examples.worklet)
  /\ exists p1 p' msgs,
       accumulate Examples.worklet (Some Examples.long_block) = Some p1
       /\ process Examples.worklet (Some Examples.long_block) zero = Some (p', msgs, true)
       /\ _internalBufferIndex p1 = 140
       /\ (exists buffer, msgs = [debug; pcmData buffer])
       /\ _internalBufferIndex p' < 140.
Proof.
  assert (Hinv : _internalBufferIndex Examples.worklet
                 <= length (_internalBuffer Examples.worklet))
    by (vm_compute; lia).
  split; [exact Hinv|].
  destruct (C4_overflow_keeps_prefix Examples.worklet (Some Examples.long_block) zero Hinv)
    as (p1 & p' & msgs & Hacc & Hproc & _ & Hlen & _ & _ & _ & Hover).
  destruct (Hover Examples.long_block eq_refl ltac:(vm_compute; lia))
    as (_ & Hfull & Hfree).
  destruct (Hfree worklet_regular) as (_ & _ & Hframe & Hspace).
  exists p1, p', msgs. rewrite Hlen in Hspace.
  split_and!; eauto.
Defined.
End ResamplerFacts.

(** * The base64 boundary *)
Module Base64Facts.
Import TypedArray Base64 Base64Spec.

(** Induction over a list three elements at a time. *)
Lemma list_ind3 {A} (P : list A -> Prop) :
  P [] -> (forall a, P [a]) -> (forall a b, P [a; b]) ->
  (forall a b c rest, P rest -> P (a :: b :: c :: rest)) ->
  forall l, P l.
Proof.
  intros H0 H1 H2 H3.
  assert (H : forall l, P l /\ (forall a, P (a :: l)) /\ (forall a b, P (a :: b :: l))).
  { induction l as [|x l (IH0 & IH1 & IH2)]; [now auto|].
    split; [apply IH1|]. split; [intros a; apply IH2|].
    intros a b. apply H3, IH0. }
  intros l. apply H.
Qed.

Lemma sextet_cases (n : Z) : sextet n -> n ∈ (Z.of_nat <$> seq 0 64).
Proof.
  intros [H0 H1]. apply list_elem_of_fmap. exists (Z.to_nat n).
  split; [lia|]. apply elem_of_seq. lia.
Qed.

Lemma dec6_enc6 (n : Z) : sextet n -> dec6 (enc6 n) = Some n.
Proof.
  intros H. apply sextet_cases, list_elem_of_In in H.
  assert (Hall : forallb (fun k => match dec6 (enc6 k) with
                                   | Some m => (m =? k)%Z
                                   | None => false
                                   end) (Z.of_nat <$> seq 0 64) = true)
    by (vm_compute; reflexivity).
  rewrite forallb_forall in Hall. specialize (Hall n H).
  destruct (dec6 (enc6 n)); [|discriminate].
  apply Z.eqb_eq in Hall. congruence.
Qed.

Lemma enc6_plain (n : Z) :
  sextet n -> is_ascii_whitespace (enc6 n) = false /\ Ascii.eqb (enc6 n) pad = false.
Proof.
  intros H. apply sextet_cases, list_elem_of_In in H.
  assert (Hall : forallb (fun k => negb (is_ascii_whitespace (enc6 k))
                                   && negb (Ascii.eqb (enc6 k) pad))
                   (Z.of_nat <$> seq 0 64) = true)
    by (vm_compute; reflexivity).
  rewrite forallb_forall in Hall. specialize (Hall n H).
  apply andb_true_iff in Hall as [H1 H2].
  split; now apply negb_true_iff.
Qed.

Lemma sextets_range (l : list Z) : Forall octet l -> Forall sextet (sextets l).
Proof.
  unfold octet, sextet.
  induction l as [| a | a b | a b c rest IH] using list_ind3; intros H; simpl.
  - constructor.
  - inversion_clear H. repeat constructor; Z.div_mod_to_equations; lia.
  - inversion_clear H as [|? ? ? H']. inversion_clear H'.
    repeat constructor; Z.div_mod_to_equations; lia.
  - inversion_clear H as [|? ? ? H']. inversion_clear H' as [|? ? ? H''].
    inversion_clear H''.
    repeat (constructor; [Z.div_mod_to_equations; lia|]). auto.
Qed.

Lemma decode_sextets (l : list Z) : Forall octet l -> decode (sextets l) = l.
Proof.
  unfold octet.
  induction l as [| a | a b | a b c rest IH] using list_ind3; intros H; simpl.
  - reflexivity.
  - inversion_clear H. f_equal. Z.div_mod_to_equations; lia.
  - inversion_clear H as [|? ? ? H']. inversion_clear H'.
    f_equal; [|f_equal]; Z.div_mod_to_equations; lia.
  - inversion_clear H as [|? ? ? H']. inversion_clear H' as [|? ? ? H''].
    inversion_clear H''. rewrite IH by assumption.
    f_equal; [|f_equal; [|f_equal]]; Z.div_mod_to_equations; lia.
Qed.

Lemma encode_length (l : list Z) : l = [] \/ (4 <= length (encode l))%nat.
Proof.
  destruct l as [|a [|b [|c rest]]]; [left; reflexivity|right; simpl; lia ..].
Qed.

Lemma encode_length_mod4 (l : list Z) : (length (encode l) mod 4 = 0)%nat.
Proof.
  induction l as [| a | a b | a b c rest IH] using list_ind3; try reflexivity.
  change (length (encode (a :: b :: c :: rest))) with (4 + length (encode rest))%nat.
  replace (4 + length (encode rest))%nat with (length (encode rest) + 1 * 4)%nat by lia.
  rewrite Nat.Div0.mod_add. exact IH.
Qed.

Lemma strip_padding_cons (c : ascii) (l : list ascii) :
  (2 <= length l)%nat -> strip_padding (c :: l) = c :: strip_padding l.
Proof.
  destruct l as [|x [|y l]]; simpl; intros H; [lia | lia | reflexivity].
Qed.

(** The four sextets of a full group of octets are in range. *)
Lemma group_sextets (a b c : Z) :
  octet a -> octet b -> octet c ->
  sextet (a / 4) /\ sextet (a mod 4 * 16 + b / 16)
  /\ sextet (b mod 16 * 4 + c / 64) /\ sextet (c mod 64)
  /\ sextet (a mod 4 * 16) /\ sextet (b mod 16 * 4).
Proof.
  unfold octet, sextet. intros Ha Hb Hc.
  repeat split; Z.div_mod_to_equations; lia.
Qed.

(** Stripping the padding of an encoding leaves the characters of its
    sextets. *)
Lemma strip_padding_encode (l : list Z) :
  Forall octet l -> strip_padding (encode l) = enc6 <$> sextets l.
Proof.
  induction l as [| a | a b | a b c rest IH] using list_ind3; intros H.
  - reflexivity.
  - reflexivity.
  - apply Forall_cons in H as [Ha H]. apply Forall_cons in H as [Hb _].
    destruct (group_sextets a b b Ha Hb Hb) as (_ & _ & _ & _ & _ & H3).
    destruct (enc6_plain _ H3) as [_ Hp]. simpl. rewrite Hp. reflexivity.
  - apply Forall_cons in H as [Ha H]. apply Forall_cons in H as [Hb H].
    apply Forall_cons in H as [Hc Hrest].
    destruct (group_sextets a b c Ha Hb Hc) as (_ & _ & _ & H4 & _).
    destruct (enc6_plain _ H4) as [_ Hp].
    change (encode (a :: b :: c :: rest))
      with (enc6 (a / 4) :: enc6 (a mod 4 * 16 + b / 16)
              :: enc6 (b mod 16 * 4 + c / 64) :: enc6 (c mod 64) :: encode rest).
    change (sextets (a :: b :: c :: rest))
      with (a / 4 :: (a mod 4 * 16 + b / 16) :: (b mod 16 * 4 + c / 64) :: c mod 64
              :: sextets rest).
    destruct (encode_length rest) as [-> | Hlen].
    + simpl. rewrite Hp. reflexivity.
    + rewrite !strip_padding_cons by (simpl; lia).
      rewrite (IH Hrest). reflexivity.
Qed.

Lemma sextets_length_mod4 (l : list Z) : (length (sextets l) mod 4 <> 1)%nat.
Proof.
  induction l as [| a | a b | a b c rest IH] using list_ind3;
    try (simpl; discriminate).
  change (length (sextets (a :: b :: c :: rest))) with (4 + length (sextets rest))%nat.
  replace (4 + length (sextets rest))%nat with (length (sextets rest) + 1 * 4)%nat by lia.
  rewrite Nat.Div0.mod_add. exact IH.
Qed.

Lemma encode_no_whitespace (l : list Z) :
  Forall octet l ->
  filter (fun c => is_ascii_whitespace c = false) (encode l) = encode l.
Proof.
  assert (Hk : forall n (r : list ascii), sextet n ->
            filter (fun c => is_ascii_whitespace c = false) (enc6 n :: r)
            = enc6 n :: filter (fun c => is_ascii_whitespace c = false) r).
  { intros n r Hn. apply filter_cons_True. now apply enc6_plain. }
  assert (Hq : forall r : list ascii,
            filter (fun c => is_ascii_whitespace c = false) (pad :: r)
            = pad :: filter (fun c => is_ascii_whitespace c = false) r).
  { intros r. now apply filter_cons_True. }
  induction l as [| a | a b | a b c rest IH] using list_ind3; intros H.
  - reflexivity.
  - apply Forall_cons in H as [Ha _].
    destruct (group_sextets a a a Ha Ha Ha) as (H1 & _ & _ & _ & H2 & _).
    simpl encode. rewrite !Hk, !Hq by assumption. reflexivity.
  - apply Forall_cons in H as [Ha H]. apply Forall_cons in H as [Hb _].
    destruct (group_sextets a b b Ha Hb Hb) as (H1 & H2 & _ & _ & _ & H3).
    simpl encode. rewrite !Hk, !Hq by assumption. reflexivity.
  - apply Forall_cons in H as [Ha H]. apply Forall_cons in H as [Hb H].
    apply Forall_cons in H as [Hc Hrest].
    destruct (group_sextets a b c Ha Hb Hc) as (H1 & H2 & H3 & H4 & _).
    change (encode (a :: b :: c :: rest))
      with (enc6 (a / 4) :: enc6 (a mod 4 * 16 + b / 16)
              :: enc6 (b mod 16 * 4 + c / 64) :: enc6 (c mod 64) :: encode rest).
    rewrite !Hk by assumption. rewrite (IH Hrest). reflexivity.
Qed.

Lemma mapM_dec6_enc6 (l : list Z) :
  Forall sextet l -> mapM dec6 (enc6 <$> l) = Some l.
Proof.
  induction 1 as [|n l Hn _ IH]; [reflexivity|].
  cbn [fmap list_fmap mapM]. rewrite (dec6_enc6 n Hn). simpl.
  cbn [fmap list_fmap] in IH. rewrite IH. reflexivity.
Qed.

(** [atob] undoes the encoder on every list of octets. *)
Lemma atob_encode (l : list Z) :
  Forall octet l ->
  atob (string_of_list_ascii (encode l))
  = Some (string_of_list_ascii ((fun z => Ascii.ascii_of_N (Z.to_N z)) <$> l)).
Proof.
  intros H. unfold atob.
  rewrite list_ascii_of_string_of_list_ascii, (encode_no_whitespace l H).
  rewrite encode_length_mod4. cbn [Nat.eqb].
  rewrite (strip_padding_encode l H), length_fmap.
  destruct (length (sextets l) mod 4 =? 1)%nat eqn:E.
  { apply Nat.eqb_eq in E. now apply sextets_length_mod4 in E. }
  rewrite (mapM_dec6_enc6 _ (sextets_range l H)). simpl.
  rewrite (decode_sextets l H). reflexivity.
Qed.

Lemma charCode_octet (c : ascii) : octet (charCode c).
Proof.
  unfold octet, charCode. pose proof (N_ascii_bounded c). lia.
Qed.

Lemma fromCharCode_charCode (c : ascii) :
  Ascii.ascii_of_N (Z.to_N (charCode c)) = c.
Proof.
  unfold charCode. rewrite N2Z.id. apply ascii_N_embedding.
Qed.

(** [atob (btoa s) = s] for every binary string. *)
Lemma atob_btoa (binary : string) : atob (btoa binary) = Some binary.
Proof.
  unfold btoa. rewrite atob_encode.
  - f_equal. rewrite <- (string_of_list_ascii_of_string binary) at 2.
    f_equal. induction (list_ascii_of_string binary) as [|c l IH]; [reflexivity|].
    cbn [map fmap list_fmap]. rewrite fromCharCode_charCode. f_equal. exact IH.
  - induction (list_ascii_of_string binary) as [|c l IH]; constructor;
      [apply charCode_octet | exact IH].
Qed.

Lemma bytes_of_binary_of_bytes (bytes : list Byte.byte) :
  bytes_of_binary (binary_of_bytes bytes) = bytes.
Proof.
  induction bytes as [|b bytes IH]; [reflexivity|].
  cbn [binary_of_bytes bytes_of_binary]. rewrite IH. f_equal.
  destruct b; reflexivity.
Qed.

Example btoa_Man : btoa "Man" = "TWFu" /\ btoa "Ma" = "TWE=" /\ atob "TQ==" = Some "M".
Proof. vm_compute. auto. Qed.

(** C10: decoding the base64 text of a byte buffer succeeds and restores
    the buffer exactly. *)
Theorem C10_base64_roundtrip (buffer : ArrayBuffer) :
  base64ToArrayBuffer (arrayBufferToBase64 buffer) = Some buffer.
Proof.
  unfold base64ToArrayBuffer, arrayBufferToBase64.
  rewrite atob_btoa. simpl. rewrite bytes_of_binary_of_bytes. reflexivity.
Qed.
End Base64Facts.

(** * Close status and the gate on sending *)
Module SessionFacts.
Import TypedArray App AppSpec.
Local Open Scope nat_scope.

(** C7, as stated, fails: a clean close with code 1000 while recording
    surfaces the plain status [Disconnected.], not an error. *)
Lemma C7_clean_close_counterexample :
  ~ (forall (s : State) (wasClean : bool),
       (isRecording s = false ->
        recordingStatus (onclose 1000 wasClean s) = ("Call ended.", false))
       /\ (isRecording s = true ->
           snd (recordingStatus (onclose 1000 wasClean s)) = true)).
Proof.
  intros H.
  destruct (H (set_isRecording true initial) true) as [_ Herr].
  specialize (Herr eq_refl). vm_compute in Herr. discriminate.
Qed.

(** C7, amended: after a close event with code 1000 the status line reads
    [Call ended.] (no error) when recording is not active; when recording
    is still active it is the error [Disconnected unexpectedly (Code:
    1000)] if the close was not clean, and the plain [Disconnected.] if it
    was clean. *)
Theorem C7_close_1000_status (s : State) (wasClean : bool) :
  recordingStatus (onclose 1000 wasClean s)
  = if isRecording s then
      if wasClean then ("Disconnected.", false)
      else ("Disconnected unexpectedly (Code: 1000)", true)
    else ("Call ended.", false).
Proof.
  destruct s as [? ? sess rec ? ? ? ? ? timer ? ? ? ? ? ? ? ?].
  destruct wasClean, rec, timer, sess; reflexivity.
Qed.

(** C6: the audio path sends before the setup is acknowledged.  After the
    events of [stop_during_prompt] the second session exists, recording is
    on, the setup of that session has not been acknowledged, and the frame
    the worklet posted has been transmitted on it. *)
Theorem C6_audio_sent_before_setup :
  let s := run stop_during_prompt initial in
  session s = Some 2 /\ isRecording s = true /\ isSetupComplete s = false
  /\ transmitted s
     = [(2, {| data := "/x8="; mimeType := "audio/pcm;rate=16000" |})].
Proof. vm_compute. auto. Qed.

(** The sibling path does check the setup flag: an image is transmitted
    only with a session, while recording, after the setup acknowledgement. *)
Lemma sendPeriodicImageData_gated (s : State) :
  transmitted (sendPeriodicImageData s) <> transmitted s ->
  is_Some (session s) /\ isRecording s = true /\ isSetupComplete s = true
  /\ truthy (currentImageBase64 s) = true.
Proof.
  unfold sendPeriodicImageData.
  destruct (currentImageBase64 s) as [image|], (currentImageMimeType s) as [mime|],
    (session s) as [sess|]; try congruence.
  destruct (truthy (Some image)) eqn:E1, (truthy (Some mime)),
    (isRecording s), (isSetupComplete s); simpl; try congruence.
  eauto.
Qed.

(** The audio handler checks the session and the recording flag only. *)
Lemma port_onmessage_gate (m : AudioProcessor.message) (s : State) :
  transmitted (port_onmessage m s) <> transmitted s ->
  is_Some (session s) /\ isRecording s = true.
Proof.
  unfold port_onmessage. destruct m as [|buf]; [congruence|].
  destruct (session s) as [sess|]; [|congruence].
  destruct (isRecording s); [eauto|congruence].
Qed.
End SessionFacts.

(** * The periodic image timer *)
Module TimerFacts.
Import TypedArray App AppSpec.
Local Open Scope nat_scope.

Ltac open_state s :=
  destruct s as [img mime sess rec ctx node queue busy setup timer status
                   ivs next tx closes sounding log pend stray].

Lemma timer_ok_flags (s s' : State) : flags s' = flags s -> timer_ok s -> timer_ok s'.
Proof.
  unfold flags, timer_ok. intros [= -> -> -> -> -> ->]. auto.
Qed.

Lemma flags_playNext_from (queue : list ArrayBuffer) (s : State) :
  flags (playNext_from queue s) = flags s.
Proof.
  revert s. induction queue as [|a rest IH]; intros s; simpl.
  - repeat case_match; reflexivity.
  - repeat case_match; try rewrite IH; reflexivity.
Qed.

Lemma flags_enqueueAudio (a : ArrayBuffer) (s : State) :
  flags (enqueueAudio a s) = flags s.
Proof.
  unfold enqueueAudio, playNextInQueue. case_match; [|reflexivity].
  now rewrite flags_playNext_from.
Qed.

Lemma flags_on_parts (ps : list Part) (s : State) : flags (on_parts ps s) = flags s.
Proof.
  unfold on_parts. revert s. induction ps as [|part ps IH]; intros s; simpl; [reflexivity|].
  rewrite IH. unfold on_part. repeat case_match; try reflexivity.
  apply flags_enqueueAudio.
Qed.

Lemma filter_ne_singleton (id : positive) : filter (fun j => j <> id) [id] = [].
Proof. rewrite filter_cons_False; [reflexivity|]. intros H. now apply H. Qed.

Lemma timer_ok_stop (s : State) :
  timer_ok s ->
  timer_ok (stopPeriodicImageSending s)
  /\ intervals (stopPeriodicImageSending s) = []
  /\ imageSendIntervalId (stopPeriodicImageSending s) = None.
Proof.
  unfold timer_ok, stopPeriodicImageSending, clearInterval. open_state s. simpl.
  destruct timer as [id|]; simpl.
  - intros [(-> & H) Hc]. rewrite filter_ne_singleton. auto.
  - intros [-> Hc]. auto.
Qed.

(** Case analysis on the fields of an opened state that the recording and
    timer logic branches on. *)
Ltac split_state :=
  repeat match goal with
    | H : _ /\ _ |- _ => destruct H
    | H : is_Some (Some _) |- _ => clear H
    | H : is_Some None |- _ => destruct H; discriminate
    | x : option _ |- _ => destruct x
    | x : bool |- _ => destruct x
    | x : AudioContextState |- _ => destruct x
    | x : AudioPlatform |- _ => destruct x
    end.

Ltac finish :=
  simpl in *; try rewrite !filter_ne_singleton in *;
  repeat match goal with
    | H : _ /\ _ |- _ => destruct H
    | H : is_Some None |- _ => destruct H
    end;
  try discriminate;
  repeat (case_match; simpl in *);
  repeat match goal with
    | |- _ /\ _ => split
    | |- is_Some (Some _) => eexists; reflexivity
    | |- _ -> _ => intro
    end;
  simplify_eq; auto.

Lemma timer_ok_cleanup (b : bool) (s : State) :
  timer_ok s ->
  timer_ok (cleanupAfterErrorOrClose b s)
  /\ intervals (cleanupAfterErrorOrClose b s) = [].
Proof.
  unfold timer_ok, cleanupAfterErrorOrClose, stopPeriodicImageSending, clearInterval,
    cleanupAudioNodes, clearAudioQueueAndStopPlayback, updateStatus.
  open_state s. simpl. intros [Ht Hc].
  destruct rec, timer as [id|], sess; simpl in *;
    try (destruct Ht as (-> & Ht)); try subst ivs; finish.
Qed.

Lemma timer_ok_stopRecording (s : State) :
  timer_ok s -> timer_ok (stopRecording s) /\ intervals (stopRecording s) = [].
Proof.
  unfold timer_ok, stopRecording, stopPeriodicImageSending, clearInterval,
    cleanupAudioNodes, session_close, updateStatus.
  open_state s. simpl. intros [Ht Hc].
  destruct rec, timer as [id|], sess; simpl in *;
    try (destruct Ht as (-> & Ht)); try subst ivs; finish.
Qed.

Lemma flags_sendPeriodicImageData (s : State) :
  flags (sendPeriodicImageData s) = flags s.
Proof. unfold sendPeriodicImageData. repeat case_match; reflexivity. Qed.

Lemma timer_ok_start (s : State) :
  timer_ok s -> timer_ok (startPeriodicImageSending s).
Proof.
  unfold startPeriodicImageSending. intros Hok.
  set (s1 := match imageSendIntervalId s with
             | Some id => set_imageSendIntervalId None (clearInterval id s)
             | None => s
             end).
  assert (H1 : timer_ok s1 /\ intervals s1 = [] /\ imageSendIntervalId s1 = None).
  { apply (timer_ok_stop s Hok). }
  destruct H1 as ((_ & Hc) & Hi & Hn).
  destruct (negb (bool_decide (is_Some (session s1))) || negb (isSetupComplete s1)
            || negb (isRecording s1)) eqn:E.
  - unfold timer_ok. rewrite Hn. auto.
  - apply orb_false_iff in E as [E E3]. apply orb_false_iff in E as [E1 E2].
    apply negb_false_iff in E1, E2, E3. apply bool_decide_eq_true in E1.
    assert (Hnew : timer_ok (set_imageSendIntervalId (Some (nextInterval s1))
                               (setInterval s1).2)).
    { unfold timer_ok, setInterval. simpl. rewrite Hi. auto. }
    unfold setInterval in *. simpl in *.
    case_match; [|exact Hnew].
    eapply timer_ok_flags; [apply flags_sendPeriodicImageData | exact Hnew].
Qed.

Lemma flags_startRecording_connected (s : State) :
  flags (startRecording_connected true s).1 = flags s.
Proof.
  unfold startRecording_connected. simpl.
  destruct (isSetupComplete s), (isRecording s); reflexivity.
Qed.

Lemma timer_ok_set_session (h : Session) (s : State) :
  timer_ok s -> timer_ok (set_session (Some h) s).
Proof.
  unfold timer_ok. open_state s. simpl. intros [Ht Hc]. split; [|exact Hc].
  destruct timer; [|exact Ht]. destruct Ht as (? & ? & ? & ?). eauto.
Qed.

(** Once [initializeAudioSystem] answers [true] the context exists. *)
Lemma timer_ok_initialize (pf : AudioPlatform) (s : State) :
  timer_ok s ->
  timer_ok (initializeAudioSystem pf s).1
  /\ ((initializeAudioSystem pf s).2 = true ->
      is_Some (audioContext (initializeAudioSystem pf s).1)).
Proof.
  unfold timer_ok, initializeAudioSystem, updateStatus. open_state s. simpl.
  intros [Ht Hc].
  destruct ctx as [[| |]|], pf as [[|] [|] [|] [|]]; simpl; split_and!;
    try exact Ht; try exact Hc; intros; try discriminate; eauto.
Qed.

Lemma timer_ok_startRecording (s : State) :
  timer_ok s -> timer_ok (startRecording s).1.
Proof.
  intros Hok. unfold startRecording, startRecording_begin.
  destruct (audioContext s) as [c|] eqn:Ec.
  - destruct (session s) as [sess|] eqn:Es.
    + eapply timer_ok_flags; [apply flags_startRecording_connected | exact Hok].
    + revert Hok Ec Es. unfold timer_ok, connectToGemini, updateStatus.
      open_state s. simpl. intros [Ht Hc] -> ->. simpl.
      destruct timer; [destruct Ht as (_ & _ & [? ?] & _); discriminate|].
      eauto.
  - revert Hok Ec. unfold timer_ok, updateStatus. open_state s. simpl.
    intros [Ht Hc] ->. split; [|discriminate].
    destruct timer; [|exact Ht].
    destruct Ht as (_ & Hr & _). destruct (Hc Hr); discriminate.
Qed.

Lemma timer_ok_toggleRecording (pf : AudioPlatform) (s : State) :
  timer_ok s -> timer_ok (toggleRecording pf s).1.
Proof.
  intros Hok. unfold toggleRecording.
  destruct (timer_ok_initialize pf s Hok) as [Hok1 Hctx].
  destruct (initializeAudioSystem pf s) as [s1 ready]. simpl in *.
  destruct ready; simpl.
  - destruct (isRecording s1) eqn:Er; simpl.
    + apply timer_ok_stopRecording, Hok1.
    + apply timer_ok_startRecording.
      revert Hok1 Er Hctx. unfold timer_ok. open_state s1. simpl.
      intros [Ht Hc] -> Hctx. split; [|auto].
      destruct timer; [|exact Ht]. destruct Ht as (_ & ? & _). discriminate.
  - eapply timer_ok_flags; [|exact Hok1]. reflexivity.
Qed.

Lemma timer_ok_startRecording_connected (b : bool) (s : State) :
  timer_ok s -> (b = false -> intervals s = []) ->
  timer_ok (startRecording_connected b s).1.
Proof.
  destruct b; intros Hok Hoff.
  - eapply timer_ok_flags; [apply flags_startRecording_connected | exact Hok].
  - specialize (Hoff eq_refl). revert Hok Hoff.
    unfold timer_ok, startRecording_connected, updateStatus. open_state s. simpl.
    intros [Ht Hc] ->. split; [|discriminate].
    destruct timer; [destruct Ht; discriminate | reflexivity].
Qed.

Lemma timer_ok_on_setupComplete (s : State) :
  timer_ok s -> timer_ok (on_setupComplete s).1.
Proof.
  intros Hok. unfold on_setupComplete.
  set (s' := updateStatus READY false (set_isSetupComplete true s)).
  assert (Hok' : timer_ok s').
  { revert Hok. unfold timer_ok. open_state s. simpl. intros [Ht Hc].
    split; [|exact Hc]. destruct timer; [|exact Ht].
    destruct Ht as (? & ? & ? & ?). auto. }
  destruct (isRecording s') eqn:Er.
  - unfold startRecording_begin.
    destruct (audioContext s') as [c|] eqn:Ec.
    + destruct (session s') as [h|] eqn:Eh; [exact Hok'|].
      revert Hok' Ec Eh. unfold timer_ok, connectToGemini, updateStatus.
      generalize s'. intros t. open_state t. simpl. intros [Ht Hc] -> ->. simpl.
      destruct timer; [destruct Ht as (_ & _ & [? ?] & _); discriminate|]. eauto.
    + destruct Hok' as [_ Hc]. destruct (Hc Er) as [? Hx]. congruence.
  - case_match; [|exact Hok']. simpl. now apply timer_ok_start.
Qed.

Lemma flags_on_turnComplete (s : State) : flags (on_turnComplete s) = flags s.
Proof. unfold on_turnComplete. case_match; reflexivity. Qed.

Lemma timer_ok_onmessage (response : LiveServerMessage) (s : State) :
  timer_ok s -> timer_ok (onmessage response s).1.
Proof.
  intros Hok. unfold onmessage.
  assert (H1 : timer_ok (if setupComplete response then on_setupComplete s
                         else (s, None)).1).
  { destruct (setupComplete response); [now apply timer_ok_on_setupComplete | exact Hok]. }
  destruct (if setupComplete response then on_setupComplete s else (s, None))
    as [s1 resume]. simpl in H1.
  set (s2 := match parts response with
             | Some ps => on_parts ps s1
             | None => s1
             end).
  assert (H2 : timer_ok s2).
  { unfold s2. destruct (parts response) as [ps|]; [|exact H1].
    eapply timer_ok_flags; [apply flags_on_parts | exact H1]. }
  set (s3 := if turnComplete response then on_turnComplete s2 else s2).
  assert (H3 : timer_ok s3).
  { unfold s3. destruct (turnComplete response); [|exact H2].
    eapply timer_ok_flags; [apply flags_on_turnComplete | exact H2]. }
  destruct resume as [[|]|]; simpl; auto.
  apply timer_ok_startRecording_connected; [exact H3 | discriminate].
Qed.

Lemma timer_ok_playNext_resume (pf : AudioPlatform) (s : State) :
  timer_ok s -> timer_ok (playNext_resume pf s).
Proof.
  intros Hok. unfold playNext_resume.
  destruct (pendingPlayback s) as [|a pending] eqn:Ep; [exact Hok|].
  assert (Hok0 : timer_ok (set_pendingPlayback pending s)).
  { eapply timer_ok_flags; [|exact Hok]. reflexivity. }
  destruct (timer_ok_initialize pf _ Hok0) as [Hok1 _].
  destruct (initializeAudioSystem pf (set_pendingPlayback pending s)) as [s1 ready].
  simpl in Hok1.
  case_match.
  - eapply timer_ok_flags; [|exact Hok1]. reflexivity.
  - case_match.
    + eapply timer_ok_flags; [|exact Hok1]. reflexivity.
    + eapply timer_ok_flags; [|exact Hok1].
      unfold playNextInQueue. now rewrite flags_playNext_from.
Qed.

Lemma timer_ok_statechange (state : AudioContextState) (s : State) :
  timer_ok s -> timer_ok (audioContext_statechange state s).
Proof.
  unfold timer_ok, audioContext_statechange. open_state s. simpl.
  intros [Ht Hc]. destruct ctx; simpl; eauto.
Qed.

(** Every event other than a microphone failure keeps the timer
    consistent. *)
Lemma timer_ok_handle (e : event) (s : State) :
  is_microphone_failed e = false -> timer_ok s -> timer_ok (handle e s).
Proof.
  intros He Hok. destruct e; try discriminate; cbn [handle];
    unfold connect_resolved, connect_rejected, getUserMedia_resolved, onerror, onclose,
      removeImage, reader_onload, reader_onerror, onopen.
  - now apply timer_ok_toggleRecording.
  - eapply timer_ok_flags; [|exact Hok]. reflexivity.
  - eapply timer_ok_flags; [|exact Hok].
    unfold handleImageUpload. repeat case_match; reflexivity.
  - eapply timer_ok_flags; [|exact Hok]. reflexivity.
  - eapply timer_ok_flags; [|exact Hok]. reflexivity.
  - apply timer_ok_startRecording_connected; [|discriminate].
    now apply timer_ok_set_session.
  - apply timer_ok_startRecording_connected.
    + apply timer_ok_cleanup. eapply timer_ok_flags; [|exact Hok]. reflexivity.
    + intros _. apply timer_ok_cleanup. eapply timer_ok_flags; [|exact Hok]. reflexivity.
  - apply timer_ok_start. eapply timer_ok_flags; [|exact Hok].
    cbv zeta. case_match; reflexivity.
  - eapply timer_ok_flags; [|exact Hok]. reflexivity.
  - now apply timer_ok_onmessage.
  - apply timer_ok_cleanup. eapply timer_ok_flags; [|exact Hok]. reflexivity.
  - apply timer_ok_cleanup. eapply timer_ok_flags; [|exact Hok].
    unfold updateStatus. repeat case_match; reflexivity.
  - eapply timer_ok_flags; [|exact Hok].
    unfold port_onmessage, sendRealtimeInput. repeat case_match; reflexivity.
  - eapply timer_ok_flags; [|exact Hok].
    unfold port_onmessage, sendRealtimeInput. repeat case_match; reflexivity.
  - eapply timer_ok_flags; [|exact Hok].
    unfold interval_tick. case_match; [apply flags_sendPeriodicImageData | reflexivity].
  - eapply timer_ok_flags; [|exact Hok].
    unfold source_onended, playNextInQueue. case_match; [|reflexivity].
    now rewrite flags_playNext_from.
  - now apply timer_ok_playNext_resume.
  - now apply timer_ok_statechange.
Qed.

Lemma timer_ok_initial : timer_ok initial.
Proof. split; [reflexivity | discriminate]. Qed.

Lemma timer_ok_run (events : list event) (s : State) :
  forallb (fun e => negb (is_microphone_failed e)) events = true ->
  timer_ok s -> timer_ok (run events s).
Proof.
  unfold run. revert s. induction events as [|e events IH]; intros s He Hok; [exact Hok|].
  simpl in *. apply andb_true_iff in He as [He Hes].
  apply IH; [exact Hes|]. apply timer_ok_handle; [|exact Hok].
  now apply negb_true_iff.
Qed.

(** The [catch] of [startRecording] clears the recording flag without
    stopping the timer: after [two_prompts] the timer is still active
    although recording is off.  This is why [timer_ok_run] leaves failed
    microphone requests out. *)
Lemma timer_survives_microphone_failure :
  let s := run two_prompts initial in
  intervals s = [1%positive] /\ isRecording s = false.
Proof. vm_compute. auto. Qed.
End TimerFacts.

(** * The playback queue *)
Module PlaybackFacts.
Import TypedArray App AppSpec PlaybackSpec.
Local Open Scope nat_scope.

Ltac open_state s :=
  destruct s as [img mime sess rec ctx node queue busy setup timer status
                   ivs next tx closes sounding log pend stray].

Lemma playback_ok_frame (enq : list ArrayBuffer) (s s' : State) :
  playback s' = playback s -> playback_ok enq s -> playback_ok enq s'.
Proof.
  unfold playback, playback_ok. intros [= -> -> -> -> ->]. auto.
Qed.

Lemma Int16Array_of_buffer_even (a : ArrayBuffer) :
  is_Some (Int16Array_of_buffer a) <-> Nat.even (length a) = true.
Proof.
  assert (H : forall a : ArrayBuffer,
             (is_Some (Int16Array_of_buffer a) <-> Nat.even (length a) = true)
             /\ forall b, is_Some (Int16Array_of_buffer (b :: a))
                          <-> Nat.even (length (b :: a)) = true).
  { clear a. induction a as [|x a [IH0 IH1]].
    - split; [split; eauto|]. intros b. simpl. split; [intros [? ?]|]; discriminate.
    - split; [apply IH1|]. intros b.
      change (Int16Array_of_buffer (b :: x :: a))
        with (vs ← Int16Array_of_buffer a;
              Some ((if (32768 <=? Z_of_byte b + 256 * Z_of_byte x)%Z
                     then (Z_of_byte b + 256 * Z_of_byte x - 65536)%Z
                     else (Z_of_byte b + 256 * Z_of_byte x)%Z) :: vs)).
      change (Nat.even (length (b :: x :: a))) with (Nat.even (length a)).
      rewrite <- IH0. destruct (Int16Array_of_buffer a); simpl; split; eauto;
        intros [? ?]; discriminate. }
  apply H.
Qed.

Lemma playable_short (a : ArrayBuffer) : length a < 2 -> playable a = false.
Proof.
  intros H. unfold playable. replace (2 <=? length a) with false; [reflexivity|].
  symmetry. apply Nat.leb_gt. lia.
Qed.

Lemma playable_odd (a : ArrayBuffer) : Int16Array_of_buffer a = None -> playable a = false.
Proof.
  intros H. unfold playable. destruct (Nat.even (length a)) eqn:E.
  - apply Int16Array_of_buffer_even in E as [? E]. congruence.
  - apply andb_false_r.
Qed.

Lemma playable_whole (a : ArrayBuffer) (vs : list Z) :
  2 <= length a -> Int16Array_of_buffer a = Some vs -> playable a = true.
Proof.
  intros H1 H2. unfold playable. apply andb_true_iff. split.
  - now apply Nat.leb_le.
  - apply Int16Array_of_buffer_even. eauto.
Qed.

(** [playNextInQueue] on a state where nothing sounds and nothing waits. *)
Lemma playNext_from_ok (queue : list ArrayBuffer) :
  forall s : State,
    playing s = [] -> pendingPlayback s = [] -> audioQueue s = queue ->
    let s' := playNext_from queue s in
    length (playing s') + length (pendingPlayback s') <= 1
    /\ (length (playing s') + length (pendingPlayback s') = 1 -> isPlayingAudio s' = true)
    /\ Forall (fun a => 2 <= length a) (pendingPlayback s')
    /\ (origin <$> started s') ++ filter playable (pendingPlayback s' ++ audioQueue s')
       = (origin <$> started s) ++ filter playable queue.
Proof.
  induction queue as [|a rest IH]; intros s Hp Hw Hq; cbn [playNext_from].
  - cbv zeta. repeat case_match; simpl; rewrite Hp, Hw, Hq; simpl;
      split_and!; auto; lia.
  - cbv zeta.
    destruct (length a <? 2) eqn:Eshort.
    + apply Nat.ltb_lt in Eshort.
      rewrite filter_cons_False by (rewrite playable_short; auto).
      exact (IH (set_isPlayingAudio false
                   (set_audioQueue rest (set_isPlayingAudio true s))) Hp Hw eq_refl).
    + apply Nat.ltb_ge in Eshort.
      destruct (negb (context_running (set_audioQueue rest (set_isPlayingAudio true s))))
        eqn:Erun.
      * simpl. rewrite Hp, Hw. simpl. split_and!; auto.
      * destruct (Int16Array_of_buffer a) as [vs|] eqn:Edec.
        -- unfold start_source. simpl. rewrite Hp, Hw. simpl.
           rewrite fmap_app. simpl.
           rewrite (filter_cons_True playable a rest)
             by (rewrite (playable_whole a vs); auto).
           rewrite <- app_assoc. simpl. split_and!; auto.
        -- rewrite filter_cons_False by (rewrite playable_odd; auto).
           exact (IH (play_caught (set_audioQueue rest (set_isPlayingAudio true s)))
                    Hp Hw eq_refl).
Qed.

(** When the flag is clear nothing sounds and nothing waits. *)
Lemma playback_ok_idle (enq : list ArrayBuffer) (s : State) :
  playback_ok enq s -> isPlayingAudio s = false ->
  playing s = [] /\ pendingPlayback s = [].
Proof.
  intros (Hle & Hflag & _) Hidle.
  destruct (playing s) as [|x l], (pendingPlayback s) as [|y m]; simpl in *; auto;
    exfalso; assert (Hone : isPlayingAudio s = true) by (apply Hflag; lia); congruence.
Qed.

Lemma playback_ok_enqueueAudio (enq : list ArrayBuffer) (a : ArrayBuffer) (s : State) :
  playback_ok enq s -> playback_ok (enq ++ [a]) (enqueueAudio a s).
Proof.
  intros Hok. unfold enqueueAudio. cbv zeta.
  change (isPlayingAudio (set_audioQueue (audioQueue s ++ [a]) s)) with (isPlayingAudio s).
  destruct (isPlayingAudio s) eqn:Eflag; simpl negb; cbv iota.
  - destruct Hok as (Hle & Hflag & Hpend & Heq).
    unfold playback_ok. simpl. split_and!; auto.
    rewrite app_assoc, !filter_app, app_assoc, <- (filter_app _ (pendingPlayback s)), Heq.
    reflexivity.
  - destruct (playback_ok_idle enq s Hok Eflag) as [Hp Hw].
    destruct Hok as (_ & _ & _ & Heq). rewrite Hw in Heq. simpl in Heq.
    unfold playNextInQueue.
    destruct (playNext_from_ok (audioQueue s ++ [a])
                (set_audioQueue (audioQueue s ++ [a]) s) Hp Hw eq_refl)
      as (H1 & H2 & H3 & H4).
    unfold playback_ok. split_and!; auto.
    etransitivity; [exact H4|]. simpl.
    rewrite !filter_app, app_assoc, Heq. reflexivity.
Qed.

Lemma playback_ok_source_onended (enq : list ArrayBuffer) (i : nat) (s : State) :
  playback_ok enq s -> playback_ok enq (source_onended i s).
Proof.
  intros Hok. unfold source_onended.
  destruct (playing s !! i) as [src|] eqn:Ei; [|exact Hok].
  destruct Hok as (Hle & Hflag & Hpend & Heq).
  destruct (playing s) as [|x [|y l]] eqn:Hp; simpl in Hle; try lia.
  { discriminate. }
  destruct (pendingPlayback s) as [|w m] eqn:Hw; simpl in Hle; try lia.
  destruct i as [|i]; [|discriminate]. simpl delete.
  unfold playNextInQueue.
  destruct (playNext_from_ok (audioQueue s) (set_playing [] s) eq_refl Hw eq_refl)
    as (H1 & H2 & H3 & H4).
  unfold playback_ok. split_and!; auto.
  etransitivity; [exact H4|]. exact Heq.
Qed.

Lemma playback_initialize (pf : AudioPlatform) (s : State) :
  playback (initializeAudioSystem pf s).1 = playback s.
Proof.
  unfold initializeAudioSystem. repeat case_match; reflexivity.
Qed.

Lemma playback_ok_playNext_resume (enq : list ArrayBuffer) (pf : AudioPlatform)
    (s : State) :
  playback_ok enq s -> playback_ok enq (playNext_resume pf s).
Proof.
  intros Hok. unfold playNext_resume.
  destruct (pendingPlayback s) as [|a pending] eqn:Hw; [exact Hok|].
  destruct Hok as (Hle & Hflag & Hpend & Heq). rewrite Hw in *.
  destruct (playing s) as [|x l] eqn:Hp; simpl in Hle; [|lia].
  destruct pending as [|b pending]; simpl in Hle; [|lia].
  specialize (Hflag eq_refl). apply Forall_cons in Hpend as [Ha _].
  pose proof (playback_initialize pf (set_pendingPlayback [] s)) as Hinit.
  destruct (initializeAudioSystem pf (set_pendingPlayback [] s)) as [s1 ready].
  unfold playback in Hinit. simpl in Hinit.
  injection Hinit as Hq1 Hf1 Hp1 Hs1 Hw1. rewrite Hp in Hp1.
  case_match.
  - unfold playback_ok. simpl. rewrite Hp1, Hw1, Hs1, Hq1. simpl.
    split_and!; auto; lia.
  - destruct (Int16Array_of_buffer a) as [vs|] eqn:Edec.
    + unfold playback_ok, start_source. simpl. rewrite Hp1, Hw1, Hs1, Hq1, Hf1. simpl.
      split_and!; auto.
      rewrite fmap_app, <- app_assoc. simpl. rewrite <- Heq. simpl.
      rewrite (filter_cons_True playable a (audioQueue s))
        by (rewrite (playable_whole a vs); auto).
      reflexivity.
    + unfold playNextInQueue.
      destruct (playNext_from_ok (audioQueue (play_caught s1)) (play_caught s1)
                  Hp1 Hw1 eq_refl) as (H1 & H2 & H3 & H4).
      unfold playback_ok. split_and!; auto.
      etransitivity; [exact H4|]. simpl. rewrite Hs1, Hq1, <- Heq. simpl.
      rewrite (filter_cons_False playable a (audioQueue s))
        by (rewrite playable_odd; auto).
      reflexivity.
Qed.

Lemma on_part_chunk (part : Part) (s : State) :
  on_part part s = match inbound_chunk part with
                   | Some a => enqueueAudio a s
                   | None => s
                   end.
Proof.
  unfold on_part, inbound_chunk.
  destruct (truthy (inlineData part)); [|reflexivity].
  destruct (inlineData part) as [data_|]; [|reflexivity]. simpl.
  destruct (Base64.base64ToArrayBuffer data_); reflexivity.
Qed.

Lemma playback_ok_on_parts (ps : list Part) :
  forall (enq : list ArrayBuffer) (s : State),
    playback_ok enq s -> playback_ok (enq ++ omap inbound_chunk ps) (on_parts ps s).
Proof.
  unfold on_parts.
  induction ps as [|part ps IH]; intros enq s Hok.
  - simpl. now rewrite app_nil_r.
  - cbn [foldl]. rewrite on_part_chunk.
    change (omap inbound_chunk (part :: ps))
      with (match inbound_chunk part with
            | Some a => a :: omap inbound_chunk ps
            | None => omap inbound_chunk ps
            end).
    destruct (inbound_chunk part) as [a|].
    + rewrite (cons_middle a enq), app_assoc.
      apply IH. now apply playback_ok_enqueueAudio.
    + now apply IH.
Qed.

(** The recording, timer and image logic leaves the playback fields
    alone. *)
Ltac frame :=
  intros;
  cbv beta iota delta
    [toggleRecording initializeAudioSystem stopRecording startRecording
     startRecording_begin startRecording_connected connectToGemini connect_resolved
     getUserMedia_resolved getUserMedia_rejected startPeriodicImageSending
     stopPeriodicImageSending sendPeriodicImageData sendRealtimeInput setInterval
     clearInterval cleanupAudioNodes session_close updateStatus removeImage
     handleImageUpload reader_onload reader_onerror onopen port_onmessage
     interval_tick audioContext_statechange on_setupComplete on_turnComplete];
  repeat (first [progress cbv zeta | case_match; simplify_eq]); reflexivity.

Lemma playback_toggleRecording pf s : playback (toggleRecording pf s).1 = playback s.
Proof. frame. Qed.
Lemma playback_connect_resolved h s : playback (connect_resolved h s).1 = playback s.
Proof. frame. Qed.
Lemma playback_getUserMedia_resolved s : playback (getUserMedia_resolved s) = playback s.
Proof. frame. Qed.
Lemma playback_getUserMedia_rejected m s :
  playback (getUserMedia_rejected m s) = playback s.
Proof. frame. Qed.
Lemma playback_handleImageUpload f s : playback (handleImageUpload f s) = playback s.
Proof. frame. Qed.
Lemma playback_port_onmessage m s : playback (port_onmessage m s) = playback s.
Proof. frame. Qed.
Lemma playback_interval_tick id s : playback (interval_tick id s) = playback s.
Proof. frame. Qed.
Lemma playback_statechange st s : playback (audioContext_statechange st s) = playback s.
Proof. frame. Qed.
Lemma playback_on_setupComplete s : playback (on_setupComplete s).1 = playback s.
Proof. frame. Qed.
Lemma playback_on_turnComplete s : playback (on_turnComplete s) = playback s.
Proof. frame. Qed.
Lemma playback_startRecording_connected b s :
  playback (startRecording_connected b s).1 = playback s.
Proof. frame. Qed.

Lemma playback_ok_onmessage (enq : list ArrayBuffer) (response : LiveServerMessage)
    (s : State) :
  playback_ok enq s ->
  playback_ok (enq ++ inbound_chunks response) (onmessage response s).1.
Proof.
  intros Hok. unfold onmessage, inbound_chunks.
  assert (H1 : playback_ok enq
                 (if setupComplete response then on_setupComplete s else (s, None)).1).
  { destruct (setupComplete response); [|exact Hok].
    eapply playback_ok_frame; [apply playback_on_setupComplete | exact Hok]. }
  destruct (if setupComplete response then on_setupComplete s else (s, None))
    as [s1 resume]. simpl in H1.
  assert (H2 : playback_ok
                 (enq ++ match parts response with
                         | Some ps => omap inbound_chunk ps
                         | None => []
                         end)
                 match parts response with
                 | Some ps => on_parts ps s1
                 | None => s1
                 end).
  { destruct (parts response) as [ps|]; [now apply playback_ok_on_parts|].
    now rewrite app_nil_r. }
  revert H2. generalize (match parts response with
                         | Some ps => on_parts ps s1
                         | None => s1
                         end). intros s2 H2.
  assert (H3 : playback_ok
                 (enq ++ match parts response with
                         | Some ps => omap inbound_chunk ps
                         | None => []
                         end)
                 (if turnComplete response then on_turnComplete s2 else s2)).
  { destruct (turnComplete response); [|exact H2].
    eapply playback_ok_frame; [apply playback_on_turnComplete | exact H2]. }
  destruct resume as [[|]|]; simpl; auto.
  eapply playback_ok_frame; [apply playback_startRecording_connected | exact H3].
Qed.

(** Every event other than a teardown keeps the playback queue in order. *)
Lemma playback_ok_handle (enq : list ArrayBuffer) (e : event) (s : State) :
  is_teardown e = false ->
  playback_ok enq s -> playback_ok (enq ++ enqueued [e]) (handle e s).
Proof.
  intros He Hok. unfold enqueued. cbn [flat_map]. rewrite app_nil_r.
  destruct e; try discriminate; cbn [handle]; try rewrite app_nil_r.
  - eapply playback_ok_frame; [apply playback_toggleRecording | exact Hok].
  - eapply playback_ok_frame; [reflexivity | exact Hok].
  - eapply playback_ok_frame; [apply playback_handleImageUpload | exact Hok].
  - eapply playback_ok_frame; [reflexivity | exact Hok].
  - eapply playback_ok_frame; [reflexivity | exact Hok].
  - eapply playback_ok_frame; [apply playback_connect_resolved | exact Hok].
  - eapply playback_ok_frame; [apply playback_getUserMedia_resolved | exact Hok].
  - eapply playback_ok_frame; [apply playback_getUserMedia_rejected | exact Hok].
  - eapply playback_ok_frame; [reflexivity | exact Hok].
  - now apply playback_ok_onmessage.
  - eapply playback_ok_frame; [|exact Hok].
    case_match; [apply playback_port_onmessage | reflexivity].
  - eapply playback_ok_frame; [|exact Hok].
    case_match; [apply playback_port_onmessage | reflexivity].
  - eapply playback_ok_frame; [apply playback_interval_tick | exact Hok].
  - now apply playback_ok_source_onended.
  - now apply playback_ok_playNext_resume.
  - eapply playback_ok_frame; [apply playback_statechange | exact Hok].
Qed.

Lemma playback_ok_initial : playback_ok [] initial.
Proof. unfold playback_ok. simpl. split_and!; auto; lia. Qed.

Lemma enqueued_app (l1 l2 : list event) : enqueued (l1 ++ l2) = enqueued l1 ++ enqueued l2.
Proof. unfold enqueued. apply flat_map_app. Qed.

Lemma playback_ok_run (events : list event) :
  forall (enq : list ArrayBuffer) (s : State),
    forallb (fun e => negb (is_teardown e)) events = true ->
    playback_ok enq s -> playback_ok (enq ++ enqueued events) (run events s).
Proof.
  unfold run. induction events as [|e events IH]; intros enq s He Hok.
  - simpl. now rewrite app_nil_r.
  - simpl in He. apply andb_true_iff in He as [He Hes].
    change (e :: events) with ([e] ++ events).
    rewrite enqueued_app, app_assoc. cbn [foldl app].
    apply IH; [exact Hes|].
    apply playback_ok_handle; [now apply negb_true_iff | exact Hok].
Qed.

(** *** The flag and the progress of the queue *)










End PlaybackFacts.

(** * Play order, short chunks and the gating of the timer *)
Module QueueFacts.
Import TypedArray App AppSpec PlaybackSpec TimerFacts PlaybackFacts.
Local Open Scope nat_scope.




(** C8, as stated, fails: while a chunk is playing, a one-byte chunk that
    arrives is appended to the queue, whose length grows by one. *)
Lemma C8_queue_length_counterexample :
  ~ (forall (events : list event) (a : ArrayBuffer),
       forallb (fun e => negb (is_teardown e)) events = true ->
       length a < 2 ->
       let s := run events initial in
       started (enqueueAudio a s) = started s
       /\ length (audioQueue (enqueueAudio a s)) = length (audioQueue s)).
Proof.
  intros H.
  destruct (H one_chunk_playing [Byte.x00] eq_refl ltac:(simpl; lia)) as [_ Hlen].
  vm_compute in Hlen. discriminate.
Qed.

(** C8, amended: a chunk shorter than 2 bytes is never played, and is
    dropped without a playback attempt when [playNextInQueue] reaches it,
    playback going on with the chunks behind it.  Enqueued while nothing
    plays and the queue is empty, it is dropped at once and the queue and
    the audio output are as before; enqueued while a chunk plays, it waits
    in the queue until it is reached. *)
Theorem C8_short_chunk_dropped (a : ArrayBuffer) :
  length a < 2 ->
  (forall (events : list event) (source : BufferSource),
     forallb (fun e => negb (is_teardown e)) events = true ->
     source ∈ started (run events initial) -> origin source <> a)
  /\ (forall (s : State) (rest : list ArrayBuffer),
        playNext_from (a :: rest) s
        = playNext_from rest
            (set_isPlayingAudio false (set_audioQueue rest (set_isPlayingAudio true s))))
  /\ (forall s : State,
        isPlayingAudio s = false -> audioQueue s = [] ->
        playback (enqueueAudio a s) = playback s)
  /\ (forall s : State,
        isPlayingAudio s = true ->
        enqueueAudio a s = set_audioQueue (audioQueue s ++ [a]) s).
Proof.
  intros Hshort. split_and!.
  - intros events source He Hin Heq.
    destruct (playback_ok_run events [] initial He playback_ok_initial)
      as (_ & _ & _ & Hfifo).
    assert (Hp : origin source ∈ filter playable ([] ++ enqueued events)).
    { rewrite <- Hfifo. apply elem_of_app. left.
      apply list_elem_of_fmap. eauto. }
    apply list_elem_of_filter in Hp as [Hp _].
    rewrite Heq, (playable_short a Hshort) in Hp. exact Hp.
  - intros s rest. cbn [playNext_from]. cbv zeta.
    replace (length a <? 2) with true by (symmetry; now apply Nat.ltb_lt).
    reflexivity.
  - intros s Hidle Hq. unfold enqueueAudio, playNextInQueue. cbv zeta.
    change (isPlayingAudio (set_audioQueue (audioQueue s ++ [a]) s))
      with (isPlayingAudio s).
    rewrite Hidle, Hq. cbn [negb app audioQueue set_audioQueue playNext_from]. cbv zeta.
    replace (length a <? 2) with true by (symmetry; now apply Nat.ltb_lt).
    cbn [playNext_from]. cbv zeta.
    unfold playback. repeat case_match; simpl; rewrite ?Hidle, ?Hq; reflexivity.
  - intros s Hbusy. unfold enqueueAudio. cbv zeta.
    change (isPlayingAudio (set_audioQueue (audioQueue s ++ [a]) s))
      with (isPlayingAudio s).
    rewrite Hbusy. reflexivity.
Qed.

(** A one-byte chunk, arriving when idle and arriving while a chunk plays. *)
Lemma C8_short_chunk_dropped_witness :
  length [Byte.x00] < 2
  /\ playback (enqueueAudio [Byte.x00] initial) = playback initial
  /\ enqueueAudio [Byte.x00] (run one_chunk_playing initial)
     = set_audioQueue
         (audioQueue (run one_chunk_playing initial) ++ [[Byte.x00]])
         (run one_chunk_playing initial).
Proof.
  assert (Hshort : length [Byte.x00] < 2) by (simpl; lia).
  destruct (C8_short_chunk_dropped [Byte.x00] Hshort) as (_ & _ & Hidle & Hbusy).
  split; [exact Hshort|]. split.
  - apply Hidle; reflexivity.
  - apply Hbusy. vm_compute. reflexivity.
Defined.

(** C9, as stated, fails: with an image loaded and a call under way the
    timer runs; removing the image leaves it running with no attachment. *)
Lemma C9_timer_without_attachment_counterexample :
  ~ (forall events : list event,
       let s := run events initial in
       intervals s <> [] ->
       isRecording s = true /\ is_Some (session s) /\ isSetupComplete s = true
       /\ truthy (currentImageBase64 s) = true).
Proof.
  intros H.
  destruct (H (call_with_image ++ [click_removeImage])) as (_ & _ & _ & Himg).
  - vm_compute. discriminate.
  - vm_compute in Himg. discriminate.
Qed.

(** C9, amended: along every run of events in which no microphone request
    fails, the periodic timer is active only while recording is on, a
    session exists and its setup is acknowledged, whether or not an
    attachment is loaded; stopping the recording and the cleanup after an
    error or a close each leave no timer active; removing the attachment
    leaves the timer as it is, and a tick then transmits nothing. *)
Theorem C9_timer_gated (events : list event) :
  forallb (fun e => negb (is_microphone_failed e)) events = true ->
  let s := run events initial in
  (intervals s <> [] ->
   isRecording s = true /\ is_Some (session s) /\ isSetupComplete s = true)
  /\ intervals (stopRecording s) = []
  /\ (forall isErrorOrigin, intervals (cleanupAfterErrorOrClose isErrorOrigin s) = [])
  /\ intervals (removeImage s) = intervals s
  /\ (forall id, transmitted (interval_tick id (removeImage s)) = transmitted s).
Proof.
  intros He s.
  pose proof (timer_ok_run events initial He timer_ok_initial) as Hok. fold s in Hok.
  split_and!.
  - destruct Hok as [Ht _]. destruct (imageSendIntervalId s); [|congruence].
    destruct Ht as (_ & ? & ? & ?). auto.
  - now apply timer_ok_stopRecording.
  - intros b. now apply timer_ok_cleanup.
  - reflexivity.
  - intros id. unfold interval_tick. case_match; reflexivity.
Qed.

(** A call with an image, the image then removed: the timer still runs, and
    stopping the recording stops it. *)
Lemma C9_timer_gated_witness :
  forallb (fun e => negb (is_microphone_failed e))
    (call_with_image ++ [click_removeImage]) = true
  /\ intervals (run (call_with_image ++ [click_removeImage]) initial) = [1%positive]
  /\ isRecording (run (call_with_image ++ [click_removeImage]) initial) = true
  /\ isSetupComplete (run (call_with_image ++ [click_removeImage]) initial) = true
  /\ intervals (stopRecording (run (call_with_image ++ [click_removeImage]) initial)) = [].
Proof.
  split; [reflexivity|].
  destruct (C9_timer_gated (call_with_image ++ [click_removeImage]) eq_refl)
    as (Hgate & Hstop & _).
  split; [vm_compute; reflexivity|].
  destruct Hgate as (Hr & _ & Hs); [vm_compute; discriminate|].
  auto.
Defined.
End QueueFacts.

(** * The accumulator: capacity, storage, compaction and the age trigger *)
Module AccumulatorFacts.
Import Num TypedArray AudioProcessor ResamplerSpec AccumulatorSpec ResamplerFacts.
Local Open Scope nat_scope.

(** X1: the constructor throws exactly when the buffer length it asks for
    is +infinity, above 2^53 - 1 or more than the platform allocates;
    otherwise it starts empty and idle with the frame size of the options
    (4096 when missing or 0), posts one debug message, and its buffer has
    the length asked for, with room for two frames and for the window plus
    128 samples; a NaN window gives a buffer of length 0. *)
Theorem constructor_capacity (maxLength : N) (sampleRate_ now : float)
    (options : processorOptions) :
  match constructor maxLength sampleRate_ now options with
  | None =>
      match requested sampleRate_ options with
      | XInt z => (MAX_SAFE_INTEGER < z \/ Z.of_N maxLength < z)%Z
      | XPosInf => True
      | XNegInf | XNaN => False
      end
  | Some (p, msgs) =>
      msgs = [debug]
      /\ bufferSize p = nat_or (opt_bufferSize options) 4096
      /\ 1 <= bufferSize p
      /\ _internalBufferIndex p = 0 /\ isProcessing p = false /\ lastSendTime p = now
      /\ match requested sampleRate_ options with
         | XInt z =>
             Z.of_nat (length (_internalBuffer p)) = z
             /\ (z <= MAX_SAFE_INTEGER)%Z /\ (z <= Z.of_N maxLength)%Z
             /\ 2 * bufferSize p <= length (_internalBuffer p)
             /\ match Math_ceil (window sampleRate_ options) with
                | XInt c => (c + 128 <= Z.of_nat (length (_internalBuffer p)))%Z
                | _ => True
                end
         | XNaN => length (_internalBuffer p) = 0
         | XPosInf | XNegInf => False
         end
  end.
Proof.
  unfold constructor, requested, window.
  set (bs := nat_or (opt_bufferSize options) 4096).
  assert (Hbs : 1 <= bs).
  { unfold bs, nat_or. destruct (opt_bufferSize options) as [[|n]|]; lia. }
  destruct (Math_ceil _) as [c| | |]; cbn [xadd xmax Float32Array_new].
  - set (z := Z.max (c + 128) (Z.of_nat (bs * 2))).
    assert (Hz : (0 <= z /\ c + 128 <= z /\ Z.of_nat (bs * 2) <= z)%Z) by (unfold z; lia).
    destruct (0 <=? z)%Z eqn:E0; [|apply Z.leb_gt in E0; lia].
    destruct (z <=? MAX_SAFE_INTEGER)%Z eqn:E1;
      [apply Z.leb_le in E1 | apply Z.leb_gt in E1; cbn [andb]; lia].
    destruct (z <=? Z.of_N maxLength)%Z eqn:E2;
      [apply Z.leb_le in E2 | apply Z.leb_gt in E2; cbn [andb]; lia].
    cbn. unfold Float32Array. rewrite length_replicate. split_and!; auto; lia.
  - exact I.
  - set (z := Z.of_nat (bs * 2)).
    destruct (0 <=? z)%Z eqn:E0; [|apply Z.leb_gt in E0; unfold z in E0; lia].
    destruct (z <=? MAX_SAFE_INTEGER)%Z eqn:E1;
      [apply Z.leb_le in E1 | apply Z.leb_gt in E1; cbn [andb]; lia].
    destruct (z <=? Z.of_N maxLength)%Z eqn:E2;
      [apply Z.leb_le in E2 | apply Z.leb_gt in E2; cbn [andb]; lia].
    cbn. unfold Float32Array. rewrite length_replicate. unfold z in *.
    split_and!; auto; lia.
  - cbn. split_and!; auto.
Qed.

(** X2: A block that fits is stored whole. *)
Theorem accumulate_fits (p : t) (input : list float) :
  _internalBufferIndex p + length input <= length (_internalBuffer p) ->
  exists p1,
    accumulate p (Some input) = Some p1
    /\ filled p1 = filled p ++ input
    /\ _internalBufferIndex p1 = _internalBufferIndex p + length input
    /\ length (_internalBuffer p1) = length (_internalBuffer p)
    /\ drop (_internalBufferIndex p1) (_internalBuffer p1)
       = drop (_internalBufferIndex p1) (_internalBuffer p).
Proof.
  intros Hfit. unfold accumulate, filled.
  destruct (0 <? length input) eqn:E0.
  - replace (_ <=? _) with true by (symmetry; now apply Nat.leb_le).
    unfold set.
    replace (_ <=? _) with true by (symmetry; now apply Nat.leb_le).
    simpl. eexists. split; [reflexivity|]. simpl.
    assert (Hl : length (take (_internalBufferIndex p) (_internalBuffer p))
                 = _internalBufferIndex p) by (rewrite length_take; lia).
    split_and!; auto.
    + rewrite app_assoc, take_app_length'; [reflexivity|].
      rewrite length_app, Hl. reflexivity.
    + rewrite !length_app, Hl, length_drop. lia.
    + rewrite app_assoc, drop_app_length'; [reflexivity|].
      rewrite length_app, Hl. reflexivity.
  - apply Nat.ltb_ge in E0. destruct input; [|simpl in E0; lia].
    exists p. rewrite app_nil_r, Nat.add_0_r. auto.
Qed.

(** X3: After an emission the accumulator holds exactly the samples behind the
    last one used, in their order. *)
Theorem emission_compacts (p p' : t) (now : float) (buffer : ArrayBuffer) :
  _internalBufferIndex p <= length (_internalBuffer p) ->
  sendResampledBuffer p now = (p', [debug; pcmData buffer]) ->
  exists n,
    length buffer = 2 * S n /\ S n <= bufferSize p
    /\ lastSendTime p' = now
    /\ length (_internalBuffer p') = length (_internalBuffer p)
    /\ match xadd (index p n) 1 with
       | XInt c => if (1 <=? c)%Z then filled p' = drop (Z.to_nat c) (filled p)
                   else filled p' = []
       | _ => filled p' = []
       end.
Proof.
  intros Hinv Hsend. unfold sendResampledBuffer in Hsend.
  destruct (_internalBufferIndex p =? 0) eqn:E0; [discriminate|].
  destruct (isProcessing p) eqn:Ep; [discriminate|]. simpl in Hsend.
  rewrite (resample_ext p (with_lastSendTime (with_processing p true) now))
    in Hsend by reflexivity.
  destruct (resample p) as [out c] eqn:Hr.
  destruct (resample_spec p out c Hr) as (Hlen & _ & _ & Hc).
  destruct (length out =? 0) eqn:El; [discriminate|].
  apply Nat.eqb_neq in El. destruct (length out) as [|n] eqn:Hn; [lia|].
  exists n. injection Hsend as <- <-.
  rewrite Int16Array_buffer_length, length_map, Hn.
  split; [reflexivity|]. split; [exact Hlen|].
  subst c. unfold filled.
  destruct (xadd (index p n) 1) as [c| | |]; simpl.
  - destruct (0 <? c)%Z eqn:Epos; simpl.
    + apply Z.ltb_lt in Epos.
      replace (1 <=? c)%Z with true by (symmetry; apply Z.leb_le; lia).
      destruct (c <=? Z.of_nat (_internalBufferIndex p))%Z eqn:Ele; simpl.
      * apply Z.leb_le in Ele. split_and!; auto.
        { unfold copyWithin0. rewrite length_app, length_take, !length_drop. lia. }
        unfold copyWithin0.
        replace (Nat.min (Z.to_nat c) (length (_internalBuffer p))) with (Z.to_nat c) by lia.
        replace (Nat.min (_internalBufferIndex p) (length (_internalBuffer p)))
          with (_internalBufferIndex p) by lia.
        rewrite take_app_le by (rewrite length_take, length_drop; lia).
        rewrite take_take, Nat.min_id.
        rewrite take_drop_commute. do 2 f_equal. lia.
      * apply Z.leb_gt in Ele. split_and!; auto.
        rewrite drop_ge; [reflexivity|]. rewrite length_take. lia.
    + apply Z.ltb_ge in Epos.
      replace (1 <=? c)%Z with false by (symmetry; apply Z.leb_gt; lia).
      split_and!; auto.
  - split_and!; auto.
  - split_and!; auto.
  - split_and!; auto.
Qed.

Lemma accumulate_empty (p : t) (inputChannel : option (list float)) :
  inputChannel = None \/ inputChannel = Some [] -> accumulate p inputChannel = Some p.
Proof. intros [-> | ->]; reflexivity. Qed.

(** X4: With nothing buffered and no samples delivered, [process] posts nothing
    and changes nothing, whatever the clock says. *)
Theorem process_idle (p : t) (inputChannel : option (list float)) (now : float) :
  _internalBufferIndex p = 0 ->
  inputChannel = None \/ inputChannel = Some [] ->
  process p inputChannel now = Some (p, [], true).
Proof.
  intros Hidx Hin. unfold process. rewrite (accumulate_empty p _ Hin). simpl.
  unfold sendResampledBuffer. rewrite Hidx. simpl.
  rewrite andb_false_r, orb_false_r.
  destruct (_ && _); reflexivity.
Qed.

Lemma process_step (p : t) (inputChannel : option (list float)) (now : float) :
  _internalBufferIndex p <= length (_internalBuffer p) ->
  exists p' msgs,
    process p inputChannel now = Some (p', msgs, true)
    /\ length (_internalBuffer p') = length (_internalBuffer p)
    /\ _internalBufferIndex p' <= length (_internalBuffer p')
    /\ bufferSize p' = bufferSize p /\ resampleRatio p' = resampleRatio p
    /\ length (filter is_frame msgs) <= 1.
Proof.
  intros Hinv. unfold process.
  destruct (accumulate_spec p inputChannel) as (p1 & -> & Hbs & Hr & _ & _ & Hfit).
  destruct (Hfit Hinv) as (Hlen & Hidx & _). simpl.
  destruct (_ && negb (isProcessing p1)).
  - destruct (sendResampledBuffer_cases p1 now)
      as [[Hs _] | [(_ & _ & _ & Hs) | (_ & _ & _ & p2 & Hs & Hbs2 & Hr2 & _ & Hl2 & Hi2)]];
      rewrite Hs; eexists _, _; (split; [reflexivity|]); simpl;
      split_and!; try congruence; try lia.
  - exists p1, []. simpl. split_and!; auto.
Qed.

(** X5: Along any stream of blocks [process] never throws and returns [true]
    at every call, the accumulator keeps its length, its frame size and its
    ratio, the fill level stays within it, and at most one frame is posted
    per block. *)
Theorem run_keeps_accumulator (blocks : list (option (list float) * float)) :
  forall p : t,
    _internalBufferIndex p <= length (_internalBuffer p) ->
    keeps_alive p blocks = true
    /\ exists p' msgs,
         run p blocks = Some (p', msgs)
         /\ length (_internalBuffer p') = length (_internalBuffer p)
         /\ _internalBufferIndex p' <= length (_internalBuffer p')
         /\ bufferSize p' = bufferSize p /\ resampleRatio p' = resampleRatio p
         /\ length (filter is_frame msgs) <= length blocks.
Proof.
  induction blocks as [|[input now] rest IH]; intros p Hinv; cbn [keeps_alive run].
  - split; [reflexivity|]. exists p, []. simpl. split_and!; auto.
  - destruct (process_step p input now Hinv) as (p1 & m1 & -> & Hl1 & Hi1 & Hb1 & Hr1 & Hf1).
    destruct (IH p1 Hi1) as (Halive & p2 & m2 & Hrun & Hl2 & Hi2 & Hb2 & Hr2 & Hf2).
    split; [exact Halive|]. simpl. rewrite Hrun. simpl.
    exists p2, (m1 ++ m2). rewrite filter_app, length_app.
    split_and!; try congruence; try lia.
Qed.

Lemma accumulate_grows (p : t) (inputChannel : option (list float)) (p1 : t) :
  accumulate p inputChannel = Some p1 -> _internalBufferIndex p <= _internalBufferIndex p1.
Proof.
  unfold accumulate, set, slice0. destruct inputChannel as [input|]; [|intros [= <-]; lia].
  repeat case_match; simpl; intros [= <-]; simpl; lia.
Qed.

Lemma sendResampledBuffer_time (p : t) (now : float) :
  _internalBufferIndex p <> 0 -> isProcessing p = false ->
  lastSendTime (fst (sendResampledBuffer p now)) = now.
Proof.
  intros Hi Hp. unfold sendResampledBuffer.
  replace (_internalBufferIndex p =? 0) with false by (symmetry; now apply Nat.eqb_neq).
  rewrite Hp. simpl.
  destruct (resample _) as [out c]. destruct (length out =? 0); [reflexivity|].
  repeat case_match; reflexivity.
Qed.

(** X6: The age trigger: on a regular accumulator that holds samples, a block
    delivered more than half a second after the last emission makes
    [process] post a frame at once and restart the clock. *)
Theorem age_trigger_emits (p : t) (inputChannel : option (list float)) (now : float) :
  regular p ->
  0 < _internalBufferIndex p ->
  flt MAX_BUFFER_AGE_SECONDS (fsub now (lastSendTime p)) = true ->
  exists p' buffer,
    process p inputChannel now = Some (p', [debug; pcmData buffer], true)
    /\ lastSendTime p' = now
    /\ regular p'.
Proof.
  intros Hreg Hpos Hage. unfold process.
  destruct (accumulate_spec p inputChannel) as (p1 & Hacc & Hbs & Hr & Hproc & Ht & Hfit).
  pose proof (accumulate_grows p inputChannel p1 Hacc) as Hgrow.
  destruct Hreg as (Hinv & Hlen & Hp & Hb & z & Hz & Hzl).
  destruct (Hfit Hinv) as (Hlen1 & Hidx1 & _).
  assert (Hreg1 : regular p1).
  { split_and!; try congruence; try lia. exists z. rewrite Hbs, Hr, Hlen1. auto. }
  rewrite Hacc. simpl. rewrite Ht, Hage, Hproc, Hp.
  replace (0 <? _internalBufferIndex p1) with true by (symmetry; apply Nat.ltb_lt; lia).
  rewrite orb_true_r. simpl.
  destruct (sendResampledBuffer_cases p1 now)
    as [[Hs Hwhy] | [(Hi & _ & Hnil & Hs) | (Hi & _ & Hne & p2 & Hs & Hbs2 & Hr2 & Hp2 & Hl2 & Hi2)]].
  - destruct Hwhy; [lia|congruence].
  - exfalso. now apply (regular_emits p1 Hreg1).
  - rewrite Hs. eexists _, _. split; [reflexivity|]. split.
    + pose proof (sendResampledBuffer_time p1 now Hi ltac:(congruence)) as Htime.
      rewrite Hs in Htime. exact Htime.
    + split_and!; try lia; auto.
      exists z. rewrite Hbs2, Hr2, Hl2, Hbs, Hr, Hlen1. auto.
Qed.

Lemma one_quarter_regular : regular Examples.one_quarter.
Proof.
  unfold regular. split_and!; try (vm_compute; lia); try reflexivity.
  exists 3%Z. split; [vm_compute; reflexivity | vm_compute; discriminate].
Qed.

(** Two samples stored in the empty constructed worklet. *)
Lemma accumulate_fits_witness :
  _internalBufferIndex Examples.worklet + length [Examples.quarter; half]
    <= length (_internalBuffer Examples.worklet)
  /\ exists p1,
       accumulate Examples.worklet (Some [Examples.quarter; half]) = Some p1
       /\ filled p1 = [Examples.quarter; half]
       /\ _internalBufferIndex p1 = 2.
Proof.
  assert (Hfit : _internalBufferIndex Examples.worklet + length [Examples.quarter; half]
                 <= length (_internalBuffer Examples.worklet))
    by (vm_compute; lia).
  split; [exact Hfit|].
  destruct (accumulate_fits Examples.worklet [Examples.quarter; half] Hfit)
    as (p1 & Hacc & Hfilled & Hidx & _).
  exists p1. split_and!; [exact Hacc | exact Hfilled | exact Hidx].
Defined.

(** The emission of [three_buffered] uses all three samples and leaves
    none. *)
Lemma emission_compacts_witness :
  sendResampledBuffer Examples.three_buffered one
  = (fst Examples.three_buffered_sent,
     [debug; pcmData [Byte.xff; Byte.x1f; Byte.xff; Byte.x3f]])
  /\ lastSendTime (fst Examples.three_buffered_sent) = one
  /\ length (_internalBuffer (fst Examples.three_buffered_sent)) = 8.
Proof.
  assert (Hsent : sendResampledBuffer Examples.three_buffered one
                  = (fst Examples.three_buffered_sent,
                     [debug; pcmData [Byte.xff; Byte.x1f; Byte.xff; Byte.x3f]]))
    by (vm_compute; reflexivity).
  split; [exact Hsent|].
  assert (Hinv : _internalBufferIndex Examples.three_buffered
                 <= length (_internalBuffer Examples.three_buffered))
    by (vm_compute; lia).
  destruct (emission_compacts _ _ _ _ Hinv Hsent)
    as (n & _ & _ & Htime & Hlen & _).
  split; [exact Htime | exact Hlen].
Defined.

(** A block of length 0 delivered to the empty constructed worklet. *)
Lemma process_idle_witness :
  process Examples.worklet (Some []) one = Some (Examples.worklet, [], true).
Proof.
  apply process_idle; [vm_compute; reflexivity | right; reflexivity].
Defined.

(** The constructed worklet over an overlong block and a missing one. *)
Lemma run_keeps_accumulator_witness :
  keeps_alive Examples.worklet [(Some Examples.long_block, zero); (None, one)] = true
  /\ exists p' msgs,
       run Examples.worklet [(Some Examples.long_block, zero); (None, one)] = Some (p', msgs)
       /\ length (_internalBuffer p') = 140
       /\ length (filter is_frame msgs) <= 2.
Proof.
  destruct (run_keeps_accumulator [(Some Examples.long_block, zero); (None, one)]
              Examples.worklet ltac:(vm_compute; lia))
    as (Halive & p' & msgs & Hrun & Hlen & _ & _ & _ & Hframes).
  split; [exact Halive|].
  exists p', msgs. split_and!; [exact Hrun | exact Hlen | exact Hframes].
Defined.

(** One buffered sample, one second after the last emission. *)
Lemma age_trigger_emits_witness :
  exists p' buffer,
    process Examples.one_quarter None one = Some (p', [debug; pcmData buffer], true)
    /\ lastSendTime p' = one.
Proof.
  destruct (age_trigger_emits Examples.one_quarter None one one_quarter_regular
              ltac:(vm_compute; lia) ltac:(vm_compute; reflexivity))
    as (p' & buffer & Hproc & Htime & _).
  exists p', buffer. split; [exact Hproc | exact Htime].
Defined.
End AccumulatorFacts.

(** * Frames and base64 text across the boundary *)
Module CodecFacts.
Import Num TypedArray AudioProcessor Base64 Base64Spec Base64Facts App AppSpec ResamplerFacts
  PlaybackFacts.

Lemma Z_of_byte_of_Z (z : Z) : Z_of_byte (byte_of_Z z) = z mod 256.
Proof.
  unfold Z_of_byte, byte_of_Z.
  pose proof (Z.mod_pos_bound z 256 ltac:(lia)) as Hb.
  destruct (Byte.of_N (Z.to_N (z mod 256))) as [b|] eqn:E.
  - apply Byte.to_of_N in E. rewrite E. lia.
  - apply Byte.of_N_None_iff in E. lia.
Qed.

Lemma Int16Array_roundtrip (l : list Z) :
  Forall (fun z => -32768 <= z < 32768) l ->
  Int16Array_of_buffer (Int16Array_buffer l) = Some l.
Proof.
  induction 1 as [|z l Hz _ IH]; [reflexivity|].
  change (Int16Array_buffer (z :: l))
    with (byte_of_Z (z mod 65536) :: byte_of_Z (z mod 65536 / 256) :: Int16Array_buffer l).
  cbn [Int16Array_of_buffer]. rewrite IH, !Z_of_byte_of_Z. cbn [mbind option_bind].
  do 2 f_equal.
  replace (z mod 65536 mod 256 + 256 * (z mod 65536 / 256 mod 256)) with (z mod 65536)
    by (Z.div_mod_to_equations; lia).
  destruct (32768 <=? z mod 65536) eqn:E;
    [apply Z.leb_le in E | apply Z.leb_gt in E]; Z.div_mod_to_equations; lia.
Qed.

(** X7: A frame read back: the bytes that the worklet posts, viewed as an
    [Int16Array] the way the playback side views a chunk, are the quantised
    samples again, each within the 16-bit range; the frame has no odd
    byte and at least one sample. *)
Theorem frame_reads_back (p p' : t) (now : float) (buffer : ArrayBuffer) :
  sendResampledBuffer p now = (p', [debug; pcmData buffer]) ->
  Int16Array_of_buffer buffer = Some (map quantize (fst (resample p)))
  /\ Forall (fun z => -32768 <= z < 32768) (map quantize (fst (resample p)))
  /\ playable buffer = true.
Proof.
  intros Hsend.
  assert (Hrange : Forall (fun z => -32768 <= z < 32768) (map quantize (fst (resample p)))).
  { apply Forall_forall. intros z Hz. apply list_elem_of_fmap in Hz as (x & -> & _).
    apply ToInt16_spec. }
  destruct (sendResampledBuffer_cases p now)
    as [[Hs _] | [(_ & _ & _ & Hs) | (_ & _ & Hne & p2 & Hs & _)]];
    rewrite Hs in Hsend; try discriminate.
  injection Hsend as _ <-.
  pose proof (Int16Array_roundtrip _ Hrange) as Hback.
  split; [exact Hback|]. split; [exact Hrange|].
  refine (playable_whole _ _ _ Hback).
  rewrite Int16Array_buffer_length, length_map.
  destruct (fst (resample p)); [congruence|]. simpl. clear. lia.
Qed.

Lemma frame_reads_back_witness :
  Int16Array_of_buffer [Byte.xff; Byte.x1f; Byte.xff; Byte.x3f]
  = Some (map quantize (fst (resample Examples.three_buffered))).
Proof.
  apply (frame_reads_back Examples.three_buffered (fst Examples.three_buffered_sent) one
           [Byte.xff; Byte.x1f; Byte.xff; Byte.x3f]).
  vm_compute. reflexivity.
Defined.

(** X8: While recording on a session, a non-empty frame from the worklet is
    sent once, as a blob of type audio/pcm;rate=16000 whose base64 text
    decodes to the frame; nothing else of the call changes.  A debug
    message and an empty frame send nothing. *)
Theorem port_onmessage_sends_frame (buffer : ArrayBuffer) (sess : Session) (s : State) :
  session s = Some sess -> isRecording s = true -> buffer <> [] ->
  exists blob,
    port_onmessage (pcmData buffer) s = sendRealtimeInput sess blob s
    /\ transmitted (port_onmessage (pcmData buffer) s) = transmitted s ++ [(sess, blob)]
    /\ mimeType blob = "audio/pcm;rate=16000"
    /\ base64ToArrayBuffer (data blob) = Some buffer
    /\ port_onmessage debug s = s
    /\ port_onmessage (pcmData []) s = s.
Proof.
  intros Hs Hr Hne. unfold port_onmessage. rewrite Hs, Hr.
  destruct buffer as [|b buffer]; [congruence|]. cbn [length Nat.eqb].
  eexists. split; [reflexivity|]. split; [reflexivity|]. split; [reflexivity|].
  split; [|split; reflexivity].
  cbn [data]. unfold base64ToArrayBuffer, arrayBufferToBase64.
  rewrite atob_btoa. cbn [mbind option_bind]. now rewrite bytes_of_binary_of_bytes.
Qed.

Lemma port_onmessage_sends_frame_witness :
  exists blob,
    transmitted (port_onmessage (pcmData [Byte.xff; Byte.x1f])
                   (run call_with_image initial))
    = transmitted (run call_with_image initial) ++ [(1%nat, blob)]
    /\ base64ToArrayBuffer (data blob) = Some [Byte.xff; Byte.x1f].
Proof.
  destruct (port_onmessage_sends_frame [Byte.xff; Byte.x1f] 1%nat
              (run call_with_image initial) eq_refl eq_refl ltac:(discriminate))
    as (blob & _ & Htx & _ & Hback & _).
  exists blob. split; [exact Htx | exact Hback].
Defined.

Lemma encode_length_eq (l : list Z) :
  length (encode l) = (4 * ((length l + 2) / 3))%nat.
Proof.
  induction l as [| a | a b | a b c rest IH] using list_ind3; try reflexivity.
  change (length (encode (a :: b :: c :: rest))) with (4 + length (encode rest))%nat.
  rewrite IH. cbn [length].
  replace (S (S (S (length rest))) + 2)%nat with (length rest + 2 + 1 * 3)%nat by lia.
  rewrite Nat.div_add by lia. lia.
Qed.

Lemma encode_alphabet (l : list Z) :
  Forall octet l -> Forall (fun c => is_Some (dec6 c) \/ c = pad) (encode l).
Proof.
  assert (Hs : forall n, sextet n -> is_Some (dec6 (enc6 n)) \/ enc6 n = pad).
  { intros n Hn. left. rewrite dec6_enc6 by exact Hn. eauto. }
  induction l as [| a | a b | a b c rest IH] using list_ind3; intros H.
  - constructor.
  - apply Forall_cons in H as [Ha _].
    destruct (group_sextets a a a Ha Ha Ha) as (H1 & _ & _ & _ & H5 & _).
    cbn [encode]. repeat (constructor; auto).
  - apply Forall_cons in H as [Ha H]. apply Forall_cons in H as [Hb _].
    destruct (group_sextets a b b Ha Hb Hb) as (H1 & H2 & _ & _ & _ & H6).
    cbn [encode]. repeat (constructor; auto).
  - apply Forall_cons in H as [Ha H]. apply Forall_cons in H as [Hb H].
    apply Forall_cons in H as [Hc H].
    destruct (group_sextets a b c Ha Hb Hc) as (H1 & H2 & H3 & H4 & _ & _).
    change (encode (a :: b :: c :: rest))
      with (enc6 (a / 4) :: enc6 (a mod 4 * 16 + b / 16)
              :: enc6 (b mod 16 * 4 + c / 64) :: enc6 (c mod 64) :: encode rest).
    repeat (constructor; auto).
Qed.

Lemma binary_of_bytes_list (buffer : ArrayBuffer) :
  list_ascii_of_string (binary_of_bytes buffer) = map fromCharCode buffer.
Proof. induction buffer as [|b buffer IH]; [reflexivity|]. simpl. now rewrite IH. Qed.

(** X9: The text that [arrayBufferToBase64] returns has four characters for
    every three bytes, the last group being padded, and consists of
    characters of the base64 alphabet and of [=] only. *)
Theorem arrayBufferToBase64_shape (buffer : ArrayBuffer) :
  String.length (arrayBufferToBase64 buffer) = (4 * ((length buffer + 2) / 3))%nat
  /\ Forall (fun c => is_Some (dec6 c) \/ c = pad)
       (list_ascii_of_string (arrayBufferToBase64 buffer))
  /\ (arrayBufferToBase64 buffer = EmptyString <-> buffer = []).
Proof.
  unfold arrayBufferToBase64, btoa. rewrite binary_of_bytes_list.
  set (l := map charCode (map fromCharCode buffer)).
  assert (Hl : length l = length buffer) by (unfold l; now rewrite !length_map).
  assert (Ho : Forall octet l).
  { unfold l. apply Forall_forall. intros z Hz.
    apply list_elem_of_fmap in Hz as (c & -> & _). apply charCode_octet. }
  assert (Hlen : String.length (string_of_list_ascii (encode l))
                 = (4 * ((length buffer + 2) / 3))%nat).
  { rewrite <- Hl, <- encode_length_eq.
    generalize (encode l). intros cs. induction cs as [|c cs IH]; simpl; congruence. }
  split; [exact Hlen|]. split.
  - rewrite list_ascii_of_string_of_list_ascii. now apply encode_alphabet.
  - split.
    + intros He. rewrite He in Hlen. cbn [String.length] in Hlen.
      destruct buffer as [|b rest]; [reflexivity|exfalso]. cbn [length] in Hlen.
      assert (1 <= (S (length rest) + 2) / 3)%nat by (apply Nat.div_le_lower_bound; lia).
      lia.
    + intros ->. reflexivity.
Qed.

Lemma strip_padding_keeps (c : ascii) (l : list ascii) :
  c <> pad -> c ∈ l -> c ∈ strip_padding l.
Proof.
  intros Hc. induction l as [|x [|y [|z l]] IH]; intros Hin.
  - exact Hin.
  - apply list_elem_of_singleton in Hin as <-. cbn [strip_padding].
    destruct (Ascii.eqb_spec c pad); [congruence|]. apply list_elem_of_here.
  - cbn [strip_padding].
    destruct (Ascii.eqb_spec y pad) as [->|Hy].
    + apply elem_of_cons in Hin as [-> | Hin].
      * destruct (Ascii.eqb_spec x pad); [congruence|]. apply list_elem_of_here.
      * apply list_elem_of_singleton in Hin. congruence.
    + exact Hin.
  - change (strip_padding (x :: y :: z :: l)) with (x :: strip_padding (y :: z :: l)).
    apply elem_of_cons in Hin as [-> | Hin]; [apply list_elem_of_here|].
    apply list_elem_of_further. now apply IH.
Qed.

Lemma mapM_dec6_None (c : ascii) (l : list ascii) :
  dec6 c = None -> c ∈ l -> mapM dec6 l = None.
Proof.
  intros Hc. induction l as [|x l IH]; intros Hin; [inversion Hin|].
  cbn [mapM]. apply elem_of_cons in Hin as [<- | Hin].
  - rewrite Hc. reflexivity.
  - rewrite (IH Hin). destruct (dec6 x); reflexivity.
Qed.

(** X10: A part whose data holds a character that is neither of the base64
    alphabet, nor [=], nor whitespace cannot be decoded: [atob] throws,
    the callback catches it and skips the part, leaving the application
    as it was. *)
Theorem undecodable_part_skipped (c : ascii) (data_ : string) (text_ : option string)
    (s : State) :
  c ∈ list_ascii_of_string data_ ->
  dec6 c = None -> c <> pad -> is_ascii_whitespace c = false ->
  base64ToArrayBuffer data_ = None
  /\ on_part {| text := text_; inlineData := Some data_ |} s = s.
Proof.
  intros Hin Hdec Hpad Hws.
  assert (Hnone : base64ToArrayBuffer data_ = None).
  { unfold base64ToArrayBuffer, atob. cbv zeta.
    set (data1 := filter _ _).
    assert (H1 : c ∈ data1) by (apply list_elem_of_filter; auto).
    set (data2 := if (length data1 mod 4 =? 0)%nat then strip_padding data1 else data1).
    assert (H2 : c ∈ data2).
    { unfold data2. destruct (_ =? _)%nat; [now apply strip_padding_keeps | exact H1]. }
    destruct (length data2 mod 4 =? 1)%nat; [reflexivity|].
    rewrite (mapM_dec6_None c data2 Hdec H2). reflexivity. }
  split; [exact Hnone|].
  unfold on_part. cbn [inlineData]. rewrite Hnone. destruct (truthy _); reflexivity.
Qed.

Lemma undecodable_part_skipped_witness :
  handle (audio_message "AA*=") (run one_chunk_playing initial)
  = run one_chunk_playing initial.
Proof.
  destruct (undecodable_part_skipped "*"%char "AA*=" None (run one_chunk_playing initial))
    as [_ Hskip].
  - apply (bool_decide_unpack _). vm_compute. exact I.
  - reflexivity.
  - discriminate.
  - reflexivity.
  - cbn [handle audio_message]. unfold onmessage. cbn [setupComplete parts turnComplete].
    unfold on_parts. cbn [foldl]. rewrite Hskip. reflexivity.
Defined.
End CodecFacts.

(** * Calls: setup, teardown, the attachment and what is sent *)
Module CallFacts.
Import TypedArray Base64 App AppSpec CallSpec TimerFacts.
Local Open Scope nat_scope.

Lemma includes_prefix (s sub : string) : String.prefix sub s = true -> includes s sub = true.
Proof. intros H. destruct s; cbn [includes]; rewrite H; reflexivity. Qed.

Lemma cleanup_torn_down (b : bool) (s : State) :
  torn_down (cleanupAfterErrorOrClose b s)
  /\ kept (cleanupAfterErrorOrClose b s) = kept s.
Proof.
  unfold torn_down, kept, cleanupAfterErrorOrClose, stopPeriodicImageSending, clearInterval,
    cleanupAudioNodes, clearAudioQueueAndStopPlayback, updateStatus.
  open_state s. simpl.
  destruct rec, timer as [id|], sess; simpl; repeat case_match; simpl; split_and!; reflexivity.
Qed.

Lemma cleanup_status (b : bool) (s : State) :
  recordingStatus (cleanupAfterErrorOrClose b s)
  = if negb b
       && negb (includes (toLowerCase (fst (recordingStatus s))) "error")
       && negb (includes (toLowerCase (fst (recordingStatus s))) "disconnect")
       && negb (String.eqb (fst (recordingStatus s)) "Call ended.")
    then (READY, false) else recordingStatus s.
Proof.
  unfold cleanupAfterErrorOrClose, stopPeriodicImageSending, clearInterval,
    cleanupAudioNodes, clearAudioQueueAndStopPlayback, updateStatus.
  open_state s. simpl.
  destruct rec, timer as [id|], sess; simpl; destruct b; simpl; try reflexivity;
    destruct (negb (includes (toLowerCase status.1) "error")); simpl; try reflexivity;
    destruct (negb (includes (toLowerCase status.1) "disconnect")); simpl; try reflexivity;
    destruct (status.1 =? "Call ended.")%string; reflexivity.
Qed.

(** X11: Closing: the status line is the one [onclose] chose (the cleanup never
    replaces it), it is an error only for an unclean close while
    recording, and the call state is reset while the sources already
    handed to the audio output are left alone. *)
Theorem onclose_outcome (code : N) (wasClean : bool) (s : State) :
  recordingStatus (onclose code wasClean s) = close_status code wasClean (isRecording s)
  /\ torn_down (onclose code wasClean s)
  /\ kept (onclose code wasClean s) = kept s.
Proof.
  unfold onclose.
  set (s1 := if negb wasClean && isRecording s then _ else _).
  assert (H1 : recordingStatus s1 = close_status code wasClean (isRecording s)
               /\ kept s1 = kept s).
  { unfold s1, close_status, updateStatus.
    destruct (negb wasClean && isRecording s); [split; reflexivity|].
    destruct (code =? 1000)%N, (isRecording s); split; reflexivity. }
  destruct H1 as [Hst Hk].
  destruct (cleanup_torn_down false s1) as [Ht Hk'].
  split; [|split; [exact Ht | congruence]].
  rewrite cleanup_status, Hst. unfold close_status.
  destruct (negb wasClean && isRecording s).
  { cbn [fst negb andb]. rewrite (includes_prefix _ "disconnect") by reflexivity.
    now rewrite andb_false_r. }
  destruct (code =? 1000)%N.
  - destruct (isRecording s); vm_compute; reflexivity.
  - cbn [fst negb andb]. rewrite (includes_prefix _ "disconnect") by reflexivity.
    now rewrite andb_false_r.
Qed.

(** X12: A rejected connection: the call state is reset, and the status line
    ends as the plain notice "Waiting for connection setup...", not as an
    error: the failure message set by [connectToGemini] is replaced when
    [startRecording] resumes. *)
Theorem connect_rejected_outcome (message : string) (s : State) :
  (connect_rejected message s).2 = Done
  /\ recordingStatus (connect_rejected message s).1
     = ("Waiting for connection setup...", false)
  /\ torn_down (connect_rejected message s).1
  /\ kept (connect_rejected message s).1 = kept s.
Proof.
  unfold connect_rejected.
  set (s1 := updateStatus _ true s).
  destruct (cleanup_torn_down true s1) as [Ht Hk].
  set (s2 := cleanupAfterErrorOrClose true s1) in *.
  destruct Ht as (Hr & Hs & Hc & Hn & Hq & Hp & Hi).
  unfold startRecording_connected. cbn [negb orb fst snd]. rewrite Hc. cbn [negb].
  split; [reflexivity|]. split; [reflexivity|].
  split.
  - unfold torn_down. cbn [fst]. split_and!; [reflexivity | exact Hs | exact Hc | exact Hn | exact Hq | exact Hp | exact Hi].
  - transitivity (kept s2); [reflexivity|]. rewrite Hk. reflexivity.
Qed.

(** X13: A socket error followed by the close of the socket: the error status
    is replaced by the close status, which is then not an error. *)
Theorem error_then_close (message : string) (code : N) (wasClean : bool) (s : State) :
  recordingStatus (onerror message s) = ("WebSocket Error: " +:+ message, true)
  /\ torn_down (onerror message s)
  /\ recordingStatus (onclose code wasClean (onerror message s))
     = (if (code =? 1000)%N then "Call ended."
        else "Disconnected (Code: " +:+ decimal code +:+ ")", false).
Proof.
  unfold onerror. set (s1 := updateStatus _ true s).
  destruct (cleanup_torn_down true s1) as [Ht _].
  split; [rewrite cleanup_status; reflexivity|]. split; [exact Ht|].
  destruct Ht as (Hr & _). unfold onclose. rewrite Hr, andb_false_r. cbn [negb andb].
  rewrite cleanup_status. rewrite andb_true_r.
  destruct (code =? 1000)%N; [vm_compute; reflexivity|].
  cbn [fst negb andb updateStatus set_recordingStatus recordingStatus].
  rewrite (includes_prefix _ "disconnect") by reflexivity.
  now rewrite andb_false_r.
Qed.

Lemma stopRecording_fields (s : State) :
  isRecording (stopRecording s) = false
  /\ audioWorkletNode (stopRecording s) = false
  /\ session (stopRecording s) = session s
  /\ closeCalls (stopRecording s)
     = closeCalls s ++ match session s with Some sess => [sess] | None => [] end
  /\ transmitted (stopRecording s) = transmitted s
  /\ recordingStatus (stopRecording s)
     = match session s with
       | Some _ => ("Ending call...", false)
       | None => if isRecording s then (READY, false) else recordingStatus s
       end.
Proof.
  unfold stopRecording, stopPeriodicImageSending, clearInterval, cleanupAudioNodes,
    session_close, updateStatus.
  open_state s. simpl.
  destruct rec, timer as [id|], sess; simpl; rewrite ?app_nil_r; split_and!; reflexivity.
Qed.

(** X14: Hanging up: [stopRecording] calls [close] once on the session it
    holds, and the close with code 1000 that follows always ends in the
    status "Call ended.", with the call state reset. *)
Theorem hang_up (wasClean : bool) (s : State) :
  closeCalls (stopRecording s)
  = closeCalls s ++ match session s with Some sess => [sess] | None => [] end
  /\ recordingStatus (onclose 1000 wasClean (stopRecording s)) = ("Call ended.", false)
  /\ torn_down (onclose 1000 wasClean (stopRecording s))
  /\ closeCalls (onclose 1000 wasClean (stopRecording s)) = closeCalls (stopRecording s)
  /\ transmitted (onclose 1000 wasClean (stopRecording s)) = transmitted s.
Proof.
  destruct (stopRecording_fields s) as (Hr & _ & _ & Hc & Htx & _).
  split; [exact Hc|]. unfold onclose. rewrite Hr, andb_false_r. cbn [negb andb N.eqb Pos.eqb].
  set (s1 := updateStatus "Call ended." false (stopRecording s)).
  destruct (cleanup_torn_down false s1) as [Ht Hk].
  split; [rewrite cleanup_status; vm_compute; reflexivity|].
  split; [exact Ht|].
  unfold kept in Hk. injection Hk as _ _ _ Htx' Hc' _ _ _ _.
  split; [exact Hc' | rewrite Htx'; exact Htx].
Qed.

(** X15: A file of a type that is not accepted, and a file that cannot be read,
    both end as a removal: the attachment held before is dropped and the
    error status is replaced by the notice of the removal. *)
Theorem rejected_image_is_removed (mimeType_ : string) (s : State) :
  mimeType_ ∉ validTypes ->
  handleImageUpload (Some mimeType_) s = removeImage s
  /\ reader_onerror s = removeImage s
  /\ currentImageBase64 (removeImage s) = None
  /\ currentImageMimeType (removeImage s) = None
  /\ snd (recordingStatus (removeImage s)) = false.
Proof.
  intros Hbad. unfold handleImageUpload. rewrite bool_decide_eq_false_2 by exact Hbad.
  split_and!; reflexivity.
Qed.

Lemma rejected_image_is_removed_witness :
  ("image/gif" ∉ validTypes)
  /\ handleImageUpload (Some "image/gif") (run call_with_image initial)
     = removeImage (run call_with_image initial).
Proof.
  assert (Hbad : "image/gif" ∉ validTypes) by (apply (bool_decide_eq_false_1 _); vm_compute; reflexivity).
  split; [exact Hbad|].
  apply (rejected_image_is_removed "image/gif" (run call_with_image initial) Hbad).
Defined.

Lemma after_comma_aux_app (header rest : string) :
  ","%char ∉ list_ascii_of_string header ->
  after_comma_aux (header +:+ rest) = after_comma_aux rest.
Proof.
  induction header as [|c header IH]; intros H; [reflexivity|].
  simpl in *. apply not_elem_of_cons in H as [Hc H].
  destruct (Ascii.eqb_spec c ","); [congruence|]. now apply IH.
Qed.

Lemma after_comma_aux_none (header : string) :
  ","%char ∉ list_ascii_of_string header -> after_comma_aux header = None.
Proof.
  induction header as [|c header IH]; intros H; [reflexivity|].
  simpl in *. apply not_elem_of_cons in H as [Hc H].
  destruct (Ascii.eqb_spec c ","); [congruence|]. now apply IH.
Qed.

(** X16: The attachment is the text behind the first comma of the data URL
    (the whole text when it has no comma), and that text is what
    [sendPeriodicImageData] transmits, with the MIME type of the file. *)
Theorem image_payload_sent (header payload mimeType_ : string) (sess : Session) (s : State) :
  ","%char ∉ list_ascii_of_string header ->
  payload <> EmptyString -> mimeType_ <> EmptyString ->
  session s = Some sess -> isRecording s = true -> isSetupComplete s = true ->
  currentImageBase64 (reader_onload (header +:+ "," +:+ payload) mimeType_ s) = Some payload
  /\ currentImageBase64 (reader_onload header mimeType_ s) = Some header
  /\ transmitted (sendPeriodicImageData
                    (reader_onload (header +:+ "," +:+ payload) mimeType_ s))
     = transmitted s ++ [(sess, {| data := payload; mimeType := mimeType_ |})].
Proof.
  intros Hh Hp Hm Hs Hr Hc.
  assert (H1 : after_comma (header +:+ "," +:+ payload) = payload).
  { unfold after_comma. rewrite after_comma_aux_app by exact Hh. reflexivity. }
  assert (H2 : after_comma header = header).
  { unfold after_comma. now rewrite after_comma_aux_none. }
  unfold reader_onload, sendPeriodicImageData, updateStatus. simpl.
  rewrite H1, H2, Hs, Hr, Hc.
  destruct payload; [congruence|]. destruct mimeType_; [congruence|].
  split_and!; reflexivity.
Qed.

Lemma image_payload_sent_witness :
  transmitted (sendPeriodicImageData
                 (reader_onload ("data:image/png;base64" +:+ "," +:+ "iVBORw0KGgo=")
                    "image/png" (run call_with_image initial)))
  = transmitted (run call_with_image initial)
      ++ [(1, {| data := "iVBORw0KGgo="; mimeType := "image/png" |})].
Proof.
  apply (image_payload_sent "data:image/png;base64" "iVBORw0KGgo=" "image/png" 1
           (run call_with_image initial)).
  - apply (bool_decide_eq_false_1 _). vm_compute. reflexivity.
  - discriminate.
  - discriminate.
  - reflexivity.
  - reflexivity.
  - reflexivity.
Defined.

(** X17: When the worklet module cannot be loaded, [initializeAudioSystem]
    answers [false] with an error status but keeps the context it has
    created; every later call then answers [true] at once and changes
    nothing, whatever the platform would answer. *)
Theorem initializeAudioSystem_after_failed_module (pf : AudioPlatform) (s : State) :
  audioContext s = None ->
  create_ok pf = true ->
  created_suspended pf && negb (resume_ok pf) = false ->
  addModule_ok pf = false ->
  exists s1,
    initializeAudioSystem pf s = (s1, false)
    /\ recordingStatus s1 = ("Error loading audio processor.", true)
    /\ audioContext s1 = Some running
    /\ forall pf', initializeAudioSystem pf' s1 = (s1, true).
Proof.
  intros Hctx Hc Hr Hm. unfold initializeAudioSystem at 1.
  rewrite Hctx, Hc, Hr, Hm. cbn [negb]. eexists. split; [reflexivity|].
  split_and!; reflexivity.
Qed.

Lemma initializeAudioSystem_after_failed_module_witness :
  exists s1,
    initializeAudioSystem
      {| create_ok := true; created_suspended := true; resume_ok := true;
         addModule_ok := false |} initial = (s1, false)
    /\ toggleRecording all_ok s1
       = startRecording (set_isRecording true s1).
Proof.
  destruct (initializeAudioSystem_after_failed_module
              {| create_ok := true; created_suspended := true; resume_ok := true;
                 addModule_ok := false |} initial eq_refl eq_refl eq_refl eq_refl)
    as (s1 & Hinit & Hst & Hctx & Hnext).
  exists s1. split; [exact Hinit|].
  unfold toggleRecording. rewrite (Hnext all_ok). cbn [negb].
  injection Hinit as <-. reflexivity.
Defined.

Lemma call_state_playNext_from (queue : list ArrayBuffer) (s : State) :
  call_state (playNext_from queue s) = call_state s.
Proof.
  revert s. induction queue as [|a rest IH]; intros s; simpl.
  - repeat case_match; reflexivity.
  - repeat case_match; try rewrite IH; reflexivity.
Qed.

Lemma call_state_enqueueAudio (a : ArrayBuffer) (s : State) :
  call_state (enqueueAudio a s) = call_state s.
Proof.
  unfold enqueueAudio, playNextInQueue. case_match; [|reflexivity].
  now rewrite call_state_playNext_from.
Qed.

Lemma call_state_on_parts (ps : list Part) (s : State) :
  call_state (on_parts ps s) = call_state s.
Proof.
  unfold on_parts. revert s. induction ps as [|part ps IH]; intros s; simpl; [reflexivity|].
  rewrite IH. unfold on_part. repeat case_match; try reflexivity.
  apply call_state_enqueueAudio.
Qed.

(** X18: An inbound message that does not acknowledge the setup changes only
    the playback queue, the audio output and the status line: the session,
    the recording flag, the timer and what was sent stay as they are, and
    no [startRecording] is resumed. *)
Theorem media_message_keeps_call (response : LiveServerMessage) (s : State) :
  setupComplete response = false ->
  (onmessage response s).2 = Done
  /\ call_state (onmessage response s).1 = call_state s.
Proof.
  intros Hs. unfold onmessage. rewrite Hs.
  set (s2 := match parts response with Some ps => on_parts ps s | None => s end).
  assert (H2 : call_state s2 = call_state s).
  { unfold s2. destruct (parts response); [apply call_state_on_parts | reflexivity]. }
  split; [reflexivity|]. cbn [fst]. rewrite <- H2.
  destruct (turnComplete response); [|reflexivity].
  unfold on_turnComplete. case_match; reflexivity.
Qed.

Lemma media_message_keeps_call_witness :
  call_state (handle (audio_message "AgM=") (run one_chunk_playing initial))
  = call_state (run one_chunk_playing initial).
Proof.
  apply (media_message_keeps_call
           {| setupComplete := false;
              parts := Some [ {| text := None; inlineData := Some "AgM=" |} ];
              turnComplete := false |} (run one_chunk_playing initial) eq_refl).
Defined.

(** *** The interval handle *)

Lemma timer_held_timers (s s' : State) : timers s' = timers s -> timer_held s -> timer_held s'.
Proof. unfold timers, timer_held, held_timers. intros [= -> ->]. auto. Qed.

Lemma timers_call_state (s s' : State) : call_state s' = call_state s -> timers s' = timers s.
Proof. unfold call_state, timers. intros [= _ _ _ _ _ _ _ -> -> _ _ _ _]. reflexivity. Qed.

Ltac frame_timers :=
  intros;
  cbv beta iota delta
    [toggleRecording initializeAudioSystem startRecording
     startRecording_begin startRecording_connected connectToGemini connect_resolved
     getUserMedia_rejected sendPeriodicImageData
     sendRealtimeInput cleanupAudioNodes
     clearAudioQueueAndStopPlayback session_close updateStatus
     removeImage handleImageUpload reader_onload reader_onerror onopen
     port_onmessage interval_tick audioContext_statechange on_turnComplete];
  repeat (first [progress cbv zeta | case_match; simplify_eq]); reflexivity.

Lemma timers_initialize pf s : timers (initializeAudioSystem pf s).1 = timers s.
Proof. frame_timers. Qed.
Lemma timers_startRecording s : timers (startRecording s).1 = timers s.
Proof. frame_timers. Qed.
Lemma timers_startRecording_begin s : timers (startRecording_begin s).1 = timers s.
Proof. frame_timers. Qed.
Lemma timers_startRecording_connected b s : timers (startRecording_connected b s).1 = timers s.
Proof. frame_timers. Qed.
Lemma timers_connect_resolved h s : timers (connect_resolved h s).1 = timers s.
Proof. frame_timers. Qed.
Lemma timers_getUserMedia_rejected m s : timers (getUserMedia_rejected m s) = timers s.
Proof. frame_timers. Qed.
Lemma timers_port_onmessage m s : timers (port_onmessage m s) = timers s.
Proof. frame_timers. Qed.
Lemma timers_interval_tick i s : timers (interval_tick i s) = timers s.
Proof. frame_timers. Qed.
Lemma timers_handleImageUpload f s : timers (handleImageUpload f s) = timers s.
Proof. frame_timers. Qed.
Lemma timers_statechange c s : timers (audioContext_statechange c s) = timers s.
Proof. frame_timers. Qed.
Lemma timers_on_turnComplete s : timers (on_turnComplete s) = timers s.
Proof. frame_timers. Qed.

Lemma timers_playNext_resume pf s : timers (playNext_resume pf s) = timers s.
Proof.
  unfold playNext_resume. destruct (pendingPlayback s) as [|a pending]; [reflexivity|].
  pose proof (timers_initialize pf (set_pendingPlayback pending s)) as Hinit.
  destruct (initializeAudioSystem pf (set_pendingPlayback pending s)) as [s1 ready].
  simpl in Hinit. change (timers (set_pendingPlayback pending s)) with (timers s) in Hinit.
  destruct (negb ready || negb (bool_decide (is_Some (audioContext s1)))); [exact Hinit|].
  destruct (Int16Array_of_buffer a); [exact Hinit|].
  unfold playNextInQueue.
  rewrite (timers_call_state _ _ (call_state_playNext_from _ _)). exact Hinit.
Qed.

Lemma timers_source_onended i s : timers (source_onended i s) = timers s.
Proof.
  unfold source_onended, playNextInQueue. destruct (playing s !! i); [|reflexivity].
  now rewrite (timers_call_state _ _ (call_state_playNext_from _ _)).
Qed.

Lemma timer_held_start (s : State) :
  timer_held s -> timer_held (startPeriodicImageSending s).
Proof.
  unfold timer_held, held_timers, startPeriodicImageSending, stopPeriodicImageSending,
    clearInterval, setInterval, sendPeriodicImageData, sendRealtimeInput.
  open_state s. simpl.
  destruct timer as [id|], sess, setup, rec, img as [[|? ?]|], mime as [[|? ?]|];
    simpl; intros ->; rewrite ?filter_ne_singleton; reflexivity.
Qed.

Lemma timer_held_cleanup (b : bool) (s : State) :
  timer_held s -> timer_held (cleanupAfterErrorOrClose b s).
Proof.
  unfold timer_held, held_timers, cleanupAfterErrorOrClose, stopPeriodicImageSending,
    clearInterval, cleanupAudioNodes, clearAudioQueueAndStopPlayback, updateStatus.
  open_state s. simpl. destruct rec, timer as [id|], sess; simpl; intros ->;
    rewrite ?filter_ne_singleton;
    repeat (match goal with |- context [if ?c then _ else _] => destruct c; simpl end);
    reflexivity.
Qed.

Lemma timer_held_stopRecording (s : State) : timer_held s -> timer_held (stopRecording s).
Proof.
  unfold timer_held, held_timers, stopRecording, stopPeriodicImageSending, clearInterval,
    cleanupAudioNodes, session_close, updateStatus.
  open_state s. simpl. destruct rec, timer as [id|], sess; simpl; intros ->;
    rewrite ?filter_ne_singleton; reflexivity.
Qed.

Lemma timer_held_toggleRecording pf s : timer_held s -> timer_held (toggleRecording pf s).1.
Proof.
  intros H. unfold toggleRecording.
  pose proof (timers_initialize pf s) as Hinit.
  destruct (initializeAudioSystem pf s) as [s1 ready]. simpl in Hinit.
  assert (H1 : timer_held s1) by (eapply timer_held_timers; eauto).
  destruct ready; simpl; [|exact H1].
  destruct (isRecording s1); simpl.
  - now apply timer_held_stopRecording.
  - eapply timer_held_timers; [apply timers_startRecording|exact H1].
Qed.

Lemma timer_held_on_setupComplete s : timer_held s -> timer_held (on_setupComplete s).1.
Proof.
  intros H. unfold on_setupComplete. cbv zeta.
  set (s' := updateStatus READY false (set_isSetupComplete true s)).
  assert (H' : timer_held s') by exact H.
  destruct (isRecording s').
  - eapply timer_held_timers; [apply timers_startRecording_begin|exact H'].
  - destruct (truthy (currentImageBase64 s')); [|exact H'].
    now apply timer_held_start.
Qed.

Lemma timer_held_onmessage r s : timer_held s -> timer_held (onmessage r s).1.
Proof.
  intros H. unfold onmessage.
  assert (H1 : timer_held (if setupComplete r then on_setupComplete s else (s, None)).1).
  { destruct (setupComplete r); [now apply timer_held_on_setupComplete | exact H]. }
  destruct (if setupComplete r then on_setupComplete s else (s, None)) as [s1 resume].
  simpl in H1.
  set (s2 := match parts r with Some ps => on_parts ps s1 | None => s1 end).
  assert (H2 : timer_held s2).
  { unfold s2. destruct (parts r); [|exact H1].
    eapply timer_held_timers; [|exact H1].
    apply timers_call_state, call_state_on_parts. }
  set (s3 := if turnComplete r then on_turnComplete s2 else s2).
  assert (H3 : timer_held s3).
  { unfold s3. destruct (turnComplete r); [|exact H2].
    eapply timer_held_timers; [apply timers_on_turnComplete|exact H2]. }
  destruct resume as [[]|]; simpl; try exact H3.
  eapply timer_held_timers; [apply timers_startRecording_connected|exact H3].
Qed.

Lemma timer_held_handle (e : event) (s : State) : timer_held s -> timer_held (handle e s).
Proof.
  intros H. destruct e; cbn [handle].
  - now apply timer_held_toggleRecording.
  - exact H.
  - eapply timer_held_timers; [apply timers_handleImageUpload|exact H].
  - exact H.
  - exact H.
  - eapply timer_held_timers; [apply timers_connect_resolved|exact H].
  - unfold connect_rejected.
    eapply timer_held_timers; [apply timers_startRecording_connected|].
    now apply timer_held_cleanup.
  - unfold getUserMedia_resolved. apply timer_held_start. cbv zeta.
    case_match; exact H.
  - eapply timer_held_timers; [apply timers_getUserMedia_rejected|exact H].
  - exact H.
  - now apply timer_held_onmessage.
  - unfold onerror. now apply timer_held_cleanup.
  - unfold onclose. apply timer_held_cleanup. repeat case_match; exact H.
  - destruct (audioWorkletNode s); [|exact H].
    eapply timer_held_timers; [apply timers_port_onmessage|exact H].
  - destruct (0 <? strayNodes s); [|exact H].
    eapply timer_held_timers; [apply timers_port_onmessage|exact H].
  - eapply timer_held_timers; [apply timers_interval_tick|exact H].
  - eapply timer_held_timers; [apply timers_source_onended|exact H].
  - eapply timer_held_timers; [apply timers_playNext_resume|exact H].
  - eapply timer_held_timers; [apply timers_statechange|exact H].
Qed.

(** X19: Whatever happens, the application never leaks an interval: after any
    sequence of events the active intervals are exactly the handle it
    holds, so at most one image timer runs at a time. *)
Theorem no_timer_leak (events : list event) :
  intervals (run events initial) = held_timers (run events initial)
  /\ length (intervals (run events initial)) <= 1.
Proof.
  assert (H : timer_held (run events initial)).
  { unfold run. assert (H0 : timer_held initial) by reflexivity.
    revert H0. generalize initial. induction events as [|e events IH]; intros s Hs.
    - exact Hs.
    - simpl. apply IH. now apply timer_held_handle. }
  split; [exact H|]. rewrite H. unfold held_timers. case_match; simpl; lia.
Qed.

(** *** What is sent *)

Ltac frame_sent :=
  intros;
  cbv beta iota delta
    [toggleRecording initializeAudioSystem stopRecording startRecording
     startRecording_begin startRecording_connected connectToGemini connect_resolved
     getUserMedia_rejected stopPeriodicImageSending clearInterval
     cleanupAudioNodes session_close updateStatus removeImage handleImageUpload
     reader_onload reader_onerror onopen audioContext_statechange on_turnComplete];
  repeat (first [progress cbv zeta | case_match; simplify_eq]); reflexivity.

Lemma sent_toggleRecording pf s : transmitted (toggleRecording pf s).1 = transmitted s.
Proof. frame_sent. Qed.
Lemma sent_startRecording_begin s : transmitted (startRecording_begin s).1 = transmitted s.
Proof. frame_sent. Qed.
Lemma sent_startRecording_connected b s :
  transmitted (startRecording_connected b s).1 = transmitted s.
Proof. frame_sent. Qed.
Lemma sent_connect_resolved h s : transmitted (connect_resolved h s).1 = transmitted s.
Proof. frame_sent. Qed.
Lemma sent_cleanup b s : transmitted (cleanupAfterErrorOrClose b s) = transmitted s.
Proof.
  destruct (cleanup_torn_down b s) as [_ Hk]. unfold kept in Hk.
  now injection Hk as _ _ _ -> _ _ _ _ _.
Qed.
Lemma sent_connect_rejected m s : transmitted (connect_rejected m s).1 = transmitted s.
Proof.
  unfold connect_rejected. now rewrite sent_startRecording_connected, sent_cleanup.
Qed.
Lemma sent_getUserMedia_rejected m s : transmitted (getUserMedia_rejected m s) = transmitted s.
Proof. frame_sent. Qed.
Lemma sent_handleImageUpload f s : transmitted (handleImageUpload f s) = transmitted s.
Proof. frame_sent. Qed.
Lemma sent_onerror m s : transmitted (onerror m s) = transmitted s.
Proof. unfold onerror. now rewrite sent_cleanup. Qed.
Lemma sent_onclose c w s : transmitted (onclose c w s) = transmitted s.
Proof. unfold onclose. rewrite sent_cleanup. repeat case_match; reflexivity. Qed.
Lemma sent_statechange c s : transmitted (audioContext_statechange c s) = transmitted s.
Proof. frame_sent. Qed.

Lemma sent_call_state (s s' : State) :
  call_state s' = call_state s -> transmitted s' = transmitted s.
Proof. unfold call_state. intros [= _ _ _ _ _ _ _ _ _ _ -> _ _]. reflexivity. Qed.

Lemma sent_initialize pf s :
  transmitted (initializeAudioSystem pf s).1 = transmitted s.
Proof. frame_sent. Qed.

Lemma sent_playNext_resume pf s : transmitted (playNext_resume pf s) = transmitted s.
Proof.
  unfold playNext_resume. destruct (pendingPlayback s) as [|a pending]; [reflexivity|].
  pose proof (sent_initialize pf (set_pendingPlayback pending s)) as Hinit.
  destruct (initializeAudioSystem pf (set_pendingPlayback pending s)) as [s1 ready].
  simpl in Hinit.
  destruct (negb ready || negb (bool_decide (is_Some (audioContext s1)))); [exact Hinit|].
  destruct (Int16Array_of_buffer a); [exact Hinit|].
  unfold playNextInQueue.
  rewrite (sent_call_state _ _ (call_state_playNext_from _ _)). exact Hinit.
Qed.

Lemma sent_source_onended i s : transmitted (source_onended i s) = transmitted s.
Proof.
  unfold source_onended, playNextInQueue. destruct (playing s !! i); [|reflexivity].
  now rewrite (sent_call_state _ _ (call_state_playNext_from _ _)).
Qed.

(** [startPeriodicImageSending] sends only while recording on a session. *)
Lemma sent_start (s : State) :
  session s = None \/ isRecording s = false ->
  transmitted (startPeriodicImageSending s) = transmitted s.
Proof.
  unfold startPeriodicImageSending, stopPeriodicImageSending, clearInterval, setInterval,
    sendPeriodicImageData, sendRealtimeInput.
  open_state s. simpl. intros [-> | ->];
    destruct timer as [id|], setup; try destruct sess; try destruct rec; reflexivity.
Qed.

(** The block of [onmessage] for an acknowledged setup never sends: its
    call of [startPeriodicImageSending] is made only while not recording,
    where that function returns at once. *)
Lemma sent_on_setupComplete (s : State) :
  transmitted (on_setupComplete s).1 = transmitted s.
Proof.
  unfold on_setupComplete. cbv zeta.
  set (s' := updateStatus READY false (set_isSetupComplete true s)).
  destruct (isRecording s') eqn:Er.
  - now rewrite sent_startRecording_begin.
  - destruct (truthy (currentImageBase64 s')); [|reflexivity].
    cbn [fst]. rewrite sent_start by (right; exact Er). reflexivity.
Qed.

Lemma sent_onmessage r s : transmitted (onmessage r s).1 = transmitted s.
Proof.
  unfold onmessage.
  assert (H1 : transmitted (if setupComplete r then on_setupComplete s else (s, None)).1
               = transmitted s).
  { destruct (setupComplete r); [apply sent_on_setupComplete | reflexivity]. }
  destruct (if setupComplete r then on_setupComplete s else (s, None)) as [s1 resume].
  simpl in H1.
  set (s2 := match parts r with Some ps => on_parts ps s1 | None => s1 end).
  assert (H2 : transmitted s2 = transmitted s).
  { unfold s2. destruct (parts r); [|exact H1].
    rewrite (sent_call_state _ _ (call_state_on_parts _ _)). exact H1. }
  set (s3 := if turnComplete r then on_turnComplete s2 else s2).
  assert (H3 : transmitted s3 = transmitted s).
  { unfold s3. destruct (turnComplete r); [|exact H2].
    unfold on_turnComplete. case_match; exact H2. }
  destruct resume as [[]|]; simpl; try exact H3.
  rewrite sent_startRecording_connected. exact H3.
Qed.

(** X20: Media leaves the application only on three occasions (the microphone
    being granted, a frame posted by the worklet, a tick of the image
    timer), and on none of them unless a session is held and the recording
    flag is set; no other event ever sends. *)
Theorem sends_only_while_recording (e : event) (s : State) :
  may_send e = false \/ session s = None \/ isRecording s = false ->
  transmitted (handle e s) = transmitted s.
Proof.
  intros H. destruct e; cbn [handle]; cbn [may_send] in H.
  - apply sent_toggleRecording.
  - reflexivity.
  - apply sent_handleImageUpload.
  - reflexivity.
  - reflexivity.
  - apply sent_connect_resolved.
  - apply sent_connect_rejected.
  - destruct H as [H|H]; [discriminate|].
    unfold getUserMedia_resolved. cbv zeta.
    rewrite sent_start by (destruct (audioWorkletNode s); exact H).
    destruct (audioWorkletNode s); reflexivity.
  - apply sent_getUserMedia_rejected.
  - reflexivity.
  - apply sent_onmessage.
  - apply sent_onerror.
  - apply sent_onclose.
  - destruct H as [H|H]; [discriminate|].
    destruct (audioWorkletNode s); [|reflexivity].
    unfold port_onmessage. destruct m; [reflexivity|].
    destruct H as [-> | ->]; [reflexivity|]. destruct (session s); reflexivity.
  - destruct H as [H|H]; [discriminate|].
    destruct (0 <? strayNodes s); [|reflexivity].
    unfold port_onmessage. destruct m; [reflexivity|].
    destruct H as [-> | ->]; [reflexivity|]. destruct (session s); reflexivity.
  - destruct H as [H|H]; [discriminate|].
    unfold interval_tick, sendPeriodicImageData. case_match; [|reflexivity].
    destruct H as [-> | ->]; repeat case_match; try reflexivity.
    rewrite andb_false_r in *. discriminate.
  - apply sent_source_onended.
  - apply sent_playNext_resume.
  - apply sent_statechange.
Qed.

Lemma sends_only_while_recording_witness :
  transmitted (handle microphone_granted (run [image_read "data:,AAAA" "image/png"] initial))
  = [].
Proof.
  apply (sends_only_while_recording microphone_granted
           (run [image_read "data:,AAAA" "image/png"] initial)).
  right. left. reflexivity.
Defined.

(** *** Setting up a call *)



(** X22: A refused microphone ends the recording with an error status, but the
    [catch] neither closes the session nor stops the image timer: a timer
    that was running keeps its handle and stays active, and its ticks send
    nothing since the recording flag is down. *)
Theorem microphone_failure_keeps_timer (message : string) (s : State) :
  isRecording (getUserMedia_rejected message s) = false
  /\ audioWorkletNode (getUserMedia_rejected message s) = false
  /\ recordingStatus (getUserMedia_rejected message s)
     = ("Mic/AudioWorklet error: " +:+ message, true)
  /\ session (getUserMedia_rejected message s) = session s
  /\ closeCalls (getUserMedia_rejected message s) = closeCalls s
  /\ imageSendIntervalId (getUserMedia_rejected message s) = imageSendIntervalId s
  /\ intervals (getUserMedia_rejected message s) = intervals s
  /\ forall id, transmitted (interval_tick id (getUserMedia_rejected message s))
                = transmitted s.
Proof.
  split_and!; try reflexivity. intros id.
  unfold interval_tick, sendPeriodicImageData. case_match; [|reflexivity].
  change (isRecording (getUserMedia_rejected message s)) with false.
  repeat case_match; try reflexivity. rewrite andb_false_r in *. discriminate.
Qed.
End CallFacts.

(** * The audio output across teardown and a failed resume *)
Module OutputFacts.
Import Num TypedArray Base64 App AppSpec CallSpec TimerFacts PlaybackFacts CallFacts.
Local Open Scope nat_scope.

Lemma playable_inv (a : ArrayBuffer) :
  playable a = true -> 2 <= length a /\ exists vs, Int16Array_of_buffer a = Some vs.
Proof.
  unfold playable. intros H. apply andb_true_iff in H as [H1 H2].
  apply Nat.leb_le in H1. apply Int16Array_of_buffer_even in H2 as [vs Hvs]. eauto.
Qed.

(** A playable chunk enqueued while the flag is down, the queue empty and
    the context running starts at once. *)
Lemma enqueue_starts (a : ArrayBuffer) (s : State) :
  audioQueue s = [] -> isPlayingAudio s = false -> audioContext s = Some running ->
  playable a = true ->
  exists src,
    origin src = a
    /\ playing (enqueueAudio a s) = playing s ++ [src]
    /\ started (enqueueAudio a s) = started s ++ [src]
    /\ isPlayingAudio (enqueueAudio a s) = true
    /\ audioQueue (enqueueAudio a s) = [].
Proof.
  intros Hq Hf Hc Hp. destruct (playable_inv a Hp) as (Hlen & vs & Hvs).
  unfold enqueueAudio, playNextInQueue. cbv zeta.
  change (isPlayingAudio (set_audioQueue (audioQueue s ++ [a]) s)) with (isPlayingAudio s).
  rewrite Hf, Hq. cbn [negb app]. cbn [audioQueue set_audioQueue playNext_from].
  replace (length a <? 2) with false by (symmetry; apply Nat.ltb_ge; lia).
  unfold context_running. cbn [audioContext set_audioQueue set_isPlayingAudio].
  rewrite Hc, Hvs. cbn [negb].
  exists {| origin := a;
            channelData := map (fun v => fround (fdiv (of_Z v) (of_Z 32768))) vs |}.
  split_and!; reflexivity.
Qed.

(** X23: A teardown does not stop the source that is sounding: it only empties
    the queue and lowers the flag.  A playable chunk that arrives next is
    therefore started beside it. *)
Theorem teardown_lets_playback_overlap (code : N) (wasClean : bool) (message : string)
    (a : ArrayBuffer) (s : State) :
  audioContext s = Some running -> playable a = true ->
  playing (onclose code wasClean s) = playing s
  /\ playing (onerror message s) = playing s
  /\ (exists src, origin src = a
        /\ playing (enqueueAudio a (onclose code wasClean s)) = playing s ++ [src])
  /\ (exists src, origin src = a
        /\ playing (enqueueAudio a (onerror message s)) = playing s ++ [src]).
Proof.
  intros Hc Hp.
  assert (Hclean : forall b s0,
            audioContext s0 = Some running -> playing s0 = playing s ->
            playing (cleanupAfterErrorOrClose b s0) = playing s
            /\ exists src, origin src = a
                 /\ playing (enqueueAudio a (cleanupAfterErrorOrClose b s0))
                    = playing s ++ [src]).
  { intros b s0 Hc0 Hp0.
    destruct (cleanup_torn_down b s0) as [(_ & _ & _ & _ & Hq & Hf & _) Hk].
    unfold kept in Hk. injection Hk as _ _ Hctx _ _ Hpl _ _ _.
    split; [congruence|].
    destruct (enqueue_starts a (cleanupAfterErrorOrClose b s0) Hq Hf
                ltac:(congruence) Hp) as (src & Ho & Hplay & _).
    exists src. split; [exact Ho|]. rewrite Hplay. congruence. }
  assert (H1 : forall s0, audioContext s0 = Some running -> playing s0 = playing s ->
                 playing (cleanupAfterErrorOrClose false s0) = playing s
                 /\ exists src, origin src = a
                      /\ playing (enqueueAudio a (cleanupAfterErrorOrClose false s0))
                         = playing s ++ [src]) by (intros; now apply Hclean).
  destruct (Hclean true (updateStatus ("WebSocket Error: " +:+ message) true s) Hc eq_refl)
    as [He1 He2].
  assert (Hc1 : playing (onclose code wasClean s) = playing s
                /\ exists src, origin src = a
                     /\ playing (enqueueAudio a (onclose code wasClean s))
                        = playing s ++ [src]).
  { unfold onclose. apply H1; repeat case_match; assumption || reflexivity. }
  destruct Hc1 as [Hc1 Hc2]. split_and!; assumption.
Qed.

Lemma teardown_lets_playback_overlap_witness :
  length (playing (run one_chunk_playing initial)) = 1
  /\ exists src,
       playing (enqueueAudio [Byte.x02; Byte.x03]
                  (onclose 1006 false (run one_chunk_playing initial)))
       = playing (run one_chunk_playing initial) ++ [src].
Proof.
  split; [reflexivity|].
  destruct (teardown_lets_playback_overlap 1006 false EmptyString [Byte.x02; Byte.x03]
              (run one_chunk_playing initial) eq_refl eq_refl)
    as (_ & _ & (src & _ & Hplay) & _).
  exists src. exact Hplay.
Defined.

Lemma initialize_fields (pf : AudioPlatform) (s : State) :
  playback (initializeAudioSystem pf s).1 = playback s.
Proof. unfold initializeAudioSystem. repeat case_match; reflexivity. Qed.

Lemma initialize_depends (pf : AudioPlatform) (s s' : State) :
  audioContext s' = audioContext s ->
  (initializeAudioSystem pf s').2 = (initializeAudioSystem pf s).2.
Proof.
  unfold initializeAudioSystem. intros ->. repeat case_match; simplify_eq; reflexivity.
Qed.

(** X24: A chunk taken from the queue while the audio context is not running
    waits for [initializeAudioSystem]; when that fails the chunk is put
    back at the head of the queue, so the queue is as before, the flag is
    down and the status is an error: no audio is lost. *)
Theorem failed_resume_restores_queue (pf : AudioPlatform) (a : ArrayBuffer)
    (rest : list ArrayBuffer) (s : State) :
  audioQueue s = a :: rest -> 2 <= length a ->
  context_running s = false -> pendingPlayback s = [] ->
  (initializeAudioSystem pf s).2 = false ->
  pendingPlayback (playNextInQueue s) = [a]
  /\ audioQueue (playNextInQueue s) = rest
  /\ isPlayingAudio (playNextInQueue s) = true
  /\ audioQueue (playNext_resume pf (playNextInQueue s)) = a :: rest
  /\ pendingPlayback (playNext_resume pf (playNextInQueue s)) = []
  /\ isPlayingAudio (playNext_resume pf (playNextInQueue s)) = false
  /\ started (playNext_resume pf (playNextInQueue s)) = started s
  /\ recordingStatus (playNext_resume pf (playNextInQueue s))
     = ("AudioContext not available for playback.", true).
Proof.
  intros Hq Hlen Hctx Hpend Hfail.
  assert (Hnext : playNextInQueue s
                  = set_pendingPlayback [a] (set_audioQueue rest (set_isPlayingAudio true s))).
  { unfold playNextInQueue. rewrite Hq. cbn [playNext_from]. cbv zeta.
    replace (length a <? 2) with false by (symmetry; apply Nat.ltb_ge; lia).
    change (context_running (set_audioQueue rest (set_isPlayingAudio true s)))
      with (context_running s).
    rewrite Hctx. cbn [negb].
    change (pendingPlayback (set_audioQueue rest (set_isPlayingAudio true s)))
      with (pendingPlayback s).
    rewrite Hpend. reflexivity. }
  rewrite Hnext. split_and!; try reflexivity;
    unfold playNext_resume; cbn [pendingPlayback set_pendingPlayback];
    set (s0 := set_pendingPlayback [] _);
    pose proof (initialize_depends pf s s0 eq_refl) as Hans;
    pose proof (initialize_fields pf s0) as Hf;
    destruct (initializeAudioSystem pf s0) as [s1 ready]; simpl in Hans, Hf;
    rewrite Hfail in Hans; subst ready; cbn [negb orb];
    unfold playback in Hf; injection Hf as Hf1 Hf2 Hf3 Hf4 Hf5; simpl; congruence.
Qed.

Lemma failed_resume_restores_queue_witness :
  audioQueue (run chunk_put_back initial) = [[Byte.x00; Byte.x01]]
  /\ audioQueue (playNext_resume no_audio (playNextInQueue (run chunk_put_back initial)))
     = [[Byte.x00; Byte.x01]]
  /\ started (playNext_resume no_audio (playNextInQueue (run chunk_put_back initial))) = [].
Proof.
  assert (Hq : audioQueue (run chunk_put_back initial) = [Byte.x00; Byte.x01] :: [])
    by reflexivity.
  split; [exact Hq|].
  destruct (failed_resume_restores_queue no_audio [Byte.x00; Byte.x01] []
              (run chunk_put_back initial) Hq ltac:(simpl; lia) eq_refl eq_refl eq_refl)
    as (_ & _ & _ & Hback & _ & _ & Hstarted & _).
  split; [exact Hback | exact Hstarted].
Defined.
End OutputFacts.

(** * Worklet nodes that a later grant overwrites *)
Module StrayFacts.
Import TypedArray AudioProcessor Base64 App AppSpec CallSpec StraySpec TimerFacts CallFacts.
Local Open Scope nat_scope.

Ltac frame_stray :=
  intros;
  cbv beta iota delta
    [toggleRecording initializeAudioSystem stopRecording startRecording
     startRecording_begin startRecording_connected connectToGemini connect_resolved
     getUserMedia_rejected startPeriodicImageSending stopPeriodicImageSending
     sendPeriodicImageData sendRealtimeInput setInterval clearInterval
     cleanupAudioNodes session_close updateStatus removeImage handleImageUpload
     reader_onload reader_onerror onopen port_onmessage interval_tick
     audioContext_statechange on_setupComplete on_turnComplete];
  repeat (first [progress cbv zeta | case_match; simplify_eq]); reflexivity.

Lemma stray_toggleRecording pf s : strayNodes (toggleRecording pf s).1 = strayNodes s.
Proof. frame_stray. Qed.
Lemma stray_initialize pf s : strayNodes (initializeAudioSystem pf s).1 = strayNodes s.
Proof. frame_stray. Qed.
Lemma stray_startRecording_connected b s :
  strayNodes (startRecording_connected b s).1 = strayNodes s.
Proof. frame_stray. Qed.
Lemma stray_connect_resolved h s : strayNodes (connect_resolved h s).1 = strayNodes s.
Proof. frame_stray. Qed.
Lemma stray_getUserMedia_rejected m s : strayNodes (getUserMedia_rejected m s) = strayNodes s.
Proof. frame_stray. Qed.
Lemma stray_handleImageUpload f s : strayNodes (handleImageUpload f s) = strayNodes s.
Proof. frame_stray. Qed.
Lemma stray_start s : strayNodes (startPeriodicImageSending s) = strayNodes s.
Proof. frame_stray. Qed.
Lemma stray_on_setupComplete s : strayNodes (on_setupComplete s).1 = strayNodes s.
Proof. frame_stray. Qed.
Lemma stray_on_turnComplete s : strayNodes (on_turnComplete s) = strayNodes s.
Proof. frame_stray. Qed.
Lemma stray_port_onmessage m s : strayNodes (port_onmessage m s) = strayNodes s.
Proof. frame_stray. Qed.
Lemma stray_interval_tick i s : strayNodes (interval_tick i s) = strayNodes s.
Proof. frame_stray. Qed.
Lemma stray_statechange c s : strayNodes (audioContext_statechange c s) = strayNodes s.
Proof. frame_stray. Qed.

Lemma stray_call_state (s s' : State) :
  call_state s' = call_state s -> strayNodes s' = strayNodes s.
Proof. unfold call_state. intros [= _ _ _ _ _ _ _ _ _ _ _ _ ->]. reflexivity. Qed.

Lemma stray_cleanup b s : strayNodes (cleanupAfterErrorOrClose b s) = strayNodes s.
Proof.
  destruct (cleanup_torn_down b s) as [_ Hk]. unfold kept in Hk.
  now injection Hk as _ _ _ _ _ _ _ _ ->.
Qed.

Lemma stray_onmessage r s : strayNodes (onmessage r s).1 = strayNodes s.
Proof.
  unfold onmessage.
  assert (H1 : strayNodes (if setupComplete r then on_setupComplete s else (s, None)).1
               = strayNodes s).
  { destruct (setupComplete r); [apply stray_on_setupComplete | reflexivity]. }
  destruct (if setupComplete r then on_setupComplete s else (s, None)) as [s1 resume].
  simpl in H1.
  set (s2 := match parts r with Some ps => on_parts ps s1 | None => s1 end).
  assert (H2 : strayNodes s2 = strayNodes s).
  { unfold s2. destruct (parts r); [|exact H1].
    rewrite (stray_call_state _ _ (call_state_on_parts _ _)). exact H1. }
  set (s3 := if turnComplete r then on_turnComplete s2 else s2).
  assert (H3 : strayNodes s3 = strayNodes s).
  { unfold s3. destruct (turnComplete r); [|exact H2].
    rewrite stray_on_turnComplete. exact H2. }
  destruct resume as [[]|]; simpl; try exact H3.
  rewrite stray_startRecording_connected. exact H3.
Qed.

Lemma stray_playNext_resume pf s : strayNodes (playNext_resume pf s) = strayNodes s.
Proof.
  unfold playNext_resume. destruct (pendingPlayback s) as [|a pending]; [reflexivity|].
  pose proof (stray_initialize pf (set_pendingPlayback pending s)) as Hinit.
  destruct (initializeAudioSystem pf (set_pendingPlayback pending s)) as [s1 ready].
  simpl in Hinit.
  destruct (negb ready || negb (bool_decide (is_Some (audioContext s1)))); [exact Hinit|].
  destruct (Int16Array_of_buffer a); [exact Hinit|].
  unfold playNextInQueue.
  rewrite (stray_call_state _ _ (call_state_playNext_from _ _)). exact Hinit.
Qed.

Lemma stray_source_onended i s : strayNodes (source_onended i s) = strayNodes s.
Proof.
  unfold source_onended, playNextInQueue. destruct (playing s !! i); [|reflexivity].
  now rewrite (stray_call_state _ _ (call_state_playNext_from _ _)).
Qed.

Lemma stray_getUserMedia_resolved s :
  strayNodes (getUserMedia_resolved s)
  = if audioWorkletNode s then S (strayNodes s) else strayNodes s.
Proof.
  unfold getUserMedia_resolved. cbv zeta. rewrite stray_start.
  destruct (audioWorkletNode s); reflexivity.
Qed.

(** No event releases a node gone astray. *)
Lemma stray_handle (e : event) (s : State) : strayNodes s <= strayNodes (handle e s).
Proof.
  destruct e; cbn [handle].
  - now rewrite stray_toggleRecording.
  - reflexivity.
  - now rewrite stray_handleImageUpload.
  - reflexivity.
  - reflexivity.
  - now rewrite stray_connect_resolved.
  - unfold connect_rejected. now rewrite stray_startRecording_connected, stray_cleanup.
  - rewrite stray_getUserMedia_resolved. destruct (audioWorkletNode s); lia.
  - now rewrite stray_getUserMedia_rejected.
  - reflexivity.
  - now rewrite stray_onmessage.
  - unfold onerror. now rewrite stray_cleanup.
  - unfold onclose. rewrite stray_cleanup. repeat case_match; reflexivity.
  - destruct (audioWorkletNode s); [|reflexivity]. now rewrite stray_port_onmessage.
  - destruct (0 <? strayNodes s); [|reflexivity]. now rewrite stray_port_onmessage.
  - now rewrite stray_interval_tick.
  - now rewrite stray_source_onended.
  - now rewrite stray_playNext_resume.
  - now rewrite stray_statechange.
Qed.

Lemma stray_run (events : list event) :
  forall s : State, strayNodes s <= strayNodes (run events s).
Proof.
  unfold run. induction events as [|e events IH]; intros s; [reflexivity|].
  cbn [foldl]. etransitivity; [apply (stray_handle e)|apply IH].
Qed.

(** X25: a worklet node that is still held when a later [startRecording]
    gets its microphone is overwritten and goes astray; no event that
    follows releases it, the cleanup included, and whenever a session is
    held and the recording flag is set its frames are sent like those of
    the node that is held. *)
Theorem overwritten_node_keeps_sending (events : list event) (buffer : ArrayBuffer)
    (sess : Session) (s : State) :
  audioWorkletNode s = true ->
  session (run events (getUserMedia_resolved s)) = Some sess ->
  isRecording (run events (getUserMedia_resolved s)) = true ->
  buffer <> [] ->
  strayNodes (getUserMedia_resolved s) = S (strayNodes s)
  /\ 0 < strayNodes (run events (getUserMedia_resolved s))
  /\ transmitted (handle (stray_posted (pcmData buffer))
                    (run events (getUserMedia_resolved s)))
     = transmitted (run events (getUserMedia_resolved s))
         ++ [(sess, {| data := arrayBufferToBase64 buffer;
                       mimeType := "audio/pcm;rate=16000" |})].
Proof.
  intros Hnode Hs Hr Hne.
  assert (H1 : strayNodes (getUserMedia_resolved s) = S (strayNodes s)).
  { rewrite stray_getUserMedia_resolved, Hnode. reflexivity. }
  pose proof (stray_run events (getUserMedia_resolved s)) as Hmono.
  assert (Hpos : 0 < strayNodes (run events (getUserMedia_resolved s))) by lia.
  split; [exact H1|]. split; [exact Hpos|].
  cbn [handle]. replace (0 <? _) with true by (symmetry; now apply Nat.ltb_lt).
  unfold port_onmessage. rewrite Hs, Hr.
  destruct buffer as [|b buffer]; [congruence|]. reflexivity.
Qed.

(** The node of the first grant of [two_grants], after the user has hung
    up and called again. *)
Lemma overwritten_node_keeps_sending_witness :
  strayNodes (getUserMedia_resolved (run first_grant initial)) = 1
  /\ transmitted
       (handle (stray_posted (pcmData [Byte.xff; Byte.x1f]))
          (run hang_up_and_call_again (getUserMedia_resolved (run first_grant initial))))
     = transmitted
         (run hang_up_and_call_again (getUserMedia_resolved (run first_grant initial)))
         ++ [(3%nat, {| data := arrayBufferToBase64 [Byte.xff; Byte.x1f];
                        mimeType := "audio/pcm;rate=16000" |})].
Proof.
  assert (Hnode : audioWorkletNode (run first_grant initial) = true)
    by (vm_compute; reflexivity).
  assert (Hs : session (run hang_up_and_call_again
                          (getUserMedia_resolved (run first_grant initial))) = Some 3%nat)
    by (vm_compute; reflexivity).
  assert (Hr : isRecording (run hang_up_and_call_again
                              (getUserMedia_resolved (run first_grant initial))) = true)
    by (vm_compute; reflexivity).
  assert (Hne : [Byte.xff; Byte.x1f] <> []) by discriminate.
  destruct (overwritten_node_keeps_sending hang_up_and_call_again [Byte.xff; Byte.x1f]
              3%nat (run first_grant initial) Hnode Hs Hr Hne)
    as (Hstray & _ & Hsent).
  split; [|exact Hsent].
  rewrite Hstray. vm_compute. reflexivity.
Defined.
End StrayFacts.
